(** * OMR scanner: the recognition and scoring pipeline of [omr_core.py]

    The functions of [omr_core.py] are embedded as Rocq functions and the
    properties the specification states about them are proved.

    - Python [int] is [Z]; Python [float] is IEEE binary64, taken from the
      Standard Library's [SpecFloat] at precision 53 and [emax] 1024, so
      that [w / float(h)] and [int((x - lo) / col_width)] round the way
      the interpreter does.
    - Python [dict] is stdpp's [gmap]; [list] is [list]; [str] is [string],
      read as a sequence of code points below 256.
    - An exception is a value of [exn] carried by [result].
    - The calls into OpenCV and pandas are the fields of the class
      [Externals]: what they return is data, how they compute it is not
      modelled. The HTML of the report is not modelled either: the report
      is the list of what each sheet contributes.
    - [int(s)] raises [ValueError] on a string of more than 4300 digits,
      the interpreter's default limit on integer string conversion.

    The file has three parts: the embedding, with the notions the
    statements use; the properties; the properties at worked inputs. *)

From Stdlib Require Import ZArith QArith Qround List String Ascii Bool Lia ZifyBool.
From Stdlib Require Import Reals Lra Psatz.
From Stdlib Require Import SpecFloat PrimFloat FloatOps.
From stdpp Require Import base option list gmap strings sorting.

Local Open Scope string_scope.
Local Open Scope list_scope.
Local Open Scope Z_scope.

(** ** Exceptions *)

Inductive exn : Type :=
| ZeroDivisionError
| OverflowError
| ValueError
| ExternalError.

Inductive result (A : Type) : Type :=
| Ok (a : A)
| Raise (e : exn).

Arguments Ok {A} a.
Arguments Raise {A} e.

Definition rbind {A B : Type} (r : result A) (k : A -> result B) : result B :=
  match r with
  | Ok a => k a
  | Raise e => Raise e
  end.

#[global] Instance result_bind : MBind result := fun A B k r => rbind r k.
#[global] Instance result_ret : MRet result := fun A a => Ok a.

(** [\[f(x) for x in l\]] where [f] may raise: the first exception, in list
    order, aborts the traversal. *)
Fixpoint rmap {A B : Type} (f : A -> result B) (l : list A) : result (list B) :=
  match l with
  | [] => Ok []
  | x :: l' => y ← f x; ys ← rmap f l'; Ok (y :: ys)
  end.

(** A [for] loop whose body may raise: the state is threaded through the
    elements in order and the first exception ends the loop. *)
Fixpoint rfoldl {A B : Type} (f : B -> A -> result B) (b : B) (l : list A)
    : result B :=
  match l with
  | [] => Ok b
  | x :: l' => b' ← f b x; rfoldl f b' l'
  end.

(** [range(a, b)] *)
Definition range (a b : Z) : list Z :=
  map (fun i => a + Z.of_nat i) (seq 0 (Z.to_nat (b - a))).

(** ** Python floats *)

Module PyFloat.

Definition prec : Z := 53.
Definition emax : Z := 1024.

Definition is_zero (f : spec_float) : bool :=
  match f with
  | S754_zero _ => true
  | _ => false
  end.

(** [float(z)], also the conversion of the integer operand of a mixed
    [int / float] division: round to nearest, ties to even; too large an
    integer raises. *)
Definition of_int (z : Z) : result spec_float :=
  match binary_normalize prec emax z 0 false with
  | S754_infinity _ => Raise OverflowError
  | f => Ok f
  end.

(** [a / b] on two floats. *)
Definition truediv (a b : spec_float) : result spec_float :=
  if is_zero b then Raise ZeroDivisionError else Ok (SFdiv prec emax a b).

(** The integer [z] with exponent 0, not yet rounded. *)
Definition raw (z : Z) : spec_float :=
  match z with
  | Z0 => S754_zero false
  | Zpos p => S754_finite false p 0
  | Zneg p => S754_finite true p 0
  end.

(** [a / b] on two ints: the correctly rounded quotient. *)
Definition int_truediv (a b : Z) : result spec_float :=
  if b =? 0 then Raise ZeroDivisionError
  else match SFdiv prec emax (raw a) (raw b) with
       | S754_infinity _ => Raise OverflowError
       | f => Ok f
       end.

(** [a / b] with [a] an int and [b] a float. *)
Definition int_float_truediv (a : Z) (b : spec_float) : result spec_float :=
  fa ← of_int a; truediv fa b.

(** [int(f)]: truncation toward zero. *)
Definition to_int (f : spec_float) : result Z :=
  match f with
  | S754_zero _ => Ok 0
  | S754_finite s m e =>
      let v := Z.shiftl (Zpos m) e in
      Ok (if s then - v else v)
  | S754_infinity _ => Raise OverflowError
  | S754_nan => Raise ValueError
  end.

(** [a <= b] *)
Definition le (a b : spec_float) : bool := SFleb a b.

(** The literals [0.8] and [1.3]: the binary64 values nearest to 4/5 and
    13/10. *)
Definition f0_8 : spec_float := S754_finite false 7205759403792794 (-53).
Definition f1_3 : spec_float := S754_finite false 5854679515581645 (-52).

End PyFloat.

(** ** [sorted(l, key=...)]

    Python's sort is stable and compares keys with [<] only. Insertion
    from the right gives the same list: an element goes in front of the
    first element whose key is not smaller than its own. *)

Section Sorted.
Context {A K : Type} (lt : K -> K -> bool) (key : A -> K).

Fixpoint insert_by (x : A) (l : list A) : list A :=
  match l with
  | [] => [x]
  | y :: l' => if lt (key y) (key x) then y :: insert_by x l' else x :: y :: l'
  end.

Definition sorted (l : list A) : list A := foldr insert_by [] l.

(** [a] may stand before [b] in a sorted list. *)
Definition key_le (a b : A) : Prop := lt (key b) (key a) = false.

End Sorted.

(** The key function may raise: the keys are computed first, for every
    element in order, and then the decorated list is sorted. *)
Definition sorted_r {A K : Type} (lt : K -> K -> bool) (key : A -> result K)
    (l : list A) : result (list A) :=
  ks ← rmap key l; Ok (map snd (sorted lt fst (zip ks l))).

(** [<] on pairs of ints, as Python compares tuples. *)
Definition tuple_lt (a b : Z * Z) : bool :=
  (a.1 <? b.1) || ((a.1 =? b.1) && (a.2 <? b.2)).

(** [max(l)] and [min(l)] of a list of ints; an empty list raises. *)
Definition py_max (l : list Z) : result Z :=
  match l with
  | [] => Raise ValueError
  | x :: l' => Ok (foldl (fun m y => if m <? y then y else m) x l')
  end.

Definition py_min (l : list Z) : result Z :=
  match l with
  | [] => Raise ValueError
  | x :: l' => Ok (foldl (fun m y => if y <? m then y else m) x l')
  end.

(** ** The answer key reader ([parse_answer_key])

    The pattern is [(\d+)\s*[-.\s]\s*([a-d])], used with [re.search] and
    [re.IGNORECASE]. *)

Module Re.

Definition code (c : ascii) : N := N_of_ascii c.

(** [\d] *)
Definition is_digit (c : ascii) : bool :=
  ((48 <=? code c) && (code c <=? 57))%N.

(** [\s]: tab, line feed, vertical tab, form feed, carriage return, the
    four separators 28..31, space, and among the code points 128..255 the
    next-line character and the no-break space. *)
Definition is_space (c : ascii) : bool :=
  (((9 <=? code c) && (code c <=? 13)) ||
   ((28 <=? code c) && (code c <=? 32)) ||
   (code c =? 133) || (code c =? 160))%N.

(** [[-.\s]] *)
Definition is_sep (c : ascii) : bool :=
  ((code c =? 45) || (code c =? 46))%N || is_space c.

(** [[a-d]] under [re.IGNORECASE] *)
Definition is_a_d (c : ascii) : bool :=
  (((97 <=? code c) && (code c <=? 100)) ||
   ((65 <=? code c) && (code c <=? 68)))%N.

Section Backtrack.
Context {R : Type}.

(** One character of class [p], then [k] on the rest. *)
Definition one (p : ascii -> bool) (k : ascii -> list ascii -> option R)
    (s : list ascii) : option R :=
  match s with
  | c :: s' => if p c then k c s' else None
  | [] => None
  end.

(** Greedy [p*]: take one more character when possible and give it back
    when the rest of the pattern then fails. [acc] is the text taken so
    far. *)
Fixpoint star (p : ascii -> bool) (k : list ascii -> list ascii -> option R)
    (acc : list ascii) (s : list ascii) : option R :=
  match s with
  | c :: s' =>
      if p c then
        match star p k (acc ++ [c]) s' with
        | Some r => Some r
        | None => k acc s
        end
      else k acc s
  | [] => k acc s
  end.

(** Greedy [p+] *)
Definition plus (p : ascii -> bool) (k : list ascii -> list ascii -> option R)
    (s : list ascii) : option R :=
  one p (fun c s' => star p k [c] s') s.

End Backtrack.

(** The pattern tried at the start of [s]: the two groups of the match. *)
Definition match_here (s : list ascii) : option (list ascii * ascii) :=
  plus is_digit (fun g1 s1 =>
    star is_space (fun _ s2 =>
      one is_sep (fun _ s3 =>
        star is_space (fun _ s4 =>
          one is_a_d (fun g2 _ => Some (g1, g2)) s4)
        [] s3) s2)
    [] s1) s.

(** [re.search]: the first start position, from the left, where the
    pattern matches. *)
Fixpoint search (s : list ascii) : option (list ascii * ascii) :=
  match match_here s with
  | Some r => Some r
  | None =>
      match s with
      | _ :: s' => search s'
      | [] => None
      end
  end.

End Re.

(** The number a string of decimal digits writes. *)
Definition int_of_digits (s : list ascii) : Z :=
  fold_left (fun acc c => 10 * acc + (Z.of_N (N_of_ascii c) - 48)) s 0.

(** [int(s)] for a string of decimal digits: a string of more than 4300
    digits, leading zeros included, raises [ValueError]. *)
Definition py_int (s : list ascii) : result Z :=
  if 4300 <? Z.of_nat (length s) then Raise ValueError
  else Ok (int_of_digits s).

(** [c.upper()] for a letter. *)
Definition upper (c : ascii) : ascii :=
  if ((97 <=? N_of_ascii c) && (N_of_ascii c <=? 122))%N
  then ascii_of_N (N_of_ascii c - 32) else c.

(** Lines 14-19, what one cell adds to the key: nothing for NaN and for
    a cell the pattern does not match, the pair [(q_num, answer_letter)]
    for a match, or the exception of [int]. *)
Definition cell_entry (item : option string) : result (option (Z * string)) :=
  match item with
  | None => Ok None
  | Some s =>
      match Re.search (list_ascii_of_string s) with
      | Some (g1, g2) =>
          q_num ← py_int g1;
          Ok (Some (q_num, String (upper g2) EmptyString))
      | None => Ok None
      end
  end.

(** The body of [for item in df.values.flatten()]. *)
Definition key_step (answers : gmap Z string) (item : option string)
    : result (gmap Z string) :=
  entry ← cell_entry item;
  match entry with
  | Some (q_num, answer_letter) => Ok (<[q_num := answer_letter]> answers)
  | None => Ok answers
  end.

(** The dictionary [parse_answer_key] returns: the answers, or the single
    entry ["error"]. *)
Inductive key_result : Type :=
| KeyAnswers (answers : gmap Z string)
| KeyError (e : exn).

(** ["error" in answer_key]: the keys of the answers are ints. *)
Definition has_error (k : key_result) : bool :=
  match k with
  | KeyAnswers _ => false
  | KeyError _ => true
  end.

(** ** The pipeline *)

Definition Row : Type := Z * string * string * string.

Definition row_q (r : Row) : Z := r.1.1.1.
Definition row_student (r : Row) : string := r.1.1.2.
Definition row_correct (r : Row) : string := r.1.2.
Definition row_status (r : Row) : string := r.2.

(** What one sheet adds to the report: the warning of line 93, the score
    and table of lines 113-127, or the error of line 130. *)
Inductive outcome : Type :=
| Warning (filename : string) (found : nat)
| Scored (filename : string) (score : Z) (results_data : list Row)
| Failed (filename : string) (e : exn).

Inductive report : Type :=
| UploadPrompt
| KeyFailure (e : exn)
| Batch (outcomes : list outcome).

(** [chr(ord('A') + j)] *)
Definition letter (j : nat) : string :=
  String (ascii_of_nat (65 + j)) EmptyString.

(** One iteration of [for q_num in range(1, 101)]; the state is
    [(score, results_data)]. *)
Definition score_step (answer_key student_answers : gmap Z string)
    (st : Z * list Row) (q_num : Z) : Z * list Row :=
  let '(score, results_data) := st in
  let correct_answer := default "N/A" (answer_key !! q_num) in
  let student_answer := default "Unanswered" (student_answers !! q_num) in
  if negb (String.eqb student_answer "Unanswered") then
    if String.eqb student_answer correct_answer then
      (score + 1,
       results_data ++ [(q_num, student_answer, correct_answer, "Correct")])
    else
      (score,
       results_data ++ [(q_num, student_answer, correct_answer, "Incorrect")])
  else
    (score,
     results_data ++ [(q_num, student_answer, correct_answer, "Unanswered")]).

Definition score_rows (answer_key student_answers : gmap Z string)
    : Z * list Row :=
  foldl (score_step answer_key student_answers) (0, []) (range 1 101).

(** The calls into OpenCV and pandas. *)
Class Externals : Type := {
  (** A contour, a color image as [cv2.imread] returns it (possibly
      [None]), a binary mask, and the uploaded key file. *)
  Contour : Type;
  Image : Type;
  Thresh : Type;
  KeyFile : Type;
  (** [cv2.boundingRect(c)]: [(x, y, w, h)]. *)
  boundingRect : Contour -> Z * Z * Z * Z;
  (** The pixels of the mask inside the filled contour, lines 63-66:
      [drawContours], [bitwise_and], [countNonZero]. *)
  masked_count : Thresh -> Contour -> Z;
  (** Lines 26-30: [cvtColor], [adaptiveThreshold], [findContours],
      [grab_contours]. They raise on an image that could not be read. *)
  find_contours : Image -> result (list Contour * Thresh);
  (** [pd.read_csv(path, header=None)] followed by [df.values.flatten()]:
      the cells in row-major order, [None] for NaN and [Some (str(item))]
      otherwise; or the exception of an unreadable file. *)
  read_csv : KeyFile -> result (list (option string))
}.

Section Pipeline.
Context `{Externals}.

Definition rect_x (c : Contour) : Z := (boundingRect c).1.1.1.
Definition rect_y (c : Contour) : Z := (boundingRect c).1.1.2.
Definition rect_w (c : Contour) : Z := (boundingRect c).1.2.
Definition rect_h (c : Contour) : Z := (boundingRect c).2.

(** *** [parse_answer_key]

    The [try] covers the reading of the file and the loop over the
    cells: an exception of either gives the error result, and the entries
    read so far are lost. *)

Definition parse_answer_key (key_file_path : KeyFile) : key_result :=
  match items ← read_csv key_file_path; rfoldl key_step ∅ items with
  | Ok answers => KeyAnswers answers
  | Raise e => KeyError e
  end.

(** *** [find_and_sort_bubbles] *)

(** Lines 34-36: the test of one contour. *)
Definition is_bubble (c : Contour) : result bool :=
  let '(x, y, w, h) := boundingRect c in
  fh ← PyFloat.of_int h;
  ar ← PyFloat.int_float_truediv w fh;
  Ok ((20 <=? w) && (20 <=? h) &&
      PyFloat.le PyFloat.f0_8 ar && PyFloat.le ar PyFloat.f1_3).

(** Lines 32-37: the loop that keeps the accepted contours. *)
Fixpoint filter_bubbles (question_cnts : list Contour) (cnts : list Contour)
    : result (list Contour) :=
  match cnts with
  | [] => Ok question_cnts
  | c :: cnts' =>
      b ← is_bubble c;
      filter_bubbles (if b : bool then question_cnts ++ [c] else question_cnts) cnts'
  end.

(** Line 46: [get_col], closed over [x_coords] and [col_width]. *)
Definition get_col (x_coords : list Z) (col_width : spec_float) (x : Z)
    : result Z :=
  lo ← py_min x_coords;
  q ← PyFloat.int_float_truediv (x - lo) col_width;
  i ← PyFloat.to_int q;
  Ok (Z.min 4 i).

(** Lines 39-48: the ordering of the accepted contours. *)
Definition grid_order (question_cnts : list Contour) : result (list Contour) :=
  let question_cnts := sorted tuple_lt (fun c => (rect_x c, rect_y c)) question_cnts in
  if (100 <? length question_cnts)%nat then
    let x_coords := map rect_x question_cnts in
    hi ← py_max x_coords;
    lo ← py_min x_coords;
    col_width ← PyFloat.int_truediv (hi - lo) 5;
    sorted_r tuple_lt
      (fun c => col ← get_col x_coords col_width (rect_x c); Ok (col, rect_y c))
      question_cnts
  else Ok question_cnts.

Definition find_and_sort_bubbles (image : Image)
    : result (list Contour * Thresh) :=
  '(cnts, thresh) ← find_contours image;
  question_cnts ← filter_bubbles [] cnts;
  question_cnts ← grid_order question_cnts;
  Ok (question_cnts, thresh).

(** *** [extract_student_answers] *)

(** Lines 62-68: one step of the scan of a row; [bubbled] is [None] or
    the pair [(total, j)]. *)
Definition bubble_step (thresh : Thresh) (bubbled : option (Z * nat))
    (jc : nat * Contour) : option (Z * nat) :=
  let '(j, c) := jc in
  let total := masked_count thresh c in
  match bubbled with
  | None => Some (total, j)
  | Some (best, _) => if best <? total then Some (total, j) else bubbled
  end.

(** Lines 56-71: the body of [for i in range(num_questions)]. *)
Definition answer_step (question_cnts : list Contour) (thresh : Thresh)
    (student_answers : gmap Z string) (i : nat) : gmap Z string :=
  let start_index := (i * 4)%nat in
  let row_cnts :=
    sorted Z.ltb rect_x (take 4 (drop start_index question_cnts)) in
  let bubbled := foldl (bubble_step thresh) None (imap pair row_cnts) in
  match bubbled with
  | Some (total, j) =>
      if 150 <? total then <[Z.of_nat i + 1 := letter j]> student_answers
      else student_answers
  | None => student_answers
  end.

Definition extract_student_answers (question_cnts : list Contour)
    (thresh : Thresh) : gmap Z string :=
  let num_questions := (length question_cnts / 4)%nat in
  foldl (answer_step question_cnts thresh) ∅ (seq 0 num_questions).

(** *** [score_omr_sheets] *)

Record sheet : Type := { sheet_name : string; sheet_image : Image }.

(** The body of the [try] for one sheet, lines 87-127. *)
Definition score_sheet (answer_key : gmap Z string) (image_obj : sheet)
    : result outcome :=
  '(bubbles, thresh) ← find_and_sort_bubbles (sheet_image image_obj);
  if (length bubbles <? 100)%nat then
    Ok (Warning (sheet_name image_obj) (length bubbles))
  else
    let student_answers := extract_student_answers bubbles thresh in
    let '(score, results_data) := score_rows answer_key student_answers in
    Ok (Scored (sheet_name image_obj) score results_data).

(** One iteration of [for image_obj in omr_images], with its [except]. *)
Definition process_sheet (answer_key : gmap Z string)
    (final_html_report : list outcome) (image_obj : sheet) : list outcome :=
  match score_sheet answer_key image_obj with
  | Ok o => final_html_report ++ [o]
  | Raise e => final_html_report ++ [Failed (sheet_name image_obj) e]
  end.

Definition score_omr_sheets (omr_images : option (list sheet))
    (answer_key_file : option KeyFile) : report :=
  match omr_images, answer_key_file with
  | Some omr_images, Some answer_key_file =>
      match parse_answer_key answer_key_file with
      | KeyError e => KeyFailure e
      | KeyAnswers answer_key =>
          Batch (foldl (process_sheet answer_key) [] omr_images)
      end
  | _, _ => UploadPrompt
  end.

End Pipeline.

(** *** [style_rows]

    Lines 118-123: the function [df.style.apply] calls on every row of the
    table; [len(row)] is 4, the number of columns of [results_data]. *)
Definition style_rows (row : Row) : list string :=
  if String.eqb (row_status row) "Correct" then
    replicate 4 "background-color: #d4edda"
  else if String.eqb (row_status row) "Incorrect" then
    replicate 4 "background-color: #f8d7da"
  else replicate 4 "".

(** ** Notions the statements use *)

(** The letters the mark selector can record: [chr(ord('A') + j)] for
    [j] in 0..3. *)
Definition is_option_letter (s : string) : Prop :=
  s = "A" \/ s = "B" \/ s = "C" \/ s = "D".

(** The number of rows of a report with a given status. *)
Definition count_status (st : string) (rows : list Row) : Z :=
  Z.of_nat (length (filter (fun r => row_status r = st) rows)).

(** The row the scoring loop appends for question [q]. *)
Definition row_of (answer_key student_answers : gmap Z string) (q : Z) : Row :=
  (snd (score_step answer_key student_answers (0, []) q)) !!! 0%nat.

(** [row !! j] is the first element of [row] whose measure [f] is
    maximal, and that maximum is [t]. *)
Definition first_max {A : Type} (f : A -> Z) (row : list A) (t : Z) (j : nat)
    : Prop :=
  (exists c, row !! j = Some c /\ f c = t) /\
  (forall c', c' ∈ row -> f c' <= t) /\
  (forall j' c', (j' < j)%nat -> row !! j' = Some c' -> f c' < t).

(** [s] is empty or starts with a character outside the class [p]. *)
Definition stops (p : ascii -> bool) (s : list ascii) : Prop :=
  match s with
  | [] => True
  | c :: _ => p c = false
  end.

(** The text [s] begins with an occurrence of the answer pattern: the
    digits [g1], optional whitespace, one separator (hyphen, period or a
    whitespace character), optional whitespace, and the letter [g2]. *)
Definition occurs_at (s g1 : list ascii) (g2 : ascii) : Prop :=
  exists ws1 sep ws2 rest,
    s = g1 ++ ws1 ++ [sep] ++ ws2 ++ [g2] ++ rest /\
    g1 <> [] /\
    forallb Re.is_digit g1 = true /\
    forallb Re.is_space ws1 = true /\
    Re.is_sep sep = true /\
    forallb Re.is_space ws2 = true /\
    Re.is_a_d g2 = true.

(** [g1] and [g2] are the groups of the leftmost occurrence in [cell]. *)
Definition leftmost_occurrence (cell g1 : list ascii) (g2 : ascii) : Prop :=
  exists pre suf,
    cell = pre ++ suf /\
    occurs_at suf g1 g2 /\
    forall pre' suf' h1 h2,
      cell = pre' ++ suf' -> (length pre' < length pre)%nat ->
      ~ occurs_at suf' h1 h2.

(** The cell is nothing but an integer, one of the separators space,
    hyphen and period, and one letter a-d in either case. *)
Definition strict_cell (cell : string) (q : Z) (L : string) : Prop :=
  exists ds sep g,
    list_ascii_of_string cell = ds ++ [sep; g] /\
    ds <> [] /\
    forallb Re.is_digit ds = true /\
    (sep = " "%char \/ sep = "-"%char \/ sep = "."%char) /\
    Re.is_a_d g = true /\
    q = int_of_digits ds /\
    L = String (upper g) EmptyString.

(** Notions about binary64 values. *)
Module PyFloatSpec.
Import PyFloat.

(** The last step of [binary_round_aux]: renormalise and check the range. *)
Definition finish (m e : Z) : spec_float :=
  let '(mrs, e') := shr_fexp prec emax m e loc_Exact in
  match shr_m mrs with
  | Z0 => S754_zero false
  | Zpos m => if e' <=? emax - prec then S754_finite false m e'
              else S754_infinity false
  | Zneg _ => S754_nan
  end.

(** How a location describes the remainder [r] of a division by [m2]. *)
Definition loc_rel (r m2 : Z) (l : location) : Prop :=
  match l with
  | loc_Exact => r = 0
  | loc_Inexact Lt => 0 < r /\ 2 * r < m2
  | loc_Inexact Eq => 0 < r /\ 2 * r = m2
  | loc_Inexact Gt => m2 < 2 * r
  end.

(** [2 ^ e] as a real, for any integer [e]. *)
Definition B (e : Z) : R := powerRZ 2 e.

(** The real number a finite float stands for. *)
Definition val (f : spec_float) : R :=
  match f with
  | S754_finite s m e =>
      ((if s then -1 else 1) * IZR (Zpos m) * B e)%R
  | _ => 0%R
  end.

(** A positive float with a full 53-bit mantissa. *)
Definition normal (f : spec_float) : Prop :=
  match f with
  | S754_finite false m e => 2 ^ 52 <= Zpos m < 2 ^ 53
  | _ => False
  end.

(** Half a unit in the last place of 1: [2 ^ -53]. *)
Definition eps : R := (/ 9007199254740992)%R.

End PyFloatSpec.

Section PipelineSpec.
Context `{Externals}.

(** A bounding box as OpenCV returns it for a contour: 32-bit
    coordinates, at least one pixel wide and high. *)
Definition rect_ok (c : Contour) : Prop :=
  - 2 ^ 31 <= rect_x c < 2 ^ 31 /\ - 2 ^ 31 <= rect_y c < 2 ^ 31 /\
  1 <= rect_w c < 2 ^ 31 /\ 1 <= rect_h c < 2 ^ 31.

(** The aspect ratio [w / h] as a rational number. *)
Definition aspect (c : Contour) : Q :=
  (inject_Z (rect_w c) / inject_Z (rect_h c))%Q.

(** The acceptance rule in the specification's words: at least 20 wide
    and high, aspect ratio between 0.8 and 1.3. *)
Definition is_candidate (c : Contour) : Prop :=
  20 <= rect_w c /\ 20 <= rect_h c /\
  (8 # 10 <= aspect c)%Q /\ (aspect c <= 13 # 10)%Q.

#[global] Instance is_candidate_dec (c : Contour) : Decision (is_candidate c).
Proof. unfold is_candidate, Qle. apply _. Defined.

(** The same rule on integers. *)
Definition candidateb (c : Contour) : bool :=
  (20 <=? rect_w c) && (20 <=? rect_h c) &&
  (4 * rect_h c <=? 5 * rect_w c) && (10 * rect_w c <=? 13 * rect_h c).

(** The band of the specification: [min(4, floor((x - lo) / ((hi - lo) / 5)))]. *)
Definition band (lo hi x : Z) : Z :=
  Z.min 4 (Qfloor (inject_Z (x - lo) / (inject_Z (hi - lo) / 5))%Q).

(** The candidates after line 39. *)
Definition sorted_xy (cnts : list Contour) : list Contour :=
  sorted tuple_lt (fun c => (rect_x c, rect_y c)) cnts.

(** The candidates after line 48, for the extremes [lo] and [hi]. *)
Definition sorted_bands (lo hi : Z) (cnts : list Contour) : list Contour :=
  sorted tuple_lt (fun c => (band lo hi (rect_x c), rect_y c)) (sorted_xy cnts).

(** The scan of a row, lines 61-68. *)
Definition scan_row (thresh : Thresh) (row_cnts : list Contour)
    : option (Z * nat) :=
  foldl (bubble_step thresh) None (imap pair row_cnts).

(** The four candidates of question [i + 1], left to right. *)
Definition row_of_question (question_cnts : list Contour) (i : nat)
    : list Contour :=
  sorted Z.ltb rect_x (take 4 (drop (i * 4) question_cnts)).

(** What iteration [i] of the mark selector decides. *)
Definition decision (thresh : Thresh) (question_cnts : list Contour) (i : nat)
    : option string :=
  match scan_row thresh (row_of_question question_cnts i) with
  | Some (total, j) => if 150 <? total then Some (letter j) else None
  | None => None
  end.

(** [lo] and [hi] are the least and the greatest element of [xs]. *)
Definition extremes (xs : list Z) (lo hi : Z) : Prop :=
  lo ∈ xs /\ hi ∈ xs /\ forall x, x ∈ xs -> lo <= x <= hi.

(** The reading order of single-column mode: by [(x, y)]. *)
Definition xy_le (a b : Contour) : Prop :=
  rect_x a < rect_x b \/ (rect_x a = rect_x b /\ rect_y a <= rect_y b).

(** The reading order of multi-column mode: by [(band, y)]. *)
Definition band_y_le (lo hi : Z) (a b : Contour) : Prop :=
  band lo hi (rect_x a) < band lo hi (rect_x b) \/
  (band lo hi (rect_x a) = band lo hi (rect_x b) /\ rect_y a <= rect_y b).

(** What one sheet contributes to the batch report. *)
Definition sheet_outcome (answer_key : gmap Z string) (image_obj : sheet)
    : outcome :=
  match score_sheet answer_key image_obj with
  | Ok o => o
  | Raise e => Failed (sheet_name image_obj) e
  end.

End PipelineSpec.

(** The entries of the cells that are read to an entry, in cell order. *)
Definition key_entries (items : list (option string)) : list (Z * string) :=
  omap (fun item => match cell_entry item with
                    | Ok entry => entry
                    | Raise _ => None
                    end) items.

(** The file name an outcome is reported under. *)
Definition outcome_name (o : outcome) : string :=
  match o with
  | Warning filename _ => filename
  | Scored filename _ _ => filename
  | Failed filename _ => filename
  end.

(** The reading order of multi-column mode, ties included: by band, then
    by [y], then by [x]. *)
Definition band_y_x_le `{Externals} (lo hi : Z) (a b : Contour) : Prop :=
  band lo hi (rect_x a) < band lo hi (rect_x b) \/
  (band lo hi (rect_x a) = band lo hi (rect_x b) /\
   (rect_y a < rect_y b \/ (rect_y a = rect_y b /\ rect_x a <= rect_x b))).

(** ** Worked inputs *)

(** A stand-in for OpenCV and pandas: a contour is its bounding box with
    the number of mask pixels inside it, an image is the list of its
    external contours or [None] when it could not be read, and a key file
    is the list of its cells or [None] when it could not be read. *)
Definition demo : Externals := {|
  Contour := Z * Z * Z * Z * Z;
  Image := option (list (Z * Z * Z * Z * Z));
  Thresh := unit;
  KeyFile := option (list (option string));
  boundingRect := fun c => c.1;
  masked_count := fun _ c => c.2;
  find_contours := fun image =>
    match image with
    | Some cnts => Ok (cnts, tt)
    | None => Raise ExternalError
    end;
  read_csv := fun path =>
    match path with
    | Some items => Ok items
    | None => Raise ExternalError
    end
|}.

(** A bubble 20 pixels wide and high at [(x, y)] with [ink] mask pixels. *)
Definition bubble (x y ink : Z) : Z * Z * Z * Z * Z := (x, y, 20, 20, ink).

(** Question [i] of a one-column sheet: four bubbles in a row, the one of
    rank [mark] filled. *)
Definition question_row (i : nat) (mark : nat) : list (Z * Z * Z * Z * Z) :=
  map (fun j => bubble (Z.of_nat (i * 4 + j)) 7
                  (if Nat.eqb j mark then 200 else 0)) (seq 0 4).

(** The cells of a key file: two plain entries, a missing value, a cell
    without an entry, and a cell with text around the entry. *)
Definition key_cells : list (option string) :=
  [Some "1-A"; Some "2 b"; None; Some "notanentry"; Some "Q3. Delhi"].

(** The marks of the specification's end-to-end scenario: question 1 is
    marked A, question 2 is marked C, question 3 is marked A, and no
    other question is marked. *)
Definition marks_scenario (i : nat) : nat :=
  match i with
  | 0%nat => 0%nat
  | 1%nat => 2%nat
  | 2%nat => 0%nat
  | _ => 4%nat
  end.

(** The sheet of that scenario: 100 candidates in one column, that is 25
    questions. *)
Definition sheet_scenario : sheet (H := demo) :=
  @Build_sheet demo "scenario.png"
    (Some (flat_map (fun i => question_row i (marks_scenario i)) (seq 0 25))).

(** A sheet with 99 candidates. *)
Definition sheet_99 : sheet (H := demo) :=
  @Build_sheet demo "short.png"
    (Some (map (fun i => bubble (Z.of_nat i) 7 0) (seq 0 99))).

(** A sheet with 101 candidates in one vertical line. *)
Definition sheet_flat : sheet (H := demo) :=
  @Build_sheet demo "line.png"
    (Some (map (fun i => bubble 50 (30 * Z.of_nat i) 0) (seq 0 101))).

(** A sheet that could not be read. *)
Definition sheet_unreadable : sheet (H := demo) :=
  @Build_sheet demo "missing.png" None.

(** 120 candidates in five columns 100 pixels apart. *)
Definition cnts_columns : list (Z * Z * Z * Z * Z) :=
  map (fun i => bubble (100 * Z.of_nat (i mod 5)) (30 * Z.of_nat (i / 5)) 0)
      (seq 0 120).

(** The key of that scenario. *)
Definition key_scenario : list (option string) := [Some "1-A"; Some "2-B"].

(** Regions at the edges of the acceptance rule: aspect ratio 0.8, 1.3
    and 1.35, a region too small, and a thin stroke. *)
Definition cnts_shapes : list (Z * Z * Z * Z * Z) :=
  [(0, 0, 20, 25, 0); (40, 0, 26, 20, 0); (80, 0, 27, 20, 0);
   (120, 0, 19, 19, 0); (160, 0, 3, 90, 0)].

(** A cell of [n] zeros, a hyphen and a letter. *)
Definition cell_of_digits (n : nat) : string :=
  string_of_list_ascii (repeat "0"%char n ++ ["-"; "b"]%char).

(** The same two cells in either order. *)
Definition key_cells_ab : list (option string) := [Some "1-A"; Some "2 b"].
Definition key_cells_ba : list (option string) := [Some "2 b"; Some "1-A"].

(** The same two regions found in either order. *)
Definition cnts_found : list (Z * Z * Z * Z * Z) :=
  [bubble 60 0 0; bubble 0 0 0].
Definition cnts_found_later : list (Z * Z * Z * Z * Z) :=
  [bubble 0 0 0; bubble 60 0 0].

(** A key and a response with entries outside the questions 1..100, and
    the same without them. *)
Definition key_wide : gmap Z string := <[0 := "A"]> (<[1 := "B"]> ∅).
Definition key_narrow : gmap Z string := <[1 := "B"]> ∅.
Definition answers_wide : gmap Z string := <[101 := "C"]> (<[1 := "B"]> ∅).
Definition answers_narrow : gmap Z string := <[1 := "B"]> ∅.

(** A response to the first three questions. *)
Definition answers_scenario : gmap Z string :=
  <[3 := "A"]> (<[2 := "C"]> (<[1 := "A"]> ∅)).

(** * Properties *)

(** ** The result monad *)

Lemma rmap_ok {A B : Type} (f : A -> result B) (g : A -> B) (l : list A) :
  (forall x, x ∈ l -> f x = Ok (g x)) -> rmap f l = Ok (map g l).
Proof.
  induction l as [|x l IH]; intros Hf; simpl; [reflexivity|].
  rewrite (Hf x) by apply list_elem_of_here. simpl.
  rewrite IH; [reflexivity|].
  intros y Hy. apply Hf. by apply list_elem_of_further.
Qed.

Lemma rmap_raise {A B : Type} (f : A -> result B) (e : exn) (l : list A) :
  l <> [] -> (forall x, x ∈ l -> f x = Raise e) -> rmap f l = Raise e.
Proof.
  destruct l as [|x l]; [done|]. intros _ Hf. simpl.
  rewrite (Hf x) by apply list_elem_of_here. reflexivity.
Qed.

(** ** [sorted] is a stable sort *)

Section SortedFacts.
Context {A K : Type} (lt : K -> K -> bool) (key : A -> K).

Hypothesis lt_asym : forall a b, lt a b = true -> lt b a = false.
Hypothesis ge_trans :
  forall a b c, lt b a = false -> lt c b = false -> lt c a = false.

Lemma insert_by_perm x l : insert_by lt key x l ≡ₚ x :: l.
Proof.
  induction l as [|y l IH]; simpl; [reflexivity|].
  destruct (lt (key y) (key x)); [|reflexivity].
  rewrite IH. apply Permutation_swap.
Qed.

Lemma sorted_perm l : sorted lt key l ≡ₚ l.
Proof.
  induction l as [|x l IH]; simpl; [reflexivity|].
  rewrite insert_by_perm. by rewrite IH.
Qed.

Lemma sorted_length l : length (sorted lt key l) = length l.
Proof. apply Permutation_length, sorted_perm. Qed.

Lemma insert_by_sorted x l :
  StronglySorted (key_le lt key) l ->
  StronglySorted (key_le lt key) (insert_by lt key x l).
Proof.
  induction 1 as [|y l Hs IH Hy]; simpl.
  - repeat constructor.
  - destruct (lt (key y) (key x)) eqn:Hlt.
    + constructor; [assumption|].
      rewrite Forall_forall. intros z Hz.
      rewrite insert_by_perm in Hz. apply elem_of_cons in Hz as [->|Hz].
      * by apply lt_asym.
      * rewrite Forall_forall in Hy. by apply Hy.
    + constructor; [by constructor|].
      constructor; [exact Hlt|].
      rewrite Forall_forall in Hy |- *. intros z Hz.
      unfold key_le. eapply ge_trans; [exact Hlt|]. by apply Hy.
Qed.

Lemma sorted_sorted l : StronglySorted (key_le lt key) (sorted lt key l).
Proof.
  induction l as [|x l IH]; simpl; [constructor|].
  by apply insert_by_sorted.
Qed.

(** Elements with the same key keep the order they had. *)
Lemma insert_by_stable `{EqDecision K} (k : K) x l :
  filter (fun y => key y = k) (insert_by lt key x l) =
  filter (fun y => key y = k) (x :: l).
Proof.
  induction l as [|y l IH]; simpl; [reflexivity|].
  destruct (lt (key y) (key x)) eqn:Hlt; [|reflexivity].
  rewrite filter_cons, IH, !filter_cons.
  destruct (decide (key y = k)) as [Hy|Hy];
    destruct (decide (key x = k)) as [Hx|Hx]; try reflexivity.
  exfalso. rewrite Hy, <- Hx in Hlt.
  pose proof (lt_asym _ _ Hlt). congruence.
Qed.

Lemma sorted_stable `{EqDecision K} (k : K) l :
  filter (fun y => key y = k) (sorted lt key l) =
  filter (fun y => key y = k) l.
Proof.
  induction l as [|x l IH]; simpl; [reflexivity|].
  rewrite insert_by_stable, !filter_cons, IH. reflexivity.
Qed.

End SortedFacts.

Lemma StronglySorted_weaken {A : Type} (R1 R2 : A -> A -> Prop) (l : list A) :
  (forall a b, R1 a b -> R2 a b) -> StronglySorted R1 l -> StronglySorted R2 l.
Proof.
  intros HR. induction 1 as [|x l Hs IH Hx]; constructor; [exact IH|].
  eapply Forall_impl; [exact Hx|]. intros y. apply HR.
Qed.

(** Sorting the decorated list is sorting by the key. *)
Lemma sorted_decorated {A K : Type} (lt : K -> K -> bool) (k : A -> K)
    (l : list A) :
  map snd (sorted lt fst (zip (map k l) l)) = sorted lt k l.
Proof.
  assert (Hins : forall x l',
    insert_by lt fst (k x, x) (map (fun y => (k y, y)) l') =
    map (fun y => (k y, y)) (insert_by lt k x l')).
  { intros x l'. induction l' as [|y l' IH]; simpl; [reflexivity|].
    destruct (lt (k y) (k x)); simpl; [by rewrite IH|reflexivity]. }
  assert (Hzip : zip (map k l) l = map (fun y => (k y, y)) l).
  { induction l as [|x l IH]; simpl; [reflexivity|]. by rewrite IH. }
  rewrite Hzip. clear Hzip.
  assert (Hs : sorted lt fst (map (fun y => (k y, y)) l) =
               map (fun y => (k y, y)) (sorted lt k l)).
  { induction l as [|x l IH]; simpl; [reflexivity|].
    rewrite <- Hins. f_equal. apply IH. }
  rewrite Hs, map_map. simpl. apply map_id.
Qed.

Lemma sorted_r_ok {A K : Type} (lt : K -> K -> bool) (key : A -> result K)
    (k : A -> K) (l : list A) :
  (forall x, x ∈ l -> key x = Ok (k x)) ->
  sorted_r lt key l = Ok (sorted lt k l).
Proof.
  intros Hk. unfold sorted_r. rewrite (rmap_ok key k l Hk). simpl.
  by rewrite sorted_decorated.
Qed.

Lemma sorted_r_raise {A K : Type} (lt : K -> K -> bool) (key : A -> result K)
    (e : exn) (l : list A) :
  l <> [] -> (forall x, x ∈ l -> key x = Raise e) ->
  sorted_r lt key l = Raise e.
Proof.
  intros Hl Hk. unfold sorted_r. by rewrite (rmap_raise key e l Hl Hk).
Qed.

(** The two orders the pipeline sorts by. *)
Lemma Zltb_asym a b : (a <? b) = true -> (b <? a) = false.
Proof. lia. Qed.

Lemma Zltb_ge_trans a b c :
  (b <? a) = false -> (c <? b) = false -> (c <? a) = false.
Proof. lia. Qed.

Lemma tuple_lt_asym a b : tuple_lt a b = true -> tuple_lt b a = false.
Proof. unfold tuple_lt. destruct a, b; simpl. lia. Qed.

Lemma tuple_lt_ge_trans a b c :
  tuple_lt b a = false -> tuple_lt c b = false -> tuple_lt c a = false.
Proof. unfold tuple_lt. destruct a, b, c; simpl. lia. Qed.

(** [tuple_lt] is the lexicographic order. *)
Lemma tuple_lt_false a b :
  tuple_lt b a = false <-> a.1 < b.1 \/ (a.1 = b.1 /\ a.2 <= b.2).
Proof. unfold tuple_lt. destruct a, b; simpl. lia. Qed.

(** ** [range] *)

Lemma range_lookup a b (i : nat) :
  (i < Z.to_nat (b - a))%nat -> range a b !! i = Some (a + Z.of_nat i).
Proof.
  intros Hi. unfold range. rewrite list_lookup_fmap.
  rewrite lookup_seq_lt by exact Hi. reflexivity.
Qed.

Lemma range_length a b : length (range a b) = Z.to_nat (b - a).
Proof. unfold range. by rewrite length_map, length_seq. Qed.

Lemma elem_of_range a b q : q ∈ range a b <-> a <= q < b.
Proof.
  unfold range. rewrite list_elem_of_fmap. split.
  - intros (i & -> & Hi). apply elem_of_seq in Hi. lia.
  - intros Hq. exists (Z.to_nat (q - a)). split; [lia|].
    apply elem_of_seq. lia.
Qed.

(** ** The scorer *)

Section Scorer.
Variables answer_key student_answers : gmap Z string.

Lemma score_step_app st q :
  score_step answer_key student_answers st q =
  (st.1 + count_status "Correct" [row_of answer_key student_answers q],
   st.2 ++ [row_of answer_key student_answers q]).
Proof.
  destruct st as [score rows]. unfold row_of, score_step. simpl.
  destruct (negb _); [destruct (String.eqb _ _)|]; simpl;
    f_equal; unfold count_status; simpl; lia.
Qed.

Lemma count_status_app st (l1 l2 : list Row) :
  count_status st (l1 ++ l2) = count_status st l1 + count_status st l2.
Proof. unfold count_status. rewrite filter_app, length_app. lia. Qed.

Lemma score_fold qs st :
  foldl (score_step answer_key student_answers) st qs =
  (st.1 + count_status "Correct" (map (row_of answer_key student_answers) qs),
   st.2 ++ map (row_of answer_key student_answers) qs).
Proof.
  revert st. induction qs as [|q qs IH]; intros st; simpl.
  - destruct st; simpl. f_equal; [unfold count_status; simpl; lia|].
    by rewrite app_nil_r.
  - rewrite IH, score_step_app. simpl.
    change (row_of answer_key student_answers q ::
            map (row_of answer_key student_answers) qs)
      with ([row_of answer_key student_answers q] ++
            map (row_of answer_key student_answers) qs).
    rewrite count_status_app, <- app_assoc. f_equal. lia.
Qed.

Lemma score_rows_eq :
  score_rows answer_key student_answers =
  (count_status "Correct"
     (map (row_of answer_key student_answers) (range 1 101)),
   map (row_of answer_key student_answers) (range 1 101)).
Proof. unfold score_rows. rewrite score_fold. reflexivity. Qed.

Lemma row_of_q q : row_q (row_of answer_key student_answers q) = q.
Proof.
  unfold row_of, score_step. simpl.
  destruct (negb _); [destruct (String.eqb _ _)|]; reflexivity.
Qed.

Lemma row_of_answers q :
  row_student (row_of answer_key student_answers q) =
    default "Unanswered" (student_answers !! q) /\
  row_correct (row_of answer_key student_answers q) =
    default "N/A" (answer_key !! q).
Proof.
  unfold row_of, score_step. simpl.
  destruct (negb _); [destruct (String.eqb _ _)|]; split; reflexivity.
Qed.

Lemma option_letter_not_reserved s :
  is_option_letter s -> s <> "Unanswered" /\ s <> "N/A".
Proof. intros [-> | [-> | [-> | ->]]]; split; discriminate. Qed.

Lemma row_of_status q :
  (forall s, student_answers !! q = Some s -> is_option_letter s) ->
  (row_status (row_of answer_key student_answers q) = "Unanswered" <->
     student_answers !! q = None) /\
  (row_status (row_of answer_key student_answers q) = "Correct" <->
     exists s, student_answers !! q = Some s /\ answer_key !! q = Some s) /\
  (row_status (row_of answer_key student_answers q) = "Incorrect" <->
     exists s, student_answers !! q = Some s /\ answer_key !! q <> Some s).
Proof.
  intros Hwf. unfold row_of, score_step. simpl.
  destruct (student_answers !! q) as [s|] eqn:Hs; simpl.
  - destruct (option_letter_not_reserved s (Hwf s eq_refl)) as [Hu Hn].
    destruct (String.eqb_spec s "Unanswered") as [?|_]; [done|]. simpl.
    destruct (answer_key !! q) as [k|] eqn:Hk; simpl.
    + destruct (String.eqb_spec s k) as [->|Hne]; simpl.
      * split; [split; discriminate|]. split.
        -- split; [eauto|done].
        -- split; [discriminate|]. intros (s' & [= <-] & Hc). done.
      * split; [split; discriminate|]. split.
        -- split; [discriminate|]. intros (s' & [= <-] & [= ->]). done.
        -- split; [|done]. intros _. exists s. split; [done|congruence].
    + destruct (String.eqb_spec s "N/A") as [?|_]; [done|]. simpl.
      split; [split; discriminate|]. split.
      * split; [discriminate|]. intros (s' & _ & [=]).
      * split; [|done]. intros _. exists s. done.
  - split; [done|]. split; (split; [discriminate|]); intros (s & [=] & _).
Qed.

End Scorer.

(** C1. For every answer key and every student response (a mapping from
    question numbers to option letters), the score report has exactly one
    row for each question 1..100 in ascending order; each row carries the
    student's answer (or "Unanswered") and the key's answer (or "N/A");
    its status is "Unanswered" iff the response has no entry for the
    question, "Correct" iff the student's letter is the key's letter, and
    "Incorrect" otherwise, which includes the questions the key lacks; and
    the returned score is the number of rows whose status is "Correct". *)
Theorem score_report_complete (answer_key student_answers : gmap Z string) :
  (forall q s, student_answers !! q = Some s -> is_option_letter s) ->
  let report := score_rows answer_key student_answers in
  length report.2 = 100%nat /\
  (forall (i : nat) r, report.2 !! i = Some r -> row_q r = Z.of_nat i + 1) /\
  (forall r, r ∈ report.2 ->
     row_student r = default "Unanswered" (student_answers !! row_q r) /\
     row_correct r = default "N/A" (answer_key !! row_q r) /\
     (row_status r = "Unanswered" <-> student_answers !! row_q r = None) /\
     (row_status r = "Correct" <->
        exists s, student_answers !! row_q r = Some s /\
                  answer_key !! row_q r = Some s) /\
     (row_status r = "Incorrect" <->
        exists s, student_answers !! row_q r = Some s /\
                  answer_key !! row_q r <> Some s) /\
     (student_answers !! row_q r <> None -> answer_key !! row_q r = None ->
        row_status r = "Incorrect" /\ row_correct r = "N/A")) /\
  report.1 = count_status "Correct" report.2.
Proof.
  intros Hwf report. subst report. rewrite score_rows_eq. cbn [fst snd].
  split; [|split; [|split]].
  - rewrite length_map. reflexivity.
  - intros i r Hi. rewrite list_lookup_fmap in Hi.
    destruct (range 1 101 !! i) as [q|] eqn:Hq; [|done].
    assert (Hlt : (i < 100)%nat).
    { apply lookup_lt_Some in Hq. by rewrite range_length in Hq. }
    rewrite range_lookup in Hq by exact Hlt.
    injection Hq as <-. injection Hi as <-. rewrite row_of_q. lia.
  - intros r Hr. apply list_elem_of_In, in_map_iff in Hr as (q & <- & _).
    rewrite row_of_q.
    destruct (row_of_answers answer_key student_answers q) as [Hs Hc].
    destruct (row_of_status answer_key student_answers q (Hwf q))
      as (Hu & Hok & Hbad).
    repeat split; try tauto.
    + apply Hbad. destruct (student_answers !! q) as [s|]; [|done].
      exists s. split; [done|]. congruence.
    + rewrite Hc. destruct (answer_key !! q); [done|reflexivity].
  - reflexivity.
Qed.

(** ** The mark selector *)

Section Selector.
Context `{Externals}.
Variable thresh : Thresh.

Lemma scan_row_snoc row c :
  scan_row thresh (row ++ [c]) =
  bubble_step thresh (scan_row thresh row) (length row, c).
Proof.
  unfold scan_row. rewrite imap_app, foldl_app. simpl.
  by rewrite Nat.add_0_r.
Qed.

Lemma scan_row_spec row :
  match scan_row thresh row with
  | None => row = []
  | Some (t, j) => first_max (masked_count thresh) row t j
  end.
Proof.
  induction row as [|c row IH] using rev_ind; [reflexivity|].
  rewrite scan_row_snoc. unfold bubble_step.
  destruct (scan_row thresh row) as [[t j]|].
  - destruct IH as ((c0 & Hj & Ht) & Hmax & Hfirst).
    destruct (Z.ltb_spec t (masked_count thresh c)) as [Hlt|Hge].
    + split; [|split].
      * exists c. split; [|reflexivity].
        rewrite lookup_app_r by lia. by rewrite Nat.sub_diag.
      * intros c' Hc'. apply elem_of_app in Hc' as [Hc'|Hc'].
        -- specialize (Hmax c' Hc'). lia.
        -- apply list_elem_of_singleton in Hc' as ->. lia.
      * intros j' c' Hj' Hc'. rewrite lookup_app_l in Hc' by exact Hj'.
        apply list_elem_of_lookup_2 in Hc'. specialize (Hmax c' Hc'). lia.
    + split; [|split].
      * exists c0. split; [|exact Ht].
        rewrite lookup_app_l; [exact Hj|]. by eapply lookup_lt_Some.
      * intros c' Hc'. apply elem_of_app in Hc' as [Hc'|Hc'].
        -- by apply Hmax.
        -- apply list_elem_of_singleton in Hc' as ->. lia.
      * intros j' c' Hj' Hc'. apply (Hfirst j' c' Hj').
        rewrite lookup_app_l in Hc'; [exact Hc'|].
        apply lookup_lt_Some in Hj. lia.
  - subst row. simpl. split; [|split].
    + exists c. done.
    + intros c' Hc'. apply list_elem_of_singleton in Hc' as ->. lia.
    + intros j' c' Hj'. lia.
Qed.

(** At most one pair satisfies [first_max]. *)
Lemma first_max_unique {A : Type} (f : A -> Z) row t1 j1 t2 j2 :
  first_max f row t1 j1 -> first_max f row t2 j2 -> t1 = t2 /\ j1 = j2.
Proof.
  intros ((c1 & Hj1 & Ht1) & Hmax1 & Hfirst1) ((c2 & Hj2 & Ht2) & Hmax2 & Hfirst2).
  assert (t1 = t2) as ->.
  { pose proof (Hmax1 c2 (list_elem_of_lookup_2 _ _ _ Hj2)).
    pose proof (Hmax2 c1 (list_elem_of_lookup_2 _ _ _ Hj1)). lia. }
  split; [reflexivity|].
  destruct (Nat.lt_trichotomy j1 j2) as [Hlt|[Heq|Hlt]]; [|exact Heq|].
  - specialize (Hfirst2 j1 c1 Hlt Hj1). lia.
  - specialize (Hfirst1 j2 c2 Hlt Hj2). lia.
Qed.

Variable question_cnts : list Contour.

Lemma answer_step_decision student_answers i :
  answer_step question_cnts thresh student_answers i =
  match decision thresh question_cnts i with
  | Some L => <[Z.of_nat i + 1 := L]> student_answers
  | None => student_answers
  end.
Proof.
  unfold answer_step, decision, row_of_question, scan_row.
  destruct (foldl _ _ _) as [[t j]|]; [|reflexivity].
  destruct (150 <? t); reflexivity.
Qed.

Lemma answers_fold n q :
  foldl (answer_step question_cnts thresh) ∅ (seq 0 n) !! q =
  if decide (1 <= q <= Z.of_nat n)
  then decision thresh question_cnts (Z.to_nat (q - 1)) else None.
Proof.
  induction n as [|n IH].
  - simpl. rewrite lookup_empty. case_decide; [lia|reflexivity].
  - rewrite seq_S, foldl_app. simpl. rewrite answer_step_decision.
    destruct (decide (q = Z.of_nat n + 1)) as [->|Hq].
    + replace (Z.to_nat (Z.of_nat n + 1 - 1)) with n by lia.
      rewrite decide_True by lia.
      destruct (decision thresh question_cnts n) as [L|] eqn:Hd.
      * by rewrite lookup_insert_eq.
      * rewrite IH. case_decide; [lia|reflexivity].
    + assert (Hrest : foldl (answer_step question_cnts thresh) ∅ (seq 0 n) !! q =
        if decide (1 <= q <= Z.of_nat (S n))
        then decision thresh question_cnts (Z.to_nat (q - 1)) else None).
      { rewrite IH. repeat case_decide; try reflexivity; lia. }
      destruct (decision thresh question_cnts n); [|exact Hrest].
      rewrite lookup_insert_ne by congruence. exact Hrest.
Qed.

Lemma extract_lookup q :
  extract_student_answers question_cnts thresh !! q =
  if decide (1 <= q <= Z.of_nat (length question_cnts / 4))
  then decision thresh question_cnts (Z.to_nat (q - 1)) else None.
Proof. unfold extract_student_answers. apply answers_fold. Qed.

Lemma row_length i :
  (i < length question_cnts / 4)%nat ->
  length (take 4 (drop (i * 4) question_cnts)) = 4%nat.
Proof.
  intros Hi. rewrite length_take, length_drop.
  assert (i * 4 + 4 <= length question_cnts)%nat; [|lia].
  pose proof (Nat.div_mod_eq (length question_cnts) 4). lia.
Qed.

Lemma scan_row_index row t j :
  scan_row thresh row = Some (t, j) -> (j < length row)%nat.
Proof.
  intros Hs. pose proof (scan_row_spec row) as Hspec. rewrite Hs in Hspec.
  destruct Hspec as ((c & Hc & _) & _). by eapply lookup_lt_Some.
Qed.

(** Every recorded answer is one of the four letters. *)
Lemma extract_letters q L :
  extract_student_answers question_cnts thresh !! q = Some L ->
  is_option_letter L.
Proof.
  rewrite extract_lookup. case_decide as Hq; [|done].
  unfold decision.
  destruct (scan_row thresh _) as [[t j]|] eqn:Hs; [|done].
  destruct (150 <? t); [|done]. intros [= <-].
  apply scan_row_index in Hs.
  unfold row_of_question in Hs. rewrite sorted_length, row_length in Hs by lia.
  unfold is_option_letter.
  destruct j as [|[|[|[|j]]]]; [tauto..|lia].
Qed.

End Selector.

(** The letters of the ranks 0..3. *)
Lemma letter_rank (j : nat) (L : string) :
  (j < 4)%nat -> ["A"; "B"; "C"; "D"] !! j = Some L <-> L = letter j.
Proof.
  intros Hj. destruct j as [|[|[|[|j]]]]; [| | | |lia];
    (split; [by intros [= <-]|by intros ->]).
Qed.

(** C2. For every ordered candidate sequence and every mask, the mark
    selector forms [floor(n / 4)] consecutive groups of four: only the
    questions 1..[floor(n / 4)] can get an entry, so a trailing remainder
    is ignored. The group of question [i + 1] is the four candidates at
    positions [4i .. 4i+3] re-sorted by horizontal position. The question
    gets the letter of rank [j] among A, B, C, D, that is ['A' + j], iff
    the member of rank [j] has the largest foreground count of the group,
    is the first such member in the sorted order, and that count exceeds
    150; it gets no entry iff every count of the group is at most 150. *)
Theorem mark_selector_correct `{Externals} (question_cnts : list Contour)
    (thresh : Thresh) :
  let answers := extract_student_answers question_cnts thresh in
  let groups := (length question_cnts / 4)%nat in
  (forall q, is_Some (answers !! q) -> 1 <= q <= Z.of_nat groups) /\
  (forall i, (i < groups)%nat ->
     let row := take 4 (drop (i * 4) question_cnts) in
     let row_cnts := sorted Z.ltb rect_x row in
     length row = 4%nat /\
     row_cnts ≡ₚ row /\
     StronglySorted (fun a b => rect_x a <= rect_x b) row_cnts /\
     (forall L, answers !! (Z.of_nat i + 1) = Some L <->
        exists j c,
          row_cnts !! j = Some c /\
          150 < masked_count thresh c /\
          (forall c', c' ∈ row_cnts ->
             masked_count thresh c' <= masked_count thresh c) /\
          (forall j' c', (j' < j)%nat -> row_cnts !! j' = Some c' ->
             masked_count thresh c' < masked_count thresh c) /\
          ["A"; "B"; "C"; "D"] !! j = Some L) /\
     (answers !! (Z.of_nat i + 1) = None <->
        forall c, c ∈ row_cnts -> masked_count thresh c <= 150)).
Proof.
  intros answers groups. subst answers groups. split.
  - intros q [L HL]. rewrite extract_lookup in HL.
    case_decide; [assumption|discriminate].
  - intros i Hi row row_cnts.
    assert (Hlen : length row = 4%nat) by by apply row_length.
    assert (Hperm : row_cnts ≡ₚ row) by apply sorted_perm.
    assert (Hrank : forall j c, row_cnts !! j = Some c -> (j < 4)%nat).
    { intros j c Hc. apply lookup_lt_Some in Hc.
      by rewrite (Permutation_length Hperm), Hlen in Hc. }
    split; [exact Hlen|]. split; [exact Hperm|]. split.
    { eapply StronglySorted_weaken;
        [|apply (sorted_sorted Z.ltb rect_x Zltb_asym Zltb_ge_trans)].
      intros a b. unfold key_le. lia. }
    rewrite extract_lookup. rewrite decide_True by lia.
    replace (Z.to_nat (Z.of_nat i + 1 - 1)) with i by lia.
    unfold decision. fold row. fold row_cnts.
    change (row_of_question question_cnts i) with row_cnts.
    pose proof (scan_row_spec thresh row_cnts) as Hspec.
    destruct (scan_row thresh row_cnts) as [[t j]|] eqn:Hs.
    + destruct (Z.ltb_spec 150 t) as [Hlt|Hge].
      * split.
        -- intros L. split.
           ++ intros [= <-]. destruct Hspec as ((c & Hc & Ht) & Hmax & Hfirst).
              exists j, c. subst t. repeat split; try assumption.
              by apply (letter_rank j _ (Hrank j c Hc)).
           ++ intros (j2 & c & Hc & H150 & Hmax & Hfirst & HL).
              apply (letter_rank j2 L (Hrank j2 c Hc)) in HL as ->.
              assert (Hfm : first_max (masked_count thresh) row_cnts
                              (masked_count thresh c) j2).
              { split; [by exists c|]. split; assumption. }
              destruct (first_max_unique _ _ _ _ _ _ Hspec Hfm) as [_ ->].
              reflexivity.
        -- split; [discriminate|]. intros Hall.
           destruct Hspec as ((c & Hc & Ht) & _).
           apply list_elem_of_lookup_2 in Hc. specialize (Hall c Hc). lia.
      * split.
        -- intros L. split; [discriminate|].
           intros (j2 & c & Hc & H150 & Hmax & Hfirst & _).
           destruct Hspec as (_ & Hmax' & _).
           apply list_elem_of_lookup_2 in Hc. specialize (Hmax' c Hc). lia.
        -- split; [|reflexivity]. intros _ c Hc.
           destruct Hspec as (_ & Hmax & _). specialize (Hmax c Hc). lia.
    + exfalso. apply (f_equal length) in Hspec.
      rewrite (Permutation_length Hperm), Hlen in Hspec. discriminate.
Qed.

(** ** The answer key reader *)

Module ReFacts.
Import Re.

Section Star.
Context {R : Type} (p : ascii -> bool).

Lemma star_sound (k : list ascii -> list ascii -> option R) acc s r :
  star p k acc s = Some r ->
  exists pre rest,
    s = pre ++ rest /\ forallb p pre = true /\ k (acc ++ pre) rest = Some r.
Proof.
  revert acc. induction s as [|c s IH]; intros acc Hs; simpl in Hs.
  - exists [], []. simpl. by rewrite app_nil_r.
  - destruct (p c) eqn:Hc.
    + destruct (star p k (acc ++ [c]) s) as [r'|] eqn:Hin.
      * injection Hs as ->. apply IH in Hin as (pre & rest & -> & Hp & Hk).
        exists (c :: pre), rest. simpl. rewrite Hc, Hp.
        rewrite <- app_assoc in Hk. done.
      * exists [], (c :: s). simpl. by rewrite app_nil_r.
    + exists [], (c :: s). simpl. by rewrite app_nil_r.
Qed.

Lemma star_complete (k : list ascii -> list ascii -> option R) acc pre rest :
  forallb p pre = true -> is_Some (k (acc ++ pre) rest) ->
  is_Some (star p k acc (pre ++ rest)).
Proof.
  revert acc. induction pre as [|c pre IH]; intros acc Hp Hk; simpl in *.
  - rewrite app_nil_r in Hk. destruct rest as [|c rest]; simpl; [done|].
    destruct (p c); [|done]. destruct (star p k (acc ++ [c]) rest); [eauto|done].
  - apply andb_true_iff in Hp as [Hc Hp]. rewrite Hc.
    destruct (IH (acc ++ [c]) Hp) as [r Hr].
    { by rewrite <- app_assoc. }
    rewrite Hr. eauto.
Qed.

(** A run of [p] followed by something that stops it splits one way. *)
Lemma run_unique a a' b b' :
  forallb p a = true -> forallb p a' = true -> stops p b -> stops p b' ->
  a ++ b = a' ++ b' -> a = a' /\ b = b'.
Proof.
  revert a'. induction a as [|c a IH]; intros a' Ha Ha' Hb Hb' Heq.
  - destruct a' as [|c' a']; [done|]. simpl in *. subst b.
    apply andb_true_iff in Ha' as [Hc' _]. simpl in Hb. congruence.
  - destruct a' as [|c' a']; simpl in *.
    + subst b'. apply andb_true_iff in Ha as [Hc _]. simpl in Hb'. congruence.
    + injection Heq as -> Heq.
      apply andb_true_iff in Ha as [_ Ha].
      apply andb_true_iff in Ha' as [_ Ha'].
      destruct (IH a' Ha Ha' Hb Hb' Heq) as [-> ->]. done.
Qed.

End Star.

Lemma space_is_sep c : is_space c = true -> is_sep c = true.
Proof. unfold is_sep. intros ->. apply orb_true_r. Qed.

Lemma space_not_digit c : is_space c = true -> is_digit c = false.
Proof. unfold is_space, is_digit, code. lia. Qed.

Lemma sep_not_digit c : is_sep c = true -> is_digit c = false.
Proof. unfold is_sep, is_space, is_digit, code. lia. Qed.

Lemma a_d_not_sep c : is_a_d c = true -> is_sep c = false.
Proof. unfold is_sep, is_space, is_a_d, code. lia. Qed.

Lemma forallb_space_sep ws :
  forallb is_space ws = true -> forallb is_sep ws = true.
Proof.
  induction ws as [|c ws IH]; simpl; [done|].
  intros [Hc Hws]%andb_true_iff. by rewrite (space_is_sep c Hc), IH.
Qed.

(** An occurrence at the start of [s] has only one pair of groups. *)
Lemma occurs_at_unique s g1 g2 h1 h2 :
  occurs_at s g1 g2 -> occurs_at s h1 h2 -> g1 = h1 /\ g2 = h2.
Proof.
  intros (ws1 & sep & ws2 & rest & Hs & _ & Hd & Hw1 & Hsep & Hw2 & Hg)
         (ws1' & sep' & ws2' & rest' & Hs' & _ & Hd' & Hw1' & Hsep' & Hw2' & Hg').
  rewrite Hs in Hs'.
  assert (Hstop : forall w c t, forallb is_space w = true -> is_sep c = true ->
            stops is_digit (w ++ [c] ++ t)).
  { intros [|c0 w] c t Hw Hc; simpl.
    - by apply sep_not_digit.
    - apply andb_true_iff in Hw as [Hc0 _]. by apply space_not_digit. }
  destruct (run_unique is_digit _ _ _ _ Hd Hd'
              (Hstop _ _ _ Hw1 Hsep) (Hstop _ _ _ Hw1' Hsep') Hs') as [-> Ht].
  split; [reflexivity|].
  assert (Hrun : forall w c w', forallb is_space w = true -> is_sep c = true ->
            forallb is_space w' = true ->
            forallb is_sep (w ++ [c] ++ w') = true).
  { intros w c w' Hw Hc Hw'. rewrite !forallb_app. simpl.
    by rewrite (forallb_space_sep _ Hw), Hc, (forallb_space_sep _ Hw'). }
  assert (Heq : (ws1 ++ [sep] ++ ws2) ++ g2 :: rest =
                (ws1' ++ [sep'] ++ ws2') ++ h2 :: rest').
  { rewrite <- !app_assoc. exact Ht. }
  destruct (run_unique is_sep _ _ _ _
              (Hrun _ _ _ Hw1 Hsep Hw2) (Hrun _ _ _ Hw1' Hsep' Hw2')
              (a_d_not_sep _ Hg : stops is_sep (g2 :: rest))
              (a_d_not_sep _ Hg' : stops is_sep (h2 :: rest')) Heq) as [_ [= -> _]].
  reflexivity.
Qed.

Lemma match_here_sound s g1 g2 :
  match_here s = Some (g1, g2) -> occurs_at s g1 g2.
Proof.
  unfold match_here, plus, one at 1.
  destruct s as [|d s]; [done|]. destruct (is_digit d) eqn:Hd; [|done].
  intros Hs. apply star_sound in Hs as (ds & s1 & -> & Hds & Hs).
  apply star_sound in Hs as (ws1 & s2 & -> & Hw1 & Hs).
  unfold one at 1 in Hs. destruct s2 as [|sep s3]; [done|].
  destruct (is_sep sep) eqn:Hsep; [|done].
  apply star_sound in Hs as (ws2 & s4 & -> & Hw2 & Hs).
  unfold one in Hs. destruct s4 as [|g s5]; [done|].
  destruct (is_a_d g) eqn:Hg; [|done]. injection Hs as <- <-.
  exists ws1, sep, ws2, s5. simpl. rewrite Hd, Hds.
  repeat split; done.
Qed.

Lemma match_here_complete s g1 g2 :
  occurs_at s g1 g2 -> match_here s = Some (g1, g2).
Proof.
  intros Hocc.
  assert (Hsome : is_Some (match_here s)).
  { destruct Hocc as (ws1 & sep & ws2 & rest & -> & Hne & Hd & Hw1 & Hsep & Hw2 & Hg).
    destruct g1 as [|d ds]; [done|]. simpl in Hd.
    apply andb_true_iff in Hd as [Hd Hds].
    unfold match_here, plus, one at 1. simpl. rewrite Hd.
    apply star_complete; [exact Hds|].
    apply star_complete; [exact Hw1|].
    unfold one at 1. simpl. rewrite Hsep.
    apply star_complete; [exact Hw2|].
    unfold one. simpl. rewrite Hg. eauto. }
  destruct Hsome as [[h1 h2] Hm]. rewrite Hm.
  destruct (occurs_at_unique s _ _ _ _ (match_here_sound _ _ _ Hm) Hocc) as [-> ->].
  reflexivity.
Qed.

Lemma match_here_iff s g1 g2 :
  match_here s = Some (g1, g2) <-> occurs_at s g1 g2.
Proof. split; [apply match_here_sound|apply match_here_complete]. Qed.

Lemma match_here_none s :
  match_here s = None <-> forall g1 g2, ~ occurs_at s g1 g2.
Proof.
  split.
  - intros Hn g1 g2 Hocc. apply match_here_complete in Hocc. congruence.
  - intros Hno. destruct (match_here s) as [[g1 g2]|] eqn:Hm; [|done].
    exfalso. eapply Hno, match_here_sound, Hm.
Qed.

(** [search] finds the leftmost occurrence. *)
Lemma search_iff s g1 g2 :
  search s = Some (g1, g2) <-> leftmost_occurrence s g1 g2.
Proof.
  induction s as [|c s IH].
  - split; [done|]. intros (pre & suf & Heq & Hocc & _).
    symmetry in Heq. apply app_eq_nil in Heq as [-> ->].
    apply match_here_complete in Hocc. done.
  - cbn [search]. destruct (match_here (c :: s)) as [[h1 h2]|] eqn:Hm.
    + split.
      * intros [= -> ->]. exists [], (c :: s). split; [done|].
        split; [by apply match_here_sound|].
        intros pre' suf' ? ? _ Hlen. simpl in Hlen. lia.
      * intros (pre & suf & Heq & Hocc & Hleft).
        destruct pre as [|c' pre].
        -- simpl in Heq. subst suf.
           apply match_here_complete in Hocc. congruence.
        -- exfalso. apply (Hleft [] (c :: s) h1 h2); [done|simpl; lia|].
           by apply match_here_sound.
    + rewrite IH. split.
      * intros (pre & suf & -> & Hocc & Hleft).
        exists (c :: pre), suf. split; [done|]. split; [exact Hocc|].
        intros pre' suf' h1 h2 Heq Hlen.
        destruct pre' as [|c' pre'].
        -- simpl in Heq. subst suf'. by apply match_here_none.
        -- injection Heq as -> Heq. apply (Hleft pre' suf' h1 h2 Heq).
           simpl in Hlen. lia.
      * intros (pre & suf & Heq & Hocc & Hleft).
        destruct pre as [|c' pre].
        -- simpl in Heq. subst suf. exfalso.
           eapply match_here_none; [exact Hm|exact Hocc].
        -- injection Heq as -> ->. exists pre, suf. split; [done|].
           split; [exact Hocc|].
           intros pre' suf' h1 h2 Heq' Hlen.
           apply (Hleft (c' :: pre') suf' h1 h2); [|simpl; lia].
           simpl. by rewrite Heq'.
Qed.

Lemma search_none s :
  search s = None <->
  forall pre suf g1 g2, s = pre ++ suf -> ~ occurs_at suf g1 g2.
Proof.
  induction s as [|c s IH]; cbn [search].
  - split; [|done]. intros _ pre suf g1 g2 Heq Hocc.
    symmetry in Heq. apply app_eq_nil in Heq as [-> ->].
    apply match_here_complete in Hocc. done.
  - destruct (match_here (c :: s)) as [[h1 h2]|] eqn:Hm.
    + split; [done|]. intros Hno. exfalso.
      apply (Hno [] (c :: s) h1 h2); [done|]. by apply match_here_sound.
    + rewrite IH. split.
      * intros Hno pre suf g1 g2 Heq. destruct pre as [|c' pre].
        -- simpl in Heq. subst suf. by apply match_here_none.
        -- injection Heq as -> ->. by apply (Hno pre suf).
      * intros Hno pre suf g1 g2 ->. by apply (Hno (c :: pre) suf).
Qed.

End ReFacts.

(** ** [int] and the cells *)

Lemma py_int_ok g q :
  py_int g = Ok q <-> Z.of_nat (length g) <= 4300 /\ q = int_of_digits g.
Proof.
  unfold py_int. destruct (Z.ltb_spec 4300 (Z.of_nat (length g))).
  - split; [discriminate|lia].
  - split; [intros [= <-]; done|intros [_ ->]; reflexivity].
Qed.

Lemma py_int_raise g e :
  py_int g = Raise e <-> e = ValueError /\ 4300 < Z.of_nat (length g).
Proof.
  unfold py_int. destruct (Z.ltb_spec 4300 (Z.of_nat (length g))).
  - split; [intros [= <-]; done|intros [-> _]; reflexivity].
  - split; [discriminate|lia].
Qed.

(** The groups of a match are digits and a letter a-d. *)
Lemma cell_entry_iff cell q L :
  cell_entry (Some cell) = Ok (Some (q, L)) <->
  exists g1 g2,
    leftmost_occurrence (list_ascii_of_string cell) g1 g2 /\
    Z.of_nat (length g1) <= 4300 /\
    q = int_of_digits g1 /\ L = String (upper g2) EmptyString.
Proof.
  unfold cell_entry. split.
  - destruct (Re.search _) as [[g1 g2]|] eqn:Hs; [|done].
    destruct (py_int g1) as [q'|] eqn:Hq; [|done].
    cbn [mbind result_bind rbind]. intros [= <- <-].
    apply py_int_ok in Hq as [Hlen ->]. exists g1, g2.
    by rewrite <- ReFacts.search_iff.
  - intros (g1 & g2 & Hocc & Hlen & -> & ->).
    apply ReFacts.search_iff in Hocc. rewrite Hocc.
    by rewrite (proj2 (py_int_ok g1 _) (conj Hlen eq_refl)).
Qed.

Lemma cell_entry_none cell :
  cell_entry (Some cell) = Ok None <->
  forall pre suf g1 g2,
    list_ascii_of_string cell = pre ++ suf -> ~ occurs_at suf g1 g2.
Proof.
  unfold cell_entry. rewrite <- ReFacts.search_none.
  destruct (Re.search _) as [[g1 g2]|]; [|done].
  destruct (py_int g1); split; done.
Qed.

(** Reading a cell fails only in [int], on a match of too many digits. *)
Lemma cell_entry_raise item e :
  cell_entry item = Raise e <->
  e = ValueError /\
  exists cell g1 g2,
    item = Some cell /\
    leftmost_occurrence (list_ascii_of_string cell) g1 g2 /\
    4300 < Z.of_nat (length g1).
Proof.
  unfold cell_entry. split.
  - destruct item as [cell|]; [|done].
    destruct (Re.search _) as [[g1 g2]|] eqn:Hs; [|done].
    destruct (py_int g1) as [q'|e'] eqn:Hq; [done|].
    cbn [mbind result_bind rbind]. intros [= <-].
    apply py_int_raise in Hq as [-> Hlen]. split; [reflexivity|].
    exists cell, g1, g2. by rewrite <- ReFacts.search_iff.
  - intros (-> & cell & g1 & g2 & -> & Hocc & Hlen).
    apply ReFacts.search_iff in Hocc. rewrite Hocc.
    by rewrite (proj2 (py_int_raise g1 _) (conj eq_refl Hlen)).
Qed.

Lemma upper_a_d g :
  Re.is_a_d g = true -> is_option_letter (String (upper g) EmptyString).
Proof.
  unfold Re.is_a_d, Re.code, is_option_letter.
  destruct g as [[] [] [] [] [] [] [] []]; vm_compute; intros Hg;
    try discriminate; tauto.
Qed.

Lemma cell_entry_letter item q L :
  cell_entry item = Ok (Some (q, L)) -> is_option_letter L.
Proof.
  destruct item as [cell|]; [|done]. intros Hc.
  apply cell_entry_iff in Hc
    as (g1 & g2 & (pre & suf & _ & Hocc & _) & _ & _ & ->).
  destruct Hocc as (? & ? & ? & ? & _ & _ & _ & _ & _ & _ & Hg).
  by apply upper_a_d.
Qed.

(** ** The loop over the cells *)

Lemma rfoldl_app {A B : Type} (f : B -> A -> result B) b l1 l2 :
  rfoldl f b (l1 ++ l2) = (b' ← rfoldl f b l1; rfoldl f b' l2).
Proof.
  revert b. induction l1 as [|x l1 IH]; intros b; [reflexivity|].
  cbn [app rfoldl]. destruct (f b x) as [b'|e]; [|reflexivity].
  cbn [mbind result_bind rbind]. apply IH.
Qed.

Lemma rfoldl_snoc_ok {A B : Type} (f : B -> A -> result B) b l x b'' :
  rfoldl f b (l ++ [x]) = Ok b'' <->
  exists b', rfoldl f b l = Ok b' /\ f b' x = Ok b''.
Proof.
  rewrite rfoldl_app. destruct (rfoldl f b l) as [b'|e].
  - cbn [mbind result_bind rbind rfoldl].
    destruct (f b' x) as [y|e] eqn:Hf; cbn [mbind result_bind rbind].
    + split; [intros [= <-]; eauto|]. intros (b0 & [= <-] & Hb). congruence.
    + split; [discriminate|]. intros (b0 & [= <-] & Hb). congruence.
  - split; [discriminate|]. intros (b0 & Hb & _). discriminate.
Qed.

Lemma key_step_ok answers item answers' :
  key_step answers item = Ok answers' <->
  (cell_entry item = Ok None /\ answers' = answers) \/
  (exists q L, cell_entry item = Ok (Some (q, L)) /\
               answers' = <[q := L]> answers).
Proof.
  unfold key_step. destruct (cell_entry item) as [[[q L]|]|e];
    cbn [mbind result_bind rbind].
  - split.
    + intros [= <-]. right. eauto.
    + intros [[? _]|(q' & L' & [= <- <-] & ->)]; done.
  - split.
    + intros [= <-]. by left.
    + intros [[_ ->]|(q' & L' & ? & _)]; done.
  - split; [discriminate|]. intros [[? _]|(q' & L' & ? & _)]; done.
Qed.

(** The last cell that carries a question number decides its letter. *)
Lemma key_fold_lookup (items : list (option string)) answers q L :
  rfoldl key_step ∅ items = Ok answers ->
  answers !! q = Some L <->
  exists (i : nat) item,
    items !! i = Some item /\ cell_entry item = Ok (Some (q, L)) /\
    forall (j : nat) item' L', (i < j)%nat -> items !! j = Some item' ->
      cell_entry item' <> Ok (Some (q, L')).
Proof.
  revert answers L.
  induction items as [|x items IH] using rev_ind; intros answers L Hfold.
  - injection Hfold as <-. rewrite lookup_empty. split; [done|].
    intros (i & item & Hi & _). by rewrite lookup_nil in Hi.
  - apply rfoldl_snoc_ok in Hfold as (m & Hm & Hstep).
    specialize (IH m).
    assert (Hcase : (exists Lx, cell_entry x = Ok (Some (q, Lx))) \/
                    (forall Lx, cell_entry x <> Ok (Some (q, Lx)))).
    { destruct (cell_entry x) as [[[q' Lx]|]|e];
        [destruct (decide (q' = q)) as [->|Hq]| |];
        [left; eauto|right; congruence|right; done|right; done]. }
    destruct Hcase as [[Lx Hx]|Hx].
    + assert (answers = <[q := Lx]> m) as ->.
      { apply key_step_ok in Hstep as [[Hn _]|(q' & L' & He & ->)];
          congruence. }
      rewrite lookup_insert_eq. split.
      * intros [= <-]. exists (length items), x.
        split; [by rewrite list_lookup_middle|]. split; [exact Hx|].
        intros j item' L' Hj Hl. apply lookup_lt_Some in Hl.
        rewrite length_app in Hl. simpl in Hl. lia.
      * intros (i & item & Hi & He & Hlater).
        destruct (decide (i = length items)) as [->|Hne].
        -- rewrite list_lookup_middle in Hi by done. injection Hi as <-.
           congruence.
        -- exfalso. apply (Hlater (length items) x Lx).
           ++ apply lookup_lt_Some in Hi. rewrite length_app in Hi.
              simpl in Hi. lia.
           ++ by rewrite list_lookup_middle.
           ++ exact Hx.
    + assert (Hsame : answers !! q = m !! q).
      { apply key_step_ok in Hstep as [[_ ->]|(q' & L' & He & ->)];
          [reflexivity|].
        apply lookup_insert_ne. intros ->. by apply (Hx L'). }
      rewrite Hsame, (IH L Hm). split.
      * intros (i & item & Hi & He & Hlater). exists i, item.
        split; [by apply lookup_app_l_Some|]. split; [exact He|].
        intros j item' L' Hij Hj.
        apply lookup_app_Some in Hj as [Hj|[_ Hj]]; [by eapply Hlater|].
        apply list_lookup_singleton_Some in Hj as [_ <-].
        apply Hx.
      * intros (i & item & Hi & He & Hlater).
        apply lookup_app_Some in Hi as [Hi|[_ Hi]].
        -- exists i, item. split; [exact Hi|]. split; [exact He|].
           intros j item' L' Hij Hj. apply (Hlater j item' L' Hij).
           by apply lookup_app_l_Some.
        -- apply list_lookup_singleton_Some in Hi as [_ <-].
           exfalso. by apply (Hx L).
Qed.

(** The loop ends well when every cell is read, and with the exception
    of [int] otherwise; the entries are then those of its cells. *)
Lemma key_fold_cases (items : list (option string)) (m : gmap Z string) :
  ((forall item, item ∈ items -> exists entry, cell_entry item = Ok entry) /\
   rfoldl key_step m items =
     Ok (foldl (fun m e => <[e.1 := e.2]> m) m (key_entries items))) \/
  ((exists item, item ∈ items /\ cell_entry item = Raise ValueError) /\
   rfoldl key_step m items = Raise ValueError).
Proof.
  revert m. induction items as [|x items IH]; intros m.
  - left. split; [|reflexivity]. intros item Hi. by apply elem_of_nil in Hi.
  - destruct (cell_entry x) as [entry|e] eqn:Hx.
    + set (m' := match entry with
                 | Some e => <[e.1 := e.2]> m
                 | None => m
                 end).
      assert (Hke : foldl (fun m e => <[e.1 := e.2]> m) m
                      (key_entries (x :: items)) =
                    foldl (fun m e => <[e.1 := e.2]> m) m' (key_entries items)).
      { unfold key_entries, m'. cbn [omap list_omap]. rewrite Hx.
        by destruct entry. }
      assert (Hstep : rfoldl key_step m (x :: items) =
                      rfoldl key_step m' items).
      { assert (Hks : key_step m x = Ok m').
        { unfold key_step, m'. rewrite Hx. cbn [mbind result_bind rbind].
          by destruct entry as [[q L]|]. }
        cbn [rfoldl]. by rewrite Hks. }
      rewrite Hstep, Hke.
      destruct (IH m') as [[Hall Hok]|[(item & Hi & Hr) Hraise]].
      * left. split; [|exact Hok]. intros item Hi.
        apply elem_of_cons in Hi as [->|Hi]; [eauto|by apply Hall].
      * right. split; [|exact Hraise]. exists item.
        split; [by apply list_elem_of_further|exact Hr].
    + right. apply cell_entry_raise in Hx as Hx'. destruct Hx' as [-> _].
      split; [exists x; split; [apply list_elem_of_here|exact Hx]|].
      cbn [rfoldl]. unfold key_step. by rewrite Hx.
Qed.

Lemma parse_answer_key_read `{Externals} key_file items :
  read_csv key_file = Ok items ->
  parse_answer_key key_file =
  match rfoldl key_step ∅ items with
  | Ok answers => KeyAnswers answers
  | Raise e => KeyError e
  end.
Proof. intros Hread. unfold parse_answer_key. by rewrite Hread. Qed.

(** C3, as amended. For every readable answer-key source. A cell is read
    to an entry exactly when it contains an occurrence of the pattern:
    digits, optional whitespace, one separator (hyphen, period or a
    whitespace character), optional whitespace, and a letter a-d in
    either case, and the digits of the leftmost occurrence are at most
    4300; text before and after the occurrence is ignored. The entry maps
    the number written by those digits to the letter in upper case, which
    is one of A-D. NaN cells and cells without an occurrence add nothing.
    A cell whose leftmost occurrence has more than 4300 digits makes
    [int] raise [ValueError]: the reader then returns the error result
    and no entry at all, and this is the only way it fails on a readable
    source. Otherwise it returns the answers, and when several cells
    carry the same number the last one decides. The cells "37-B", "37 b"
    and "37.B" each yield 37 -> "B", and "notanentry" yields nothing. *)
Theorem answer_key_reader_tolerant `{Externals} (key_file_path : KeyFile)
    (items : list (option string)) :
  read_csv key_file_path = Ok items ->
  ((exists answers, parse_answer_key key_file_path = KeyAnswers answers) <->
   forall item, item ∈ items -> exists entry, cell_entry item = Ok entry) /\
  (forall e,
     parse_answer_key key_file_path = KeyError e <->
     e = ValueError /\
     exists item, item ∈ items /\ cell_entry item = Raise ValueError) /\
  (forall answers,
     parse_answer_key key_file_path = KeyAnswers answers ->
     (forall q L,
        answers !! q = Some L <->
        exists (i : nat) item,
          items !! i = Some item /\ cell_entry item = Ok (Some (q, L)) /\
          forall (j : nat) item' L', (i < j)%nat -> items !! j = Some item' ->
            cell_entry item' <> Ok (Some (q, L'))) /\
     (forall q L, answers !! q = Some L -> is_option_letter L)) /\
  (forall cell q L,
     cell_entry (Some cell) = Ok (Some (q, L)) <->
     exists g1 g2,
       leftmost_occurrence (list_ascii_of_string cell) g1 g2 /\
       Z.of_nat (length g1) <= 4300 /\
       q = int_of_digits g1 /\ L = String (upper g2) EmptyString) /\
  (forall cell,
     cell_entry (Some cell) = Ok None <->
     forall pre suf g1 g2,
       list_ascii_of_string cell = pre ++ suf -> ~ occurs_at suf g1 g2) /\
  (forall cell e,
     cell_entry (Some cell) = Raise e <->
     e = ValueError /\
     exists g1 g2,
       leftmost_occurrence (list_ascii_of_string cell) g1 g2 /\
       4300 < Z.of_nat (length g1)) /\
  cell_entry None = Ok None /\
  cell_entry (Some "37-B") = Ok (Some (37, "B")) /\
  cell_entry (Some "37 b") = Ok (Some (37, "B")) /\
  cell_entry (Some "37.B") = Ok (Some (37, "B")) /\
  cell_entry (Some "notanentry") = Ok None.
Proof.
  intros Hread. rewrite (parse_answer_key_read _ _ Hread).
  pose proof (key_fold_cases items ∅) as Hcases.
  split; [|split; [|split; [|split; [|split; [|split]]]]].
  - destruct Hcases as [[Hall Hok]|[(item & Hi & Hr) Hraise]].
    + rewrite Hok. split; [done|eauto].
    + rewrite Hraise. split; [intros [? [=]]|].
      intros Hall. destruct (Hall item Hi) as [entry He]. congruence.
  - intros e. destruct Hcases as [[Hall Hok]|[Hex Hraise]].
    + rewrite Hok. split; [discriminate|].
      intros (_ & item & Hi & Hr). destruct (Hall item Hi) as [entry He].
      congruence.
    + rewrite Hraise. split; [intros [= <-]; done|by intros [-> _]].
  - intros answers Hparse.
    assert (Hfold : rfoldl key_step ∅ items = Ok answers).
    { destruct (rfoldl key_step ∅ items); congruence. }
    split; [intros q L; by apply key_fold_lookup|].
    intros q L Hq.
    apply (key_fold_lookup items answers q L Hfold) in Hq
      as (i & item & _ & He & _).
    by eapply cell_entry_letter.
  - apply cell_entry_iff.
  - apply cell_entry_none.
  - intros cell e. rewrite cell_entry_raise. split.
    + intros (-> & cell' & g1 & g2 & [= <-] & Hocc & Hlen). eauto.
    + intros (-> & g1 & g2 & Hocc & Hlen). split; [reflexivity|].
      exists cell, g1, g2. done.
  - repeat split; reflexivity.
Qed.

(** ** Binary64 division

    [SFdiv] rounds to nearest, ties to even. For operands in the normal
    range the quotient of the mantissas has 53 or 54 bits, so the
    rounding shifts by at most one place; this is followed through
    [binary_round_aux] on integers and then read on the reals. *)

Module PyFloatFacts.
Import PyFloat PyFloatSpec.

Lemma digits2_bounds p :
  2 ^ (Zpos (digits2_pos p) - 1) <= Zpos p < 2 ^ Zpos (digits2_pos p).
Proof.
  induction p as [p IH|p IH|]; cbn [digits2_pos].
  - rewrite Pos2Z.inj_succ.
    replace (Z.succ (Z.pos (digits2_pos p)) - 1) with (Z.succ (Z.pos (digits2_pos p) - 1)) by lia.
    rewrite !Z.pow_succ_r by lia. lia.
  - rewrite Pos2Z.inj_succ.
    replace (Z.succ (Z.pos (digits2_pos p)) - 1) with (Z.succ (Z.pos (digits2_pos p) - 1)) by lia.
    rewrite !Z.pow_succ_r by lia. lia.
  - simpl. lia.
Qed.

Lemma digits2_unique p d :
  2 ^ (d - 1) <= Zpos p < 2 ^ d -> Zpos (digits2_pos p) = d.
Proof.
  intros [Hlo Hhi]. pose proof (digits2_bounds p) as [Hlo' Hhi'].
  assert (0 < d).
  { destruct (Z.ltb_spec 0 d); [done|]. 
    assert (2 ^ d <= 1); [|lia].
    destruct (Z.eq_dec d 0) as [->|]; [simpl; lia|].
    rewrite Z.pow_neg_r by lia. lia. }
  destruct (Z.lt_trichotomy (Zpos (digits2_pos p)) d) as [Hlt|[Heq|Hgt]]; [|done|].
  - assert (2 ^ Z.pos (digits2_pos p) <= 2 ^ (d - 1)) by (apply Z.pow_le_mono_r; lia). lia.
  - assert (2 ^ d <= 2 ^ (Z.pos (digits2_pos p) - 1)) by (apply Z.pow_le_mono_r; lia). lia.
Qed.

Lemma Zdigits2_unique m d :
  2 ^ (d - 1) <= m < 2 ^ d -> 0 < m -> Zdigits2 m = d.
Proof.
  intros Hb Hm. destruct m as [|p|p]; [lia| |lia]. simpl. by apply digits2_unique.
Qed.

Lemma fexp_normal e : -1021 <= e -> fexp prec emax e = e - 53.
Proof. unfold fexp, SpecFloat.emin, prec, emax. lia. Qed.

Lemma shr_fexp_keep q e l :
  Zdigits2 q = 53 -> -1074 <= e ->
  shr_fexp prec emax q e l = (shr_record_of_loc q l, e).
Proof.
  intros Hd He. unfold shr_fexp. rewrite Hd, fexp_normal by lia.
  replace (53 + e - 53 - e) with 0 by lia. reflexivity.
Qed.

Lemma shr_fexp_one q e l :
  Zdigits2 q = 54 -> -1075 <= e ->
  shr_fexp prec emax q e l = (shr_1 (shr_record_of_loc q l), e + 1).
Proof.
  intros Hd He. unfold shr_fexp. rewrite Hd, fexp_normal by lia.
  replace (54 + e - 53 - e) with 1 by lia. reflexivity.
Qed.

Lemma finish_spec m e :
  2 ^ 52 <= m <= 2 ^ 53 -> -1074 <= e <= 970 ->
  exists mz t,
    finish m e = S754_finite false mz (e + t) /\
    2 ^ 52 <= Zpos mz < 2 ^ 53 /\ 0 <= t <= 1 /\ Zpos mz * 2 ^ t = m.
Proof.
  intros Hm He. unfold finish.
  destruct (Z.eq_dec m (2 ^ 53)) as [->|Hne].
  - rewrite shr_fexp_one by (reflexivity || lia). simpl.
    exists (2 ^ 52)%positive, 1. 
    replace (e + 1 <=? emax - prec) with true by (unfold emax, prec; lia).
    split; [reflexivity|]. lia.
  - rewrite shr_fexp_keep by (try apply Zdigits2_unique; lia).
    destruct m as [|p|p]; [lia| |lia]. simpl.
    exists p, 0. 
    replace (e <=? emax - prec) with true by (unfold emax, prec; lia).
    rewrite Z.add_0_r. split; [reflexivity|]. lia.
Qed.

Lemma binary_round_aux_finish q e l :
  binary_round_aux prec emax false q e l =
  let '(mrs, e') := shr_fexp prec emax q e l in
  finish (round_nearest_even (shr_m mrs) (loc_of_shr_record mrs)) e'.
Proof. reflexivity. Qed.

Lemma new_location_rel r m2 :
  0 <= r < m2 -> loc_rel r m2 (new_location m2 r).
Proof.
  intros Hr. unfold new_location, new_location_even, new_location_odd.
  destruct (Z.even m2) eqn:Hev.
  - destruct (Z.eqb_spec r 0) as [->|Hr0]; simpl; [reflexivity|].
    destruct (Z.compare_spec (2 * r) m2); simpl; lia.
  - destruct (Z.eqb_spec r 0) as [->|Hr0]; simpl; [reflexivity|].
    assert (Hodd : Z.odd m2 = true) by (rewrite <- Z.negb_even, Hev; reflexivity).
    apply Z.odd_spec in Hodd as [k Hk].
    destruct (Z.compare_spec (2 * r + 1) m2); simpl; lia.
Qed.

Ltac pow_cases t :=
  let H := fresh in
  assert (H : t = 0 \/ t = 1 \/ t = 2) by lia;
  destruct H as [-> | [-> | ->]];
  change (2 ^ 0) with 1 in *; change (2 ^ 1) with 2 in *;
  change (2 ^ 2) with 4 in *.

Lemma round_aux_spec q e l r m2 :
  2 ^ 52 <= q < 2 ^ 54 -> 0 <= r < m2 -> loc_rel r m2 l ->
  -1074 <= e <= 968 ->
  exists mz t,
    binary_round_aux prec emax false q e l = S754_finite false mz (e + t) /\
    2 ^ 52 <= Zpos mz < 2 ^ 53 /\ 0 <= t <= 2 /\
    (2 * Zpos mz - 1) * 2 ^ t * m2 <= 2 * (q * m2 + r)
      <= (2 * Zpos mz + 1) * 2 ^ t * m2 /\
    (r = 0 -> q < 2 ^ 53 \/ Z.even q = true -> Zpos mz * 2 ^ t = q).
Proof.
  intros Hq Hr Hl He. rewrite binary_round_aux_finish.
  destruct (Z.lt_ge_cases q (2 ^ 53)) as [Hlt|Hge].
  - rewrite shr_fexp_keep by (try apply Zdigits2_unique; lia).
    assert (Hm1 : exists m1,
      round_nearest_even (shr_m (shr_record_of_loc q l))
        (loc_of_shr_record (shr_record_of_loc q l)) = m1 /\
      q <= m1 <= q + 1 /\
      (2 * m1 - 1) * m2 <= 2 * (q * m2 + r) <= (2 * m1 + 1) * m2 /\
      (r = 0 -> m1 = q)).
    { destruct l as [|[]]; cbn [loc_rel] in Hl;
        cbn [shr_record_of_loc loc_of_shr_record shr_m round_nearest_even].
      - exists q. subst r. split; [reflexivity|]. lia.
      - destruct (Z.even q); [exists q|exists (q + 1)];
          (split; [reflexivity|]); lia.
      - exists q. split; [reflexivity|]. lia.
      - exists (q + 1). split; [reflexivity|]. lia. }
    destruct Hm1 as (m1 & -> & Hm1 & Hnear & Hex).
    destruct (finish_spec m1 e) as (mz & t & Hf & Hmz & Ht & Hval); [lia..|].
    exists mz, t. split; [exact Hf|]. split; [exact Hmz|]. split; [lia|].
    split.
    + pow_cases t; nia.
    + intros Hr0 _. rewrite Hval. by apply Hex.
  - rewrite shr_fexp_one by (try apply Zdigits2_unique; lia).
    assert (Hm1 : exists m1 h,
      round_nearest_even (shr_m (shr_1 (shr_record_of_loc q l)))
        (loc_of_shr_record (shr_1 (shr_record_of_loc q l))) = m1 /\
      (q = 2 * h \/ q = 2 * h + 1) /\
      h <= m1 <= h + 1 /\
      (2 * m1 - 1) * 2 * m2 <= 2 * (q * m2 + r) <= (2 * m1 + 1) * 2 * m2 /\
      (r = 0 -> Z.even q = true -> m1 = h /\ q = 2 * h)).
    { destruct q as [|p|p]; [lia| |lia].
      destruct p as [p|p|]; [| |lia].
      - exists (if match l with loc_Exact => Z.even (Zpos p) | _ => false end
                then Zpos p else Zpos p + 1), (Zpos p).
        destruct l as [|[]]; cbn [loc_rel] in Hl;
          cbn [shr_1 shr_record_of_loc loc_of_shr_record shr_m
               round_nearest_even orb];
          try destruct (Z.even (Zpos p)) eqn:Hev;
          (split; [reflexivity|]); rewrite Pos2Z.inj_xI in *;
          (split; [lia|]);
          (split; [lia|]); (split; [nia|]);
          intros _ Hodd; apply Z.even_spec in Hodd as [k Hk]; lia.
      - exists (Zpos p), (Zpos p).
        destruct l as [|[]]; cbn [loc_rel] in Hl;
          cbn [shr_1 shr_record_of_loc loc_of_shr_record shr_m
               round_nearest_even orb];
          (split; [reflexivity|]); rewrite Pos2Z.inj_xO in *;
          (split; [lia|]);
          (split; [lia|]); (split; [nia|]); done. }
    destruct Hm1 as (m1 & h & -> & Hqh & Hm1 & Hnear & Hex).
    destruct (finish_spec m1 (e + 1)) as (mz & t & Hf & Hmz & Ht & Hval);
      [lia..|].
    exists mz, (1 + t). rewrite Z.add_assoc. split; [exact Hf|].
    split; [exact Hmz|]. split; [lia|]. split.
    + assert (Ht' : t = 0 \/ t = 1) by lia.
      destruct Ht' as [-> | ->]; simpl (2 ^ _) in *; nia.
    + intros Hr0 [Hlt|Hev]; [lia|].
      destruct (Hex Hr0 Hev) as [-> ->].
      rewrite Z.pow_add_r by lia. change (2 ^ 1) with 2. lia.
Qed.

Lemma SFdiv_spec (m1 m2 : positive) (e1 e2 : Z) :
  let d1 := Zpos (digits2_pos m1) in
  let d2 := Zpos (digits2_pos m2) in
  let E := d1 + e1 - (d2 + e2) in
  let s := 53 + d2 - d1 in
  d1 - d2 < 53 -> -1021 <= E <= 1021 ->
  exists mz t,
    SFdiv prec emax (S754_finite false m1 e1) (S754_finite false m2 e2) =
      S754_finite false mz (E - 53 + t) /\
    2 ^ 52 <= Zpos mz < 2 ^ 53 /\ 0 <= t <= 2 /\
    2 ^ 52 * Zpos m2 <= Zpos m1 * 2 ^ s /\
    (2 * Zpos mz - 1) * 2 ^ t * Zpos m2 <= 2 * (Zpos m1 * 2 ^ s)
      <= (2 * Zpos mz + 1) * 2 ^ t * Zpos m2 /\
    (forall n, Zpos m1 * 2 ^ s = n * Zpos m2 ->
       n < 2 ^ 53 \/ Z.even n = true -> Zpos mz * 2 ^ t = n).
Proof.
  intros d1 d2 E s Hd HE.
  unfold SFdiv, SFdiv_core_binary. cbn [Zdigits2 xorb].
  fold d1 d2. fold E.
  rewrite fexp_normal by lia.
  rewrite Z.min_l by (unfold E; lia).
  replace (e1 - e2 - (E - 53)) with s by (unfold E, s; lia).
  assert (Hs : 0 < s) by (unfold s; lia).
  destruct s as [|ps|ps] eqn:Hps; [lia| |lia]. rewrite <- Hps in *.
  rewrite Z.shiftl_mul_pow2 by lia.
  pose proof (digits2_bounds m1) as Hb1. pose proof (digits2_bounds m2) as Hb2.
  fold d1 in Hb1. fold d2 in Hb2.
  assert (Hm' : 2 ^ 52 * 2 ^ d2 <= Zpos m1 * 2 ^ s < 2 ^ 53 * 2 ^ d2).
  { replace (2 ^ 52 * 2 ^ d2) with (2 ^ (d1 - 1) * 2 ^ s).
    2:{ rewrite <- !Z.pow_add_r by (unfold s; lia). f_equal. unfold s. lia. }
    replace (2 ^ 53 * 2 ^ d2) with (2 ^ d1 * 2 ^ s).
    2:{ rewrite <- !Z.pow_add_r by (unfold s; lia). f_equal. unfold s. lia. }
    assert (0 < 2 ^ s) by (apply Z.pow_pos_nonneg; lia). nia. }
  assert (Hd2 : 2 ^ d2 = 2 * 2 ^ (d2 - 1)).
  { rewrite <- Z.pow_succ_r by lia. f_equal. lia. }
  pose proof (Z.div_eucl_eq (Zpos m1 * 2 ^ s) (Zpos m2) ltac:(lia)) as Heq.
  pose proof (Z.mod_pos_bound (Zpos m1 * 2 ^ s) (Zpos m2) ltac:(lia)) as Hmod.
  unfold Z.modulo in Hmod.
  destruct (Z.div_eucl (Zpos m1 * 2 ^ s) (Zpos m2)) as [q r].
  assert (Hq : 2 ^ 52 <= q < 2 ^ 54).
  { split.
    - destruct (Z.lt_ge_cases q (2 ^ 52)) as [Hlt|Hge]; [exfalso|exact Hge].
      assert (Zpos m2 * (q + 1) <= Zpos m2 * 2 ^ 52)
        by (apply Z.mul_le_mono_nonneg_l; lia).
      lia.
    - destruct (Z.lt_ge_cases q (2 ^ 54)) as [Hlt|Hge]; [exact Hlt|exfalso].
      assert (Zpos m2 * 2 ^ 54 <= Zpos m2 * q)
        by (apply Z.mul_le_mono_nonneg_l; lia).
      lia. }
  destruct (round_aux_spec q (E - 53) (new_location (Zpos m2) r) r (Zpos m2))
    as (mz & t & Hf & Hmz & Ht & Hnear & Hex);
    [exact Hq|exact Hmod|by apply new_location_rel|lia|].
  exists mz, t. split; [exact Hf|]. split; [exact Hmz|]. split; [exact Ht|].
  split.
  { assert (2 ^ 52 * Zpos m2 <= 2 ^ 52 * 2 ^ d2)
      by (apply Z.mul_le_mono_nonneg_l; lia).
    lia. }
  split.
  - rewrite Heq. replace (Zpos m2 * q + r) with (q * Zpos m2 + r) by lia.
    exact Hnear.
  - intros n Hn Hrep.
    assert (Hqn : q = n /\ r = 0).
    { assert (Hr0 : Zpos m2 * (q - n) + r = 0) by lia.
      destruct (Z.lt_trichotomy q n) as [Hlt|[Heqn|Hgt]].
      - assert (Zpos m2 * (q - n) <= Zpos m2 * (-1))
          by (apply Z.mul_le_mono_nonneg_l; lia). lia.
      - subst q. lia.
      - assert (Zpos m2 * 1 <= Zpos m2 * (q - n))
          by (apply Z.mul_le_mono_nonneg_l; lia). lia. }
    destruct Hqn as [-> ->]. by apply Hex.
Qed.

Lemma B_pos e : (0 < B e)%R.
Proof. apply powerRZ_lt. lra. Qed.

Lemma B_add a b : B (a + b) = (B a * B b)%R.
Proof. apply powerRZ_add. lra. Qed.

Lemma B_0 : B 0 = 1%R.
Proof. reflexivity. Qed.

Lemma B_succ e : B (e + 1) = (2 * B e)%R.
Proof. rewrite B_add. unfold B at 2. simpl. lra. Qed.

Lemma B_IZR n : 0 <= n -> B n = IZR (2 ^ n).
Proof.
  intros Hn. unfold B. rewrite <- (Z2Nat.id n Hn) at 1 2.
  rewrite <- pow_powerRZ, <- pow_IZR. reflexivity.
Qed.

Lemma B_opp a : (B (- a) * B a = 1)%R.
Proof. rewrite <- B_add. replace (- a + a) with 0 by lia. apply B_0. Qed.

Lemma B_le a b : a <= b -> (B a <= B b)%R.
Proof.
  intros Hab. replace b with (a + (b - a)) by lia. rewrite B_add.
  rewrite (B_IZR (b - a)) by lia.
  assert (1 <= 2 ^ (b - a)) by (pose proof (Z.pow_pos_nonneg 2 (b - a)); lia).
  apply IZR_le in H. pose proof (B_pos a). nra.
Qed.

Lemma B_lt_inv a b : (B a < B b)%R -> a < b.
Proof.
  intros Hlt. destruct (Z.lt_ge_cases a b) as [|Hge]; [done|].
  apply B_le in Hge. lra.
Qed.

Lemma normal_pos f : normal f -> (0 < val f)%R.
Proof.
  destruct f as [| | |[] m e]; try done. intros _. simpl.
  pose proof (B_pos e). assert (0 < IZR (Zpos m))%R by (apply IZR_lt; lia). nra.
Qed.

Lemma SFleb_normal a b :
  normal a -> normal b -> SFleb a b = true <-> (val a <= val b)%R.
Proof.
  destruct a as [| | |[] ma ea]; try done.
  destruct b as [| | |[] mb eb]; try done.
  intros Ha Hb. simpl in Ha, Hb. unfold SFleb, SFcompare, val.
  rewrite !Rmult_1_l.
  assert (Hma : (IZR (2 ^ 52) <= IZR (Zpos ma) <= IZR (2 ^ 53 - 1))%R)
    by (split; apply IZR_le; lia).
  assert (Hmb : (IZR (2 ^ 52) <= IZR (Zpos mb) <= IZR (2 ^ 53 - 1))%R)
    by (split; apply IZR_le; lia).
  change (IZR (2 ^ 52)) with 4503599627370496%R in *.
  change (IZR (2 ^ 53 - 1)) with 9007199254740991%R in *.
  pose proof (B_pos ea). pose proof (B_pos eb).
  destruct (Z.compare_spec ea eb) as [->|Hlt|Hgt].
  - rewrite Pos.compare_cont_spec. simpl.
    destruct (Pos.compare_spec ma mb) as [->|Hlt|Hgt].
    + split; [lra|done].
    + split; [|done]. intros _.
      assert (IZR (Zpos ma) <= IZR (Zpos mb))%R by (apply IZR_le; lia). nra.
    + split; [done|]. intros Hle.
      assert (IZR (Zpos mb) + 1 <= IZR (Zpos ma))%R.
      { rewrite <- plus_IZR. apply IZR_le. lia. }
      nra.
  - split; [|done]. intros _.
    assert (Hb' : (2 * B ea <= B eb)%R).
    { rewrite <- B_succ. apply B_le. lia. }
    nra.
  - split; [done|]. intros Hle.
    assert (Hb' : (2 * B eb <= B ea)%R).
    { rewrite <- B_succ. apply B_le. lia. }
    nra.
Qed.

Lemma SFdiv_R (m1 m2 : positive) (e1 e2 : Z) :
  let d1 := Zpos (digits2_pos m1) in
  let d2 := Zpos (digits2_pos m2) in
  let E := d1 + e1 - (d2 + e2) in
  d1 - d2 < 53 -> -1021 <= E <= 1021 ->
  exists mz ez,
    SFdiv prec emax (S754_finite false m1 e1) (S754_finite false m2 e2) =
      S754_finite false mz ez /\
    2 ^ 52 <= Zpos mz < 2 ^ 53 /\ E - 53 <= ez <= E - 51 /\
    let v := (IZR (Zpos m1) * B e1 / (IZR (Zpos m2) * B e2))%R in
    ((IZR (Zpos mz) - / 2) * B ez <= v <= (IZR (Zpos mz) + / 2) * B ez)%R /\
    (forall n, 0 < n < 2 ^ 53 -> v = IZR n ->
       (IZR (Zpos mz) * B ez)%R = IZR n).
Proof.
  intros d1 d2 E Hd HE.
  destruct (SFdiv_spec m1 m2 e1 e2 Hd HE)
    as (mz & t & Hf & Hmz & Ht & Hbig & Hnear & Hex).
  fold d1 d2 in Hf, Hbig, Hnear, Hex. fold E in Hf.
  set (s := 53 + d2 - d1) in *. set (e' := E - 53) in *.
  exists mz, (e' + t). split; [exact Hf|]. split; [exact Hmz|].
  split; [unfold e'; lia|].
  assert (Hs : 0 <= s) by (unfold s; lia).
  set (x1 := IZR (Zpos m1)). set (x2 := IZR (Zpos m2)).
  set (z := IZR (Zpos mz)).
  assert (Hx2 : (0 < x2)%R) by (apply IZR_lt; lia).
  pose proof (B_pos e') as Hbe. pose proof (B_pos e2) as Hb2.
  assert (He1 : B e1 = (B e2 * B s * B e')%R).
  { rewrite <- !B_add. f_equal. unfold e', s, E. lia. }
  assert (Hv : (x1 * B e1 / (x2 * B e2) = x1 * B s * B e' / x2)%R).
  { rewrite He1. field. lra. }
  assert (HT : B (e' + t) = (B e' * IZR (2 ^ t))%R).
  { rewrite B_add, (B_IZR t) by lia. reflexivity. }
  assert (HP : B s = IZR (2 ^ s)) by (apply B_IZR; lia).
  assert (HbigR : (IZR (2 ^ 52) * x2 <= x1 * B s)%R).
  { rewrite HP. unfold x1, x2. rewrite <- !mult_IZR. by apply IZR_le. }
  destruct Hnear as [Hlo Hhi].
  apply IZR_le in Hlo, Hhi.
  repeat (rewrite mult_IZR in Hlo || rewrite minus_IZR in Hlo).
  repeat (rewrite mult_IZR in Hhi || rewrite plus_IZR in Hhi).
  fold x1 x2 z in Hlo, Hhi. rewrite <- HP in Hlo, Hhi.
  cbv zeta. rewrite Hv, HT.
  assert (HTpos : (0 < IZR (2 ^ t))%R).
  { apply IZR_lt. apply Z.pow_pos_nonneg; lia. }
  split.
  - split.
    + apply (Rmult_le_reg_r x2); [exact Hx2|].
      replace (x1 * B s * B e' / x2 * x2)%R with (x1 * B s * B e')%R
        by (field; lra).
      nra.
    + apply (Rmult_le_reg_r x2); [exact Hx2|].
      replace (x1 * B s * B e' / x2 * x2)%R with (x1 * B s * B e')%R
        by (field; lra).
      nra.
  - intros n Hn Hvn.
    assert (Hvn' : (x1 * B s * B e' = IZR n * x2)%R).
    { rewrite <- Hvn. field. lra. }
    assert (He' : e' <= 0).
    { assert (Hlt : (B e' < B 1)%R).
      { assert (HB1 : B 1 = 2%R) by (unfold B; simpl; lra). rewrite HB1.
        assert (IZR n <= IZR (2 ^ 53 - 1))%R by (apply IZR_le; lia).
        change (IZR (2 ^ 53 - 1)) with 9007199254740991%R in *.
        change (IZR (2 ^ 52)) with 4503599627370496%R in *.
        nra. }
      apply B_lt_inv in Hlt. lia. }
    assert (Hint : Zpos m1 * 2 ^ s = n * 2 ^ (- e') * Zpos m2).
    { apply eq_IZR. rewrite !mult_IZR. fold x1 x2.
      rewrite <- HP. rewrite <- (B_IZR (- e')) by lia.
      assert (Hop : (B e' * B (- e') = 1)%R)
        by (rewrite Rmult_comm; apply B_opp).
      replace (x1 * B s)%R with (x1 * B s * B e' * B (- e'))%R
        by (rewrite !Rmult_assoc, Hop; ring).
      rewrite Hvn'. ring. }
    assert (Hrep : n * 2 ^ (- e') < 2 ^ 53 \/ Z.even (n * 2 ^ (- e')) = true).
    { destruct (Z.eq_dec e' 0) as [H0|H0].
      - left. rewrite H0. simpl. lia.
      - right. replace (- e') with (Z.succ (- e' - 1)) by lia.
        rewrite Z.pow_succ_r by lia.
        replace (n * (2 * 2 ^ (- e' - 1))) with (2 * (n * 2 ^ (- e' - 1))) by lia.
        rewrite Z.even_mul. reflexivity. }
    specialize (Hex _ Hint Hrep).
    fold z. replace (z * (B e' * IZR (2 ^ t)))%R
      with (IZR (Zpos mz * 2 ^ t) * B e')%R
      by (rewrite mult_IZR; fold z; lra).
    rewrite Hex, mult_IZR. rewrite <- (B_IZR (- e')) by lia.
    rewrite Rmult_assoc, B_opp. ring.
Qed.

Lemma iter_xO_pow (p d : positive) :
  Zpos (Pos.iter xO p d) = Zpos p * 2 ^ Zpos d.
Proof.
  induction d as [|d IH] using Pos.peano_ind.
  - simpl. lia.
  - rewrite Pos.iter_succ, Pos2Z.inj_xO, IH, Pos2Z.inj_succ.
    rewrite Z.pow_succ_r by lia. lia.
Qed.

(** The conversion of a positive integer below [2 ^ 53] is exact. *)
Lemma normalize_exact (p : positive) :
  Zpos p < 2 ^ 53 ->
  exists mz ez,
    binary_normalize prec emax (Zpos p) 0 false = S754_finite false mz ez /\
    2 ^ 52 <= Zpos mz < 2 ^ 53 /\ -52 <= ez <= 0 /\
    Zpos mz = Zpos p * 2 ^ (- ez).
Proof.
  intros Hp. pose proof (digits2_bounds p) as Hb.
  set (d := Zpos (digits2_pos p)) in *.
  assert (Hd : 1 <= d <= 53).
  { split; [unfold d; lia|].
    destruct (Z.le_gt_cases d 53) as [|Hgt]; [done|].
    assert (2 ^ 53 <= 2 ^ (d - 1)) by (apply Z.pow_le_mono_r; lia). lia. }
  unfold binary_normalize, binary_round, shl_align.
  fold d. rewrite Z.add_0_r, fexp_normal by lia. rewrite Z.sub_0_r.
  assert (Hshift : exists mz,
    (match d - 53 with
     | Zneg d0 => (Pos.iter xO p d0, d - 53)
     | _ => (p, 0)
     end) = (mz, d - 53) /\ Zpos mz = Zpos p * 2 ^ (53 - d)).
  { destruct (d - 53) as [|q|q] eqn:Hq; [|lia|].
    - exists p. replace d with 53 by lia. simpl. split; [reflexivity|lia].
    - exists (Pos.iter xO p q). split; [reflexivity|].
      rewrite iter_xO_pow. f_equal. f_equal. lia. }
  destruct Hshift as (mz & -> & Hmz).
  assert (Hrange : 2 ^ 52 <= Zpos mz < 2 ^ 53).
  { rewrite Hmz.
    assert (H52 : 2 ^ 52 = 2 ^ (d - 1) * 2 ^ (53 - d)).
    { rewrite <- Z.pow_add_r by lia. f_equal. lia. }
    assert (H53 : 2 ^ 53 = 2 ^ d * 2 ^ (53 - d)).
    { rewrite <- Z.pow_add_r by lia. f_equal. lia. }
    assert (0 < 2 ^ (53 - d)) by (apply Z.pow_pos_nonneg; lia).
    rewrite H52, H53. split.
    - apply Z.mul_le_mono_nonneg_r; lia.
    - apply Z.mul_lt_mono_pos_r; lia. }
  destruct (round_aux_spec (Zpos mz) (d - 53) loc_Exact 0 1)
    as (mz' & t & Hf & Hmz' & Ht & _ & Hex); [lia|lia|reflexivity|lia|].
  specialize (Hex eq_refl (or_introl (proj2 Hrange))).
  assert (t = 0) as ->.
  { destruct (Z.eq_dec t 0) as [|Hne]; [done|].
    assert (2 <= 2 ^ t) by (apply (Z.pow_le_mono_r 2 1); lia). nia. }
  rewrite Z.mul_1_r in Hex. injection Hex as ->.
  exists mz, (d - 53). rewrite Z.add_0_r in Hf.
  split; [exact Hf|]. split; [exact Hrange|]. split; [lia|].
  rewrite Hmz. f_equal. f_equal. lia.
Qed.

Lemma to_int_floor m e :
  exists k, Z.shiftl (Zpos m) e = k /\
    (IZR k <= IZR (Zpos m) * B e < IZR k + 1)%R.
Proof.
  exists (Z.shiftl (Zpos m) e). split; [reflexivity|].
  destruct (Z.le_gt_cases 0 e) as [He|He].
  - rewrite Z.shiftl_mul_pow2 by exact He.
    rewrite mult_IZR, <- B_IZR by exact He. lra.
  - rewrite Z.shiftl_div_pow2 by lia.
    pose proof (Z.pow_pos_nonneg 2 (- e) ltac:(lia) ltac:(lia)) as Hpow.
    pose proof (Z.div_mod (Zpos m) (2 ^ (- e)) ltac:(lia)) as Hdm.
    pose proof (Z.mod_pos_bound (Zpos m) (2 ^ (- e)) Hpow) as Hmb.
    set (k := Zpos m / 2 ^ (- e)) in *.
    set (r := Zpos m mod 2 ^ (- e)) in *.
    assert (HB : (IZR (2 ^ (- e)) * B e = 1)%R).
    { rewrite <- B_IZR by lia. apply B_opp. }
    rewrite Hdm, plus_IZR, mult_IZR.
    assert (0 <= IZR r)%R by (apply IZR_le; lia).
    assert (IZR r + 1 <= IZR (2 ^ (- e)))%R
      by (rewrite <- plus_IZR; apply IZR_le; lia).
    pose proof (B_pos e) as HBe.
    assert (Hr1 : (0 <= IZR r * B e)%R) by (apply Rmult_le_pos; lra).
    assert (Hr2 : (IZR r * B e <= 1 - B e)%R).
    { replace (1 - B e)%R with ((IZR (2 ^ (- e)) - 1) * B e)%R
        by (rewrite Rmult_minus_distr_r, HB; ring).
      apply Rmult_le_compat_r; lra. }
    replace ((IZR (2 ^ (- e)) * IZR k + IZR r) * B e)%R
      with (IZR k * (IZR (2 ^ (- e)) * B e) + IZR r * B e)%R by ring.
    rewrite HB. lra.
Qed.

Section Grid.
Variables (ma mb : positive) (ea eb : Z).
Hypothesis Ha : 2 ^ 52 <= Zpos ma < 2 ^ 53.
Hypothesis Hb : 2 ^ 52 <= Zpos mb < 2 ^ 53.

Let a : R := IZR (Zpos ma).
Let b : R := IZR (Zpos mb).

Lemma grid_facts :
  (4503599627370496 <= a <= 9007199254740991)%R /\
  (4503599627370496 <= b <= 9007199254740991)%R /\
  (0 < B ea)%R /\ (0 < B eb)%R.
Proof.
  assert (Hma : (IZR (2 ^ 52) <= a <= IZR (2 ^ 53 - 1))%R)
    by (split; apply IZR_le; lia).
  assert (Hmb : (IZR (2 ^ 52) <= b <= IZR (2 ^ 53 - 1))%R)
    by (split; apply IZR_le; lia).
  change (IZR (2 ^ 52)) with 4503599627370496%R in *.
  change (IZR (2 ^ 53 - 1)) with 9007199254740991%R in *.
  pose proof (B_pos ea). pose proof (B_pos eb). done.
Qed.

Lemma grid_cases :
  (ea = eb /\ a = b) \/
  (ea = eb /\ (a + 1 <= b)%R) \/
  (ea = eb /\ (b + 1 <= a)%R) \/
  (2 * B ea <= B eb)%R \/ (2 * B eb <= B ea)%R.
Proof.
  destruct (Z.lt_trichotomy ea eb) as [Hlt|[Heq|Hgt]].
  - right; right; right; left. rewrite <- B_succ. apply B_le. lia.
  - destruct (Z.lt_trichotomy (Zpos ma) (Zpos mb)) as [Hlt|[Heq'|Hgt]].
    + right; left. split; [done|]. unfold a, b. rewrite <- plus_IZR.
      apply IZR_le. lia.
    + left. split; [done|]. unfold a, b. by rewrite Heq'.
    + right; right; left. split; [done|]. unfold a, b. rewrite <- plus_IZR.
      apply IZR_le. lia.
  - right; right; right; right. rewrite <- B_succ. apply B_le. lia.
Qed.

Lemma grid_products :
  (4503599627370496 * B ea <= a * B ea <= 9007199254740991 * B ea)%R /\
  (4503599627370496 * B eb <= b * B eb <= 9007199254740991 * B eb)%R.
Proof.
  destruct grid_facts as (Hma & Hmb & Hpa & Hpb).
  repeat split; apply Rmult_le_compat_r; lra.
Qed.

Ltac grid_solve Hlt :=
  destruct grid_facts as (Hma & Hmb & Hpa & Hpb);
  destruct grid_products as (Hqa & Hqb);
  destruct grid_cases as [[-> Hab]|[[-> Hab]|[[-> Hab]|[Hab|Hab]]]];
  [ rewrite Hab in *; lra
  | assert ((a + 1) * B eb <= b * B eb)%R
      by (apply Rmult_le_compat_r; lra); lra
  | assert ((b + 1) * B eb <= a * B eb)%R
      by (apply Rmult_le_compat_r; lra); lra
  | lra
  | lra ].

(** Between two different floats lies half a unit of each, unless they
    are the two neighbours of a power of two. *)
Lemma grid_lt :
  (a <= 9007199254740990 \/ 4503599627370497 <= b)%R ->
  (a * B ea < b * B eb)%R ->
  ((a + / 2) * B ea <= (b - / 2) * B eb)%R.
Proof.
  intros Hnb Hlt.
  destruct grid_facts as (Hma & Hmb & Hpa & Hpb);
  destruct grid_products as (Hqa & Hqb);
  destruct grid_cases as [[-> Hab]|[[-> Hab]|[[-> Hab]|[Hab|Hab]]]].
  - rewrite Hab in *; lra.
  - assert ((a + 1) * B eb <= b * B eb)%R
      by (apply Rmult_le_compat_r; lra); lra.
  - assert ((b + 1) * B eb <= a * B eb)%R
      by (apply Rmult_le_compat_r; lra); lra.
  - destruct Hnb as [Hnb|Hnb].
    + assert (a * B ea <= 9007199254740990 * B ea)%R
        by (apply Rmult_le_compat_r; lra). lra.
    + assert (4503599627370497 * B eb <= b * B eb)%R
        by (apply Rmult_le_compat_r; lra). lra.
  - lra.
Qed.

Lemma grid_le_lo :
  (a * B ea <= b * B eb)%R ->
  ((a - / 2) * B ea <= (b - / 2) * B eb)%R.
Proof. intros Hlt. grid_solve Hlt. Qed.

Lemma grid_le_hi :
  (a * B ea <= b * B eb)%R ->
  ((a + / 2) * B ea <= (b + / 2) * B eb)%R.
Proof. intros Hlt. grid_solve Hlt. Qed.

End Grid.

Lemma normal_digits m : 2 ^ 52 <= Zpos m < 2 ^ 53 -> Zpos (digits2_pos m) = 53.
Proof. intros Hm. apply digits2_unique. exact Hm. Qed.

Lemma B_m53 : B (-53) = (/ 9007199254740992)%R.
Proof.
  unfold B. change (-53) with (- (53)). rewrite powerRZ_neg'. f_equal.
  change (powerRZ 2 53) with (B 53). rewrite B_IZR by lia. reflexivity.
Qed.

Lemma B_m52 : B (-52) = (/ 4503599627370496)%R.
Proof.
  unfold B. change (-52) with (- (52)). rewrite powerRZ_neg'. f_equal.
  change (powerRZ 2 52) with (B 52). rewrite B_IZR by lia. reflexivity.
Qed.

(** The float of a positive integer below [2 ^ 53]. *)
Lemma of_int_exact z :
  0 < z < 2 ^ 53 ->
  exists m e,
    of_int z = Ok (S754_finite false m e) /\
    2 ^ 52 <= Zpos m < 2 ^ 53 /\ -52 <= e <= 0 /\
    (IZR (Zpos m) * B e)%R = IZR z.
Proof.
  intros Hz. destruct z as [|p|p]; [lia| |lia].
  destruct (normalize_exact p) as (m & e & Hn & Hm & He & Hv); [lia|].
  exists m, e. unfold of_int. rewrite Hn.
  split; [reflexivity|]. split; [exact Hm|]. split; [exact He|].
  rewrite Hv, mult_IZR, <- (B_IZR (- e)) by lia.
  rewrite Rmult_assoc, B_opp. ring.
Qed.

(** The quotient of two positive integers below [2 ^ 53], as the
    interpreter computes [w / float(h)]. *)
Lemma int_quotient w h :
  0 < w < 2 ^ 53 -> 0 < h < 2 ^ 53 ->
  exists m e,
    (fh ← of_int h; int_float_truediv w fh) = Ok (S754_finite false m e) /\
    2 ^ 52 <= Zpos m < 2 ^ 53 /\ -107 <= e <= 1 /\
    ((IZR (Zpos m) - / 2) * B e <= IZR w / IZR h
       <= (IZR (Zpos m) + / 2) * B e)%R /\
    (forall n, 0 < n < 2 ^ 53 -> (IZR w / IZR h)%R = IZR n ->
       (IZR (Zpos m) * B e)%R = IZR n).
Proof.
  intros Hw Hh.
  destruct (of_int_exact w Hw) as (mw & ew & Hfw & Hmw & Hew & Hvw).
  destruct (of_int_exact h Hh) as (mh & eh & Hfh & Hmh & Heh & Hvh).
  pose proof (SFdiv_R mw mh ew eh) as Hdiv. cbv zeta in Hdiv.
  rewrite !normal_digits in Hdiv by assumption.
  destruct Hdiv as (mz & ez & Hq & Hmz & Hez & Hnear & Hex); [lia..|].
  exists mz, ez. rewrite Hfh. cbn [mbind result_bind rbind].
  unfold int_float_truediv. rewrite Hfw. cbn [mbind result_bind rbind].
  unfold truediv. cbn [is_zero]. rewrite Hq.
  split; [reflexivity|]. split; [exact Hmz|]. split; [lia|].
  rewrite Hvw, Hvh in Hnear, Hex. split; [exact Hnear|exact Hex].
Qed.

Lemma f0_8_le m e w h :
  2 ^ 52 <= Zpos m < 2 ^ 53 -> 0 < w -> 0 < h < 2 ^ 53 ->
  ((IZR (Zpos m) - / 2) * B e <= IZR w / IZR h
     <= (IZR (Zpos m) + / 2) * B e)%R ->
  le f0_8 (S754_finite false m e) = (4 * h <=? 5 * w).
Proof.
  intros Hm Hw Hh [Hlo Hhi].
  assert (HY : (0 < IZR h)%R) by (apply IZR_lt; lia).
  assert (HY' : (IZR h <= 9007199254740991)%R) by (apply IZR_le; lia).
  set (X := IZR w) in *. set (Y := IZR h) in *.
  assert (Hv : (X / Y * Y = X)%R) by (field; lra).
  pose proof (SFleb_normal f0_8 (S754_finite false m e)) as Hleb.
  unfold f0_8 in Hleb. cbn [normal val] in Hleb. fold f0_8 in Hleb. rewrite !Rmult_1_l in Hleb.
  specialize (Hleb ltac:(lia) Hm).
  unfold le. destruct (Z.leb_spec (4 * h) (5 * w)) as [Hle|Hgt].
  - apply Hleb. apply Rnot_lt_le. intros Hlt.
    apply (grid_lt m 7205759403792794 e (-53) Hm ltac:(lia)) in Hlt;
      [|right; lra].
    rewrite B_m53 in Hlt.
    assert (5 * X >= 4 * Y)%R.
    { unfold X, Y. rewrite <- !mult_IZR. apply Rle_ge, IZR_le. lia. }
    assert (X / Y <= (7205759403792794 - / 2) * / 9007199254740992)%R by lra.
    assert (X <= (7205759403792794 - / 2) * / 9007199254740992 * Y)%R.
    { rewrite <- Hv. apply Rmult_le_compat_r; lra. }
    lra.
  - apply not_true_is_false. intros Hs. apply Hleb in Hs.
    apply (grid_le_lo 7205759403792794 m (-53) e ltac:(lia) Hm) in Hs.
    rewrite B_m53 in Hs.
    assert (5 * X <= 4 * Y - 1)%R.
    { unfold X, Y. rewrite <- !mult_IZR, <- minus_IZR. apply IZR_le. lia. }
    assert ((7205759403792794 - / 2) * / 9007199254740992 <= X / Y)%R by lra.
    assert ((7205759403792794 - / 2) * / 9007199254740992 * Y <= X)%R.
    { rewrite <- Hv. apply Rmult_le_compat_r; lra. }
    lra.
Qed.

Lemma f1_3_ge m e w h :
  2 ^ 52 <= Zpos m < 2 ^ 53 -> 0 < w -> 0 < h < 2 ^ 49 ->
  ((IZR (Zpos m) - / 2) * B e <= IZR w / IZR h
     <= (IZR (Zpos m) + / 2) * B e)%R ->
  le (S754_finite false m e) f1_3 = (10 * w <=? 13 * h).
Proof.
  intros Hm Hw Hh [Hlo Hhi].
  assert (HY : (0 < IZR h)%R) by (apply IZR_lt; lia).
  assert (HY' : (IZR h <= 562949953421311)%R) by (apply IZR_le; lia).
  set (X := IZR w) in *. set (Y := IZR h) in *.
  assert (Hv : (X / Y * Y = X)%R) by (field; lra).
  pose proof (SFleb_normal (S754_finite false m e) f1_3) as Hleb.
  unfold f1_3 in Hleb. cbn [normal val] in Hleb. fold f1_3 in Hleb. rewrite !Rmult_1_l in Hleb.
  specialize (Hleb Hm ltac:(lia)).
  unfold le. destruct (Z.leb_spec (10 * w) (13 * h)) as [Hle|Hgt].
  - apply Hleb. apply Rnot_lt_le. intros Hlt.
    apply (grid_lt 5854679515581645 m (-52) e ltac:(lia) Hm) in Hlt;
      [|left; lra].
    rewrite B_m52 in Hlt.
    assert (10 * X <= 13 * Y)%R.
    { unfold X, Y. rewrite <- !mult_IZR. apply IZR_le. lia. }
    assert ((5854679515581645 + / 2) * / 4503599627370496 <= X / Y)%R by lra.
    assert ((5854679515581645 + / 2) * / 4503599627370496 * Y <= X)%R.
    { rewrite <- Hv. apply Rmult_le_compat_r; lra. }
    lra.
  - apply not_true_is_false. intros Hs. apply Hleb in Hs.
    apply (grid_le_hi m 5854679515581645 e (-52) Hm ltac:(lia)) in Hs.
    rewrite B_m52 in Hs.
    assert (13 * Y + 1 <= 10 * X)%R.
    { unfold X, Y. rewrite <- !mult_IZR, <- plus_IZR. apply IZR_le. lia. }
    assert (X / Y <= (5854679515581645 + / 2) * / 4503599627370496)%R by lra.
    assert (X <= (5854679515581645 + / 2) * / 4503599627370496 * Y)%R.
    { rewrite <- Hv. apply Rmult_le_compat_r; lra. }
    lra.
Qed.

(** Rounding to nearest moves a normal float by a relative 2^-53 at
    most. *)
Lemma nearest_relative m e v :
  2 ^ 52 <= Zpos m < 2 ^ 53 ->
  ((IZR (Zpos m) - / 2) * B e <= v <= (IZR (Zpos m) + / 2) * B e)%R ->
  let r := (IZR (Zpos m) * B e)%R in
  (r * (1 - eps) <= v <= r * (1 + eps))%R /\ (0 < r)%R.
Proof.
  intros Hm [Hlo Hhi] r. unfold eps.
  assert (Hm' : (4503599627370496 <= IZR (Zpos m))%R).
  { change 4503599627370496%R with (IZR (2 ^ 52)). apply IZR_le. lia. }
  pose proof (B_pos e) as HB.
  assert (Hr : (4503599627370496 * B e <= r)%R)
    by (unfold r; apply Rmult_le_compat_r; lra).
  unfold r in *. split; [split|]; lra.
Qed.

(** [col_width = (hi - lo) / 5] for a positive span. *)
Lemma col_width_spec S :
  0 < S < 2 ^ 32 ->
  exists m e,
    int_truediv S 5 = Ok (S754_finite false m e) /\
    2 ^ 52 <= Zpos m < 2 ^ 53 /\ -55 <= e <= -22 /\
    ((IZR (Zpos m) - / 2) * B e <= IZR S / 5
       <= (IZR (Zpos m) + / 2) * B e)%R /\
    (forall n, 0 < n < 2 ^ 53 -> (IZR S / 5)%R = IZR n ->
       (IZR (Zpos m) * B e)%R = IZR n).
Proof.
  intros HS. destruct S as [|p|p]; [lia| |lia].
  pose proof (digits2_bounds p) as Hb.
  set (d := Zpos (digits2_pos p)) in *.
  assert (Hd : 1 <= d <= 32).
  { split; [unfold d; lia|].
    destruct (Z.le_gt_cases d 32) as [|Hgt]; [done|].
    assert (2 ^ 32 <= 2 ^ (d - 1)) by (apply Z.pow_le_mono_r; lia). lia. }
  pose proof (SFdiv_R p 5 0 0) as Hdiv. cbv zeta in Hdiv. fold d in Hdiv.
  change (Zpos (digits2_pos 5)) with 3 in Hdiv.
  destruct Hdiv as (mz & ez & Hq & Hmz & Hez & Hnear & Hex); [lia..|].
  exists mz, ez. unfold int_truediv. cbn [Z.eqb raw]. rewrite Hq.
  split; [reflexivity|]. split; [exact Hmz|]. split; [lia|].
  rewrite B_0, !Rmult_1_r in Hnear, Hex. split; [exact Hnear|exact Hex].
Qed.

Section BandReal.
Variables (C Qv D S' : R) (k : Z).
Hypothesis HC : (0 < C)%R.
Hypothesis HS : (S' <= 4294967296)%R.
Hypothesis Hcw : (C * (1 - eps) <= S' / 5 <= C * (1 + eps))%R.
Hypothesis Hq : (Qv * (1 - eps) <= D / C <= Qv * (1 + eps))%R.
Hypothesis Hk : (IZR k <= Qv < IZR k + 1)%R.

Lemma band_products :
  (Qv * C * (1 - eps) <= D <= Qv * C * (1 + eps))%R /\
  (C <= 4294967296)%R.
Proof.
  destruct Hcw as [Hc1 Hc2]. destruct Hq as [Hq1 Hq2]. unfold eps in *.
  assert (HD : (D / C * C = D)%R) by (field; lra).
  split; [split|].
  - rewrite <- HD. replace (Qv * C * (1 - / 9007199254740992))%R
      with (Qv * (1 - / 9007199254740992) * C)%R by ring.
    apply Rmult_le_compat_r; lra.
  - rewrite <- HD at 1. replace (Qv * C * (1 + / 9007199254740992))%R
      with (Qv * (1 + / 9007199254740992) * C)%R by ring.
    apply Rmult_le_compat_r; lra.
  - lra.
Qed.

Lemma floor_upper c0 :
  0 <= c0 <= 3 -> (5 * D <= (IZR c0 + 1) * S' - 1)%R -> k <= c0.
Proof.
  intros Hc0 Hd. destruct band_products as [[Hd1 Hd2] HCb].
  destruct Hcw as [Hc1 Hc2]. destruct Hk as [Hk1 Hk2]. unfold eps in *.
  destruct (Z.le_gt_cases k c0) as [|Hgt]; [done|exfalso].
  assert (Hk' : (IZR c0 + 1 <= IZR k)%R)
    by (rewrite <- plus_IZR; apply IZR_le; lia).
  assert (HQC : ((IZR c0 + 1) * C <= Qv * C)%R)
    by (apply Rmult_le_compat_r; lra).
  assert (Hc : c0 = 0 \/ c0 = 1 \/ c0 = 2 \/ c0 = 3) by lia.
  destruct Hc as [-> | [-> | [-> | ->]]]; lra.
Qed.

Lemma floor_lower c0 :
  1 <= c0 <= 4 -> (IZR c0 * S' + 1 <= 5 * D)%R -> c0 <= k.
Proof.
  intros Hc0 Hd. destruct band_products as [[Hd1 Hd2] HCb].
  destruct Hcw as [Hc1 Hc2]. destruct Hk as [Hk1 Hk2]. unfold eps in *.
  destruct (Z.le_gt_cases c0 k) as [|Hgt]; [done|exfalso].
  assert (Hk' : (IZR k + 1 <= IZR c0)%R)
    by (rewrite <- plus_IZR; apply IZR_le; lia).
  assert (HQC : (Qv * C <= IZR c0 * C)%R)
    by (apply Rmult_le_compat_r; lra).
  assert (Hc : c0 = 1 \/ c0 = 2 \/ c0 = 3 \/ c0 = 4) by lia.
  destruct Hc as [-> | [-> | [-> | ->]]]; lra.
Qed.

End BandReal.

(** [min(4, int((x - lo) / col_width))] for [x - lo = d] within a span
    [S]: the float computation gives the exact band. *)
Lemma band_value S d mc ec :
  0 < S < 2 ^ 32 -> 0 <= d <= S ->
  int_truediv S 5 = Ok (S754_finite false mc ec) ->
  (q ← int_float_truediv d (S754_finite false mc ec);
   i ← to_int q; Ok (Z.min 4 i)) = Ok (Z.min 4 (5 * d / S)).
Proof.
  intros HS Hd Hcw.
  destruct (col_width_spec S HS)
    as (mc' & ec' & Hcw' & Hmc & Hec & Hnear & Hexact).
  rewrite Hcw in Hcw'. injection Hcw' as <- <-.
  destruct (Z.eq_dec d 0) as [->|Hd0].
  { rewrite Z.mul_0_r, Z.div_0_l by lia. reflexivity. }
  destruct (of_int_exact d ltac:(lia)) as (md & ed & Hfd & Hmd & Hed & Hvd).
  pose proof (SFdiv_R md mc ed ec) as Hdiv. cbv zeta in Hdiv.
  rewrite !normal_digits in Hdiv by assumption.
  destruct Hdiv as (mq & eq & Hq & Hmq & Heq & Hnq & Hexq); [lia..|].
  rewrite Hvd in Hnq, Hexq.
  unfold int_float_truediv. rewrite Hfd. cbn [mbind result_bind rbind].
  unfold truediv. cbn [is_zero]. rewrite Hq.
  cbn [mbind result_bind rbind to_int].
  destruct (to_int_floor mq eq) as (k & -> & Hk).
  f_equal.
  set (C := (IZR (Zpos mc) * B ec)%R) in *.
  set (Qv := (IZR (Zpos mq) * B eq)%R) in *.
  destruct (nearest_relative mc ec _ Hmc Hnear) as [HcwR HC]. fold C in HcwR, HC.
  destruct (nearest_relative mq eq _ Hmq Hnq) as [HqR HQ]. fold Qv in HqR, HQ.
  assert (HSR : (IZR S <= 4294967296)%R).
  { change 4294967296%R with (IZR (2 ^ 32)). apply IZR_le. lia. }
  set (kk := 5 * d / S).
  assert (Hkk : kk * S <= 5 * d < (kk + 1) * S).
  { pose proof (Z.div_mod (5 * d) S ltac:(lia)) as Hdm.
    pose proof (Z.mod_pos_bound (5 * d) S ltac:(lia)) as Hmb.
    fold kk in Hdm. lia. }
  clearbody kk.
  assert (Hkk' : 0 <= kk <= 5) by nia.
  assert (Hk0 : 0 <= k).
  { assert (-1 < k); [|lia]. apply lt_IZR. cbn [IZR IPR]. lra. }
  assert (Hup : kk <= 3 -> k <= kk).
  { intros H3. apply (floor_upper C Qv (IZR d) (IZR S) k HC HSR HcwR HqR Hk);
      [lia|].
    rewrite <- plus_IZR, <- !mult_IZR, <- minus_IZR. apply IZR_le. lia. }
  assert (Hlow : Z.min 4 kk <= k).
  { destruct (Z.eq_dec (Z.min 4 kk) 0) as [->|Hj0]; [exact Hk0|].
    destruct (Z.eq_dec (5 * d) (Z.min 4 kk * S)) as [Hex|Hnex].
    - assert (Hj : Z.min 4 kk = kk) by nia.
      rewrite Hj in *.
      assert (HS5 : exists c, S = 5 * c /\ d = kk * c).
      { assert (kk = 1 \/ kk = 2 \/ kk = 3 \/ kk = 4) as Hc by lia.
        destruct Hc as [-> | [-> | [-> | ->]]];
          [exists d|exists (3 * d - S)|exists (2 * d - S)|exists (S - d)];
          lia. }
      destruct HS5 as (c & -> & ->).
      assert (Hc : 0 < c < 2 ^ 53) by lia.
      assert (HCc : C = IZR c).
      { apply Hexact; [exact Hc|]. rewrite mult_IZR. field. }
      assert (HQk : Qv = IZR kk).
      { apply Hexq; [lia|]. fold C. rewrite HCc, mult_IZR. field.
        apply not_0_IZR. lia. }
      rewrite HQk in Hk. destruct Hk as [Hk1 Hk2].
      rewrite <- plus_IZR in Hk2. apply lt_IZR in Hk2. lia.
    - apply (floor_lower C Qv (IZR d) (IZR S) k HC HSR HcwR HqR Hk); [lia|].
      rewrite <- !mult_IZR, <- plus_IZR. apply IZR_le. nia. }
  lia.
Qed.

End PyFloatFacts.

(** ** The region detector *)

Section Detector.
Context `{Externals}.
Import PyFloat PyFloatFacts.

Lemma candidateb_spec c :
  1 <= rect_h c -> candidateb c = true <-> is_candidate c.
Proof.
  intros Hh. unfold candidateb, is_candidate, aspect.
  destruct (rect_h c) as [|p|p] eqn:Hp; [lia| |lia].
  unfold Qle, Qdiv, Qmult, Qinv, inject_Z. cbn [Qnum Qden].
  rewrite !andb_true_iff, !Z.leb_le. lia.
Qed.

Lemma is_bubble_spec c :
  rect_ok c -> is_bubble c = Ok (candidateb c).
Proof.
  intros (_ & _ & Hw & Hh). unfold is_bubble, candidateb, rect_w, rect_h in *.
  destruct (boundingRect c) as [[[x y] w] h]. cbn [fst snd] in *.
  destruct (int_quotient w h) as (m & e & Hq & Hm & He & Hnear & _);
    [lia..|].
  transitivity (ar ← (fh ← of_int h; int_float_truediv w fh);
                Ok ((20 <=? w) && (20 <=? h) && le f0_8 ar && le ar f1_3)).
  { destruct (of_int h); reflexivity. }
  rewrite Hq. cbn [mbind result_bind rbind].
  rewrite (f0_8_le m e w h), (f1_3_ge m e w h) by (assumption || lia).
  reflexivity.
Qed.

Lemma filter_bubbles_spec acc cnts :
  Forall rect_ok cnts ->
  filter_bubbles acc cnts = Ok (acc ++ filter (fun c => candidateb c = true) cnts).
Proof.
  intros Hok. revert acc. induction Hok as [|c cnts Hc _ IH]; intros acc.
  - simpl. by rewrite app_nil_r.
  - cbn [filter_bubbles]. rewrite (is_bubble_spec c Hc).
    cbn [mbind result_bind rbind]. rewrite IH, filter_cons.
    destruct (candidateb c) eqn:Hb.
    + rewrite decide_True by done. by rewrite <- app_assoc.
    + rewrite decide_False by done. reflexivity.
Qed.

(** The detector never raises on valid bounding boxes, and keeps the
    candidates of the specification in their order. *)
Lemma region_filter_total cnts :
  Forall rect_ok cnts ->
  filter_bubbles [] cnts = Ok (filter is_candidate cnts) /\
  filter (fun c => candidateb c = true) cnts = filter is_candidate cnts.
Proof.
  intros Hok.
  assert (Hf : filter (fun c => candidateb c = true) cnts =
               filter is_candidate cnts).
  { induction Hok as [|c cnts' (_ & _ & _ & Hh) _ IH]; [reflexivity|].
    rewrite !filter_cons, IH.
    pose proof (candidateb_spec c ltac:(lia)) as Hc.
    repeat case_decide; tauto. }
  split; [by rewrite filter_bubbles_spec, Hf|exact Hf].
Qed.

End Detector.

(** C4. For the external regions of a mask, each with a bounding box
    [(x, y, w, h)] as OpenCV reports it, the region detector returns,
    in their original order, exactly the regions with [w >= 20],
    [h >= 20] and aspect ratio [w / h] between 0.8 and 1.3; every other
    region is discarded. *)
Theorem region_detector_accepts `{Externals} (cnts : list Contour) :
  Forall rect_ok cnts ->
  exists question_cnts,
    filter_bubbles [] cnts = Ok question_cnts /\
    question_cnts = filter is_candidate cnts /\
    (forall c, c ∈ question_cnts <-> c ∈ cnts /\ is_candidate c) /\
    (forall c, c ∈ cnts -> is_bubble c = Ok true <-> is_candidate c).
Proof.
  intros Hok. exists (filter is_candidate cnts).
  split; [apply (region_filter_total cnts Hok)|].
  split; [reflexivity|]. split.
  - intros c. rewrite list_elem_of_filter. tauto.
  - intros c Hc. rewrite Forall_forall in Hok.
    rewrite (is_bubble_spec c (Hok c Hc)).
    destruct (Hok c Hc) as (_ & _ & _ & Hh).
    rewrite <- (candidateb_spec c) by lia.
    split; [by intros [= ->]|by intros ->].
Qed.

(** ** The grid orderer *)

Lemma fold_max_spec (l : list Z) (m : Z) :
  let M := foldl (fun m y => if m <? y then y else m) m l in
  (M = m \/ M ∈ l) /\ m <= M /\ forall x, x ∈ l -> x <= M.
Proof.
  revert m. induction l as [|y l IH]; intros m; simpl.
  - split; [by left|]. split; [lia|]. intros x Hx. by apply elem_of_nil in Hx.
  - destruct (IH (if m <? y then y else m)) as (Hin & Hge & Hall).
    split; [|split].
    + destruct Hin as [->|Hin]; [|right; by apply list_elem_of_further].
      destruct (m <? y); [right; apply list_elem_of_here|by left].
    + destruct (Z.ltb_spec m y); lia.
    + intros x [->|Hx]%elem_of_cons; [|by apply Hall].
      destruct (Z.ltb_spec m y); lia.
Qed.

Lemma fold_min_spec (l : list Z) (m : Z) :
  let M := foldl (fun m y => if y <? m then y else m) m l in
  (M = m \/ M ∈ l) /\ M <= m /\ forall x, x ∈ l -> M <= x.
Proof.
  revert m. induction l as [|y l IH]; intros m; simpl.
  - split; [by left|]. split; [lia|]. intros x Hx. by apply elem_of_nil in Hx.
  - destruct (IH (if y <? m then y else m)) as (Hin & Hge & Hall).
    split; [|split].
    + destruct Hin as [->|Hin]; [|right; by apply list_elem_of_further].
      destruct (y <? m); [right; apply list_elem_of_here|by left].
    + destruct (Z.ltb_spec y m); lia.
    + intros x [->|Hx]%elem_of_cons; [|by apply Hall].
      destruct (Z.ltb_spec y m); lia.
Qed.

Lemma extremes_unique xs lo hi lo' hi' :
  extremes xs lo hi -> extremes xs lo' hi' -> lo = lo' /\ hi = hi'.
Proof.
  intros (Hl & Hh & Hall) (Hl' & Hh' & Hall').
  pose proof (Hall lo' Hl'). pose proof (Hall hi' Hh').
  pose proof (Hall' lo Hl). pose proof (Hall' hi Hh). lia.
Qed.

Lemma py_min_max_spec xs :
  xs <> [] ->
  exists lo hi, py_min xs = Ok lo /\ py_max xs = Ok hi /\ extremes xs lo hi.
Proof.
  destruct xs as [|x xs]; [done|]. intros _.
  pose proof (fold_min_spec xs x) as (Hmin & Hmle & Hmall).
  pose proof (fold_max_spec xs x) as (Hmax & Hxle & Hxall).
  cbv zeta in *. eexists _, _. split; [reflexivity|]. split; [reflexivity|].
  split; [|split].
  - destruct Hmin as [->|?]; [apply list_elem_of_here|by apply list_elem_of_further].
  - destruct Hmax as [->|?]; [apply list_elem_of_here|by apply list_elem_of_further].
  - intros y [->|Hy]%elem_of_cons.
    + lia.
    + split; [by apply Hmall|by apply Hxall].
Qed.

Lemma extremes_perm xs ys lo hi :
  xs ≡ₚ ys -> extremes xs lo hi -> extremes ys lo hi.
Proof.
  intros Hp (Hl & Hh & Hall). split; [by rewrite <- Hp|].
  split; [by rewrite <- Hp|]. intros x Hx. apply Hall. by rewrite Hp.
Qed.

(** The band of the specification on integers. *)
Lemma band_floor lo hi x :
  lo < hi -> band lo hi x = Z.min 4 (5 * (x - lo) / (hi - lo)).
Proof.
  intros Hlt. unfold band. f_equal.
  destruct (hi - lo) as [|p|p] eqn:Hp; [lia| |lia].
  transitivity ((x - lo) * 5 / Zpos (p * 1)); [reflexivity|].
  rewrite Pos.mul_1_r. f_equal. lia.
Qed.

Lemma band_monotone lo hi x1 x2 :
  lo < hi -> x1 <= x2 -> band lo hi x1 <= band lo hi x2.
Proof.
  intros Hlt Hx. rewrite !band_floor by exact Hlt.
  apply Z.min_le_compat_l. apply Z.div_le_mono; lia.
Qed.

Lemma band_range lo hi x :
  lo < hi -> lo <= x -> 0 <= band lo hi x <= 4.
Proof.
  intros Hlt Hx. rewrite band_floor by exact Hlt.
  assert (0 <= 5 * (x - lo) / (hi - lo)) by (apply Z.div_pos; lia). lia.
Qed.

Lemma band_hi lo hi : lo < hi -> band lo hi hi = 4.
Proof.
  intros Hlt. rewrite band_floor by exact Hlt.
  rewrite Z.div_mul by lia. reflexivity.
Qed.

Lemma rmap_length {A B : Type} (f : A -> result B) l ys :
  rmap f l = Ok ys -> length ys = length l.
Proof.
  revert ys. induction l as [|x l IH]; intros ys; simpl.
  - by intros [= <-].
  - destruct (f x) as [y|]; [|done]. cbn [mbind result_bind rbind].
    destruct (rmap f l) as [ys'|]; [|done]. cbn [mbind result_bind rbind].
    intros [= <-]. simpl. by rewrite (IH ys').
Qed.

Lemma sorted_r_perm {A K : Type} (lt : K -> K -> bool) (key : A -> result K)
    l out :
  sorted_r lt key l = Ok out -> out ≡ₚ l.
Proof.
  unfold sorted_r. destruct (rmap key l) as [ks|] eqn:Hks; [|done].
  cbn [mbind result_bind rbind]. intros [= <-].
  rewrite sorted_perm. apply rmap_length in Hks.
  change (map snd (zip ks l)) with (snd <$> zip ks l).
  rewrite snd_zip by lia. reflexivity.
Qed.

Section GridOrder.
Context `{Externals}.
Import PyFloat PyFloatFacts.

Lemma sorted_xy_perm cnts : sorted_xy cnts ≡ₚ cnts.
Proof. apply sorted_perm. Qed.

Lemma sorted_xy_length cnts : length (sorted_xy cnts) = length cnts.
Proof. apply sorted_length. Qed.

Lemma sorted_xy_sorted cnts : StronglySorted xy_le (sorted_xy cnts).
Proof.
  eapply StronglySorted_weaken;
    [|apply (sorted_sorted tuple_lt _ tuple_lt_asym tuple_lt_ge_trans)].
  intros a b. unfold key_le. rewrite tuple_lt_false. done.
Qed.

Lemma sorted_bands_perm lo hi cnts : sorted_bands lo hi cnts ≡ₚ cnts.
Proof. unfold sorted_bands. by rewrite sorted_perm, sorted_xy_perm. Qed.

Lemma sorted_bands_sorted lo hi cnts :
  StronglySorted (band_y_le lo hi) (sorted_bands lo hi cnts).
Proof.
  eapply StronglySorted_weaken;
    [|apply (sorted_sorted tuple_lt _ tuple_lt_asym tuple_lt_ge_trans)].
  intros a b. unfold key_le. rewrite tuple_lt_false. done.
Qed.

Lemma grid_order_single cnts :
  (length cnts <= 100)%nat -> grid_order cnts = Ok (sorted_xy cnts).
Proof.
  intros Hlen. unfold grid_order. rewrite sorted_length.
  destruct (Nat.ltb_spec 100 (length cnts)); [lia|reflexivity].
Qed.

Lemma py_min_extremes xs lo hi : extremes xs lo hi -> py_min xs = Ok lo.
Proof.
  intros Hex. assert (Hne : xs <> []).
  { intros ->. destruct Hex as (Hl & _). by apply elem_of_nil in Hl. }
  destruct (py_min_max_spec xs Hne) as (lo' & hi' & Hmin & _ & Hex').
  by destruct (extremes_unique _ _ _ _ _ Hex Hex') as [-> _].
Qed.

Lemma py_max_extremes xs lo hi : extremes xs lo hi -> py_max xs = Ok hi.
Proof.
  intros Hex. assert (Hne : xs <> []).
  { intros ->. destruct Hex as (Hl & _). by apply elem_of_nil in Hl. }
  destruct (py_min_max_spec xs Hne) as (lo' & hi' & _ & Hmax & Hex').
  by destruct (extremes_unique _ _ _ _ _ Hex Hex') as [_ ->].
Qed.

(** [get_col] computes the band of the specification. *)
Lemma get_col_spec x_coords lo hi col_width x :
  extremes x_coords lo hi -> lo < hi -> hi - lo < 2 ^ 32 ->
  int_truediv (hi - lo) 5 = Ok col_width -> lo <= x <= hi ->
  get_col x_coords col_width x = Ok (band lo hi x).
Proof.
  intros Hex Hlt Hspan Hcw Hx. unfold get_col.
  rewrite (py_min_extremes _ _ _ Hex). cbn [mbind result_bind rbind].
  destruct (col_width_spec (hi - lo)) as (mc & ec & Hcw' & _); [lia|].
  rewrite Hcw in Hcw'. injection Hcw' as ->.
  rewrite band_floor by exact Hlt.
  apply (band_value (hi - lo) (x - lo) mc ec); [lia|lia|exact Hcw].
Qed.

Lemma grid_order_multi cnts lo hi :
  (100 < length cnts)%nat -> Forall rect_ok cnts ->
  extremes (map rect_x cnts) lo hi -> lo < hi ->
  exists col_width,
    int_truediv (hi - lo) 5 = Ok col_width /\
    (forall c, c ∈ cnts ->
       get_col (map rect_x (sorted_xy cnts)) col_width (rect_x c) =
       Ok (band lo hi (rect_x c))) /\
    grid_order cnts = Ok (sorted_bands lo hi cnts).
Proof.
  intros Hlen Hok Hex Hlt.
  assert (Hex' : extremes (map rect_x (sorted_xy cnts)) lo hi).
  { eapply extremes_perm; [|exact Hex].
    apply Permutation_map. symmetry. apply sorted_xy_perm. }
  assert (Hspan : hi - lo < 2 ^ 32).
  { destruct Hex as (Hl & Hh & _).
    apply list_elem_of_In, in_map_iff in Hl as (cl & <- & Hcl).
    apply list_elem_of_In, in_map_iff in Hh as (ch & <- & Hch).
    rewrite Forall_forall in Hok.
    destruct (Hok cl) as (Hxl & _); [by apply list_elem_of_In|].
    destruct (Hok ch) as (Hxh & _); [by apply list_elem_of_In|]. lia. }
  destruct (col_width_spec (hi - lo)) as (mc & ec & Hcw & _); [lia|].
  exists (S754_finite false mc ec). split; [exact Hcw|].
  assert (Hcol : forall c, c ∈ cnts ->
    get_col (map rect_x (sorted_xy cnts)) (S754_finite false mc ec) (rect_x c) =
    Ok (band lo hi (rect_x c))).
  { intros c Hc. apply (get_col_spec _ lo hi); try done.
    destruct Hex as (_ & _ & Hall). apply Hall.
    apply list_elem_of_In, in_map, list_elem_of_In, Hc. }
  split; [exact Hcol|].
  unfold grid_order. fold (sorted_xy cnts).
  rewrite sorted_xy_length.
  destruct (Nat.ltb_spec 100 (length cnts)); [|lia].
  rewrite (py_max_extremes _ _ _ Hex'), (py_min_extremes _ _ _ Hex').
  cbn [mbind result_bind rbind]. rewrite Hcw. cbn [mbind result_bind rbind].
  apply sorted_r_ok. intros c Hc.
  rewrite Hcol; [reflexivity|]. by rewrite <- (sorted_xy_perm cnts).
Qed.

(** A zero span makes every call of [get_col] divide by zero. *)
Lemma grid_order_flat cnts lo :
  (100 < length cnts)%nat -> extremes (map rect_x cnts) lo lo ->
  grid_order cnts = Raise ZeroDivisionError.
Proof.
  intros Hlen Hex.
  assert (Hex' : extremes (map rect_x (sorted_xy cnts)) lo lo).
  { eapply extremes_perm; [|exact Hex].
    apply Permutation_map. symmetry. apply sorted_xy_perm. }
  unfold grid_order. fold (sorted_xy cnts). rewrite sorted_xy_length.
  destruct (Nat.ltb_spec 100 (length cnts)); [|lia].
  rewrite (py_max_extremes _ _ _ Hex'), (py_min_extremes _ _ _ Hex').
  cbn [mbind result_bind rbind]. rewrite Z.sub_diag.
  change (int_truediv 0 5) with (Ok (S754_zero false)).
  cbn [mbind result_bind rbind].
  apply sorted_r_raise.
  - intros Hnil. apply (f_equal length) in Hnil.
    rewrite sorted_xy_length in Hnil. simpl in Hnil. lia.
  - intros c Hc. unfold get_col. rewrite (py_min_extremes _ _ _ Hex').
    cbn [mbind result_bind rbind].
    assert (Hx : rect_x c = lo).
    { destruct Hex' as (_ & _ & Hall).
      assert (lo <= rect_x c <= lo); [|lia].
      apply Hall, list_elem_of_In, in_map, list_elem_of_In, Hc. }
    rewrite Hx, Z.sub_diag. reflexivity.
Qed.

End GridOrder.

(** C5. For every filtered candidate set, whatever the grid orderer
    returns is a permutation of its input, so of the same length. With
    at most 100 candidates it returns the candidates sorted by horizontal
    and then vertical position, so the five-band re-sort can only have
    been applied to more than 100 candidates. With more than 100
    candidates of valid bounding boxes that do not all share one
    x-coordinate it does return. *)
Theorem grid_orderer_permutation `{Externals} (question_cnts : list Contour) :
  (forall out, grid_order question_cnts = Ok out ->
     out ≡ₚ question_cnts /\ length out = length question_cnts) /\
  ((length question_cnts <= 100)%nat ->
     grid_order question_cnts = Ok (sorted_xy question_cnts) /\
     StronglySorted xy_le (sorted_xy question_cnts)) /\
  (forall out, grid_order question_cnts = Ok out ->
     out <> sorted_xy question_cnts -> (100 < length question_cnts)%nat) /\
  ((100 < length question_cnts)%nat -> Forall rect_ok question_cnts ->
   (exists c1 c2, c1 ∈ question_cnts /\ c2 ∈ question_cnts /\
                  rect_x c1 <> rect_x c2) ->
   exists out, grid_order question_cnts = Ok out).
Proof.
  assert (Hperm : forall out, grid_order question_cnts = Ok out ->
            out ≡ₚ question_cnts).
  { intros out. unfold grid_order. fold (sorted_xy question_cnts).
    destruct (100 <? length (sorted_xy question_cnts))%nat.
    - destruct (py_max _) as [hi|]; [|done]. cbn [mbind result_bind rbind].
      destruct (py_min _) as [lo|]; [|done]. cbn [mbind result_bind rbind].
      destruct (PyFloat.int_truediv _ _) as [cw|]; [|done].
      cbn [mbind result_bind rbind].
      intros Hs%sorted_r_perm. by rewrite Hs, sorted_xy_perm.
    - intros [= <-]. apply sorted_xy_perm. }
  split; [|split; [|split]].
  - intros out Hout. split; [by apply Hperm|].
    apply Permutation_length. by apply Hperm.
  - intros Hlen. split; [by apply grid_order_single|apply sorted_xy_sorted].
  - intros out Hout Hne.
    destruct (Nat.ltb_spec 100 (length question_cnts)) as [|Hle]; [done|].
    rewrite grid_order_single in Hout by exact Hle. congruence.
  - intros Hlen Hok (c1 & c2 & Hc1 & Hc2 & Hne).
    destruct (py_min_max_spec (map rect_x question_cnts))
      as (lo & hi & _ & _ & Hex).
    { intros Hnil. apply (f_equal length) in Hnil.
      rewrite length_map in Hnil. simpl in Hnil. lia. }
    assert (Hlt : lo < hi).
    { destruct Hex as (_ & _ & Hall).
      pose proof (Hall (rect_x c1)
        ltac:(apply list_elem_of_In, in_map, list_elem_of_In, Hc1)).
      pose proof (Hall (rect_x c2)
        ltac:(apply list_elem_of_In, in_map, list_elem_of_In, Hc2)).
      lia. }
    destruct (grid_order_multi question_cnts lo hi Hlen Hok Hex Hlt)
      as (_ & _ & _ & Hgo).
    eauto.
Qed.

(** C6. In multi-column mode, for candidates with valid bounding boxes
    whose largest x-coordinate exceeds the smallest, the band [get_col]
    assigns to a candidate is [min(4, floor((x - lo) / ((hi - lo) / 5)))],
    a function of its x-coordinate and the two extremes only. That
    function is monotone in [x], stays within 0..4 on the candidates, and
    gives 4 at the largest x-coordinate. The orderer returns the
    candidates sorted by band and then vertical position. *)
Theorem multi_column_bands `{Externals} (question_cnts : list Contour)
    (lo hi : Z) :
  (100 < length question_cnts)%nat -> Forall rect_ok question_cnts ->
  extremes (map rect_x question_cnts) lo hi -> lo < hi ->
  (exists col_width,
     PyFloat.int_truediv (hi - lo) 5 = Ok col_width /\
     forall c, c ∈ question_cnts ->
       get_col (map rect_x (sorted_xy question_cnts)) col_width (rect_x c) =
       Ok (band lo hi (rect_x c))) /\
  (forall x1 x2, x1 <= x2 -> band lo hi x1 <= band lo hi x2) /\
  (forall c, c ∈ question_cnts -> 0 <= band lo hi (rect_x c) <= 4) /\
  band lo hi hi = 4 /\
  grid_order question_cnts = Ok (sorted_bands lo hi question_cnts) /\
  sorted_bands lo hi question_cnts ≡ₚ question_cnts /\
  StronglySorted (band_y_le lo hi) (sorted_bands lo hi question_cnts).
Proof.
  intros Hlen Hok Hex Hlt.
  destruct (grid_order_multi question_cnts lo hi Hlen Hok Hex Hlt)
    as (cw & Hcw & Hcol & Hgo).
  split; [by exists cw|].
  split; [intros x1 x2; by apply band_monotone|].
  split.
  { intros c Hc. apply band_range; [exact Hlt|].
    destruct Hex as (_ & _ & Hall). apply Hall.
    apply list_elem_of_In, in_map, list_elem_of_In, Hc. }
  split; [by apply band_hi|]. split; [exact Hgo|].
  split; [apply sorted_bands_perm|apply sorted_bands_sorted].
Qed.

(** ** The batch *)

Section Batch.
Context `{Externals}.

Lemma process_sheet_outcome answer_key final_html_report image_obj :
  process_sheet answer_key final_html_report image_obj =
  final_html_report ++ [sheet_outcome answer_key image_obj].
Proof.
  unfold process_sheet, sheet_outcome.
  destruct (score_sheet answer_key image_obj); reflexivity.
Qed.

(** The report so far never influences what a sheet adds to it. *)
Lemma batch_fold answer_key final_html_report omr_images :
  foldl (process_sheet answer_key) final_html_report omr_images =
  final_html_report ++ map (sheet_outcome answer_key) omr_images.
Proof.
  revert final_html_report.
  induction omr_images as [|s imgs IH]; intros acc; simpl.
  - by rewrite app_nil_r.
  - rewrite IH, process_sheet_outcome, <- app_assoc. reflexivity.
Qed.

Lemma score_omr_sheets_batch omr_images key_file answer_key :
  parse_answer_key key_file = KeyAnswers answer_key ->
  score_omr_sheets (Some omr_images) (Some key_file) =
  Batch (map (sheet_outcome answer_key) omr_images).
Proof.
  intros Hk. unfold score_omr_sheets. rewrite Hk, batch_fold. reflexivity.
Qed.

Lemma score_omr_sheets_inv omr_images key_file outcomes :
  score_omr_sheets (Some omr_images) (Some key_file) = Batch outcomes ->
  exists answer_key,
    parse_answer_key key_file = KeyAnswers answer_key /\
    outcomes = map (sheet_outcome answer_key) omr_images.
Proof.
  unfold score_omr_sheets.
  destruct (parse_answer_key key_file) as [answer_key|e]; [|done].
  rewrite batch_fold. intros [= <-]. by exists answer_key.
Qed.

(** The steps of [score_sheet] once detection, filtering and ordering
    have succeeded. *)
Lemma score_sheet_ordered answer_key image_obj cnts thresh question_cnts bubbles :
  find_contours (sheet_image image_obj) = Ok (cnts, thresh) ->
  filter_bubbles [] cnts = Ok question_cnts ->
  grid_order question_cnts = Ok bubbles ->
  score_sheet answer_key image_obj =
  Ok (if (length bubbles <? 100)%nat
      then Warning (sheet_name image_obj) (length bubbles)
      else Scored (sheet_name image_obj)
             (score_rows answer_key (extract_student_answers bubbles thresh)).1
             (score_rows answer_key (extract_student_answers bubbles thresh)).2).
Proof.
  intros Hc Hf Hg. unfold score_sheet, find_and_sort_bubbles.
  rewrite Hc. cbn [mbind result_bind rbind]. rewrite Hf.
  cbn [mbind result_bind rbind]. rewrite Hg. cbn [mbind result_bind rbind].
  destruct (length bubbles <? 100)%nat; [reflexivity|].
  destruct (score_rows _ _). reflexivity.
Qed.

Lemma score_sheet_unordered answer_key image_obj cnts thresh question_cnts e :
  find_contours (sheet_image image_obj) = Ok (cnts, thresh) ->
  filter_bubbles [] cnts = Ok question_cnts ->
  grid_order question_cnts = Raise e ->
  score_sheet answer_key image_obj = Raise e.
Proof.
  intros Hc Hf Hg. unfold score_sheet, find_and_sort_bubbles.
  rewrite Hc. cbn [mbind result_bind rbind]. rewrite Hf.
  cbn [mbind result_bind rbind]. rewrite Hg. reflexivity.
Qed.

Lemma count_status_none st (rows : list Row) :
  (forall r, r ∈ rows -> row_status r <> st) -> count_status st rows = 0.
Proof.
  intros Hno. unfold count_status.
  induction rows as [|r rows IH]; [reflexivity|].
  rewrite filter_cons. rewrite decide_False.
  - apply IH. intros r' Hr'. apply Hno. by apply list_elem_of_further.
  - apply Hno. apply list_elem_of_here.
Qed.

(** Scoring against the empty key. *)
Lemma score_rows_empty_key (student_answers : gmap Z string) :
  (forall q s, student_answers !! q = Some s -> is_option_letter s) ->
  (score_rows ∅ student_answers).1 = 0 /\
  length (score_rows ∅ student_answers).2 = 100%nat /\
  forall r, r ∈ (score_rows ∅ student_answers).2 ->
    row_correct r = "N/A" /\
    (row_status r = "Incorrect" <-> student_answers !! row_q r <> None) /\
    (row_status r = "Unanswered" <-> student_answers !! row_q r = None).
Proof.
  intros Hwf. rewrite score_rows_eq. cbn [fst snd].
  assert (Hrow : forall q,
    row_correct (row_of ∅ student_answers q) = "N/A" /\
    (row_status (row_of ∅ student_answers q) = "Incorrect" <->
       student_answers !! q <> None) /\
    (row_status (row_of ∅ student_answers q) = "Unanswered" <->
       student_answers !! q = None) /\
    row_status (row_of ∅ student_answers q) <> "Correct").
  { intros q.
    destruct (row_of_answers ∅ student_answers q) as [_ Hc].
    destruct (row_of_status ∅ student_answers q (Hwf q)) as (Hu & Hok & Hbad).
    rewrite lookup_empty in Hc. split; [exact Hc|].
    split; [|split; [exact Hu|]].
    - rewrite Hbad. split.
      + intros (s & -> & _). done.
      + intros Hs. destruct (student_answers !! q) as [s|]; [|done].
        exists s. by rewrite lookup_empty.
    - rewrite Hok. intros (s & _ & Hs). by rewrite lookup_empty in Hs. }
  split; [|split].
  - apply count_status_none. intros r Hr.
    apply list_elem_of_In, in_map_iff in Hr as (q & <- & _). apply Hrow.
  - by rewrite length_map, range_length.
  - intros r Hr. apply list_elem_of_In, in_map_iff in Hr as (q & <- & _).
    rewrite row_of_q. destruct (Hrow q) as (? & ? & ? & _). done.
Qed.

End Batch.

(** C7. A readable sheet whose regions yield fewer than 100 accepted
    candidates (99, for one) gets the insufficient-candidates warning
    with the number found, and no score. A sheet with exactly 100
    accepted candidates goes on to mark selection and scoring: its
    outcome is the score and the rows computed from the candidates in
    reading order. In both cases the batch goes on: the sheets before and
    after get the outcomes they would get anyway. *)
Theorem insufficient_candidates_skipped `{Externals}
    (answer_key : gmap Z string) (image_obj : sheet)
    (cnts : list Contour) (thresh : Thresh) :
  find_contours (sheet_image image_obj) = Ok (cnts, thresh) ->
  Forall rect_ok cnts ->
  let question_cnts := filter is_candidate cnts in
  let found := length question_cnts in
  ((found < 100)%nat ->
     sheet_outcome answer_key image_obj =
     Warning (sheet_name image_obj) found) /\
  (found = 100%nat ->
     let student_answers :=
       extract_student_answers (sorted_xy question_cnts) thresh in
     sheet_outcome answer_key image_obj =
     Scored (sheet_name image_obj)
       (score_rows answer_key student_answers).1
       (score_rows answer_key student_answers).2) /\
  (forall before after key_file,
     parse_answer_key key_file = KeyAnswers answer_key ->
     score_omr_sheets (Some (before ++ image_obj :: after)) (Some key_file) =
     Batch (map (sheet_outcome answer_key) before ++
            sheet_outcome answer_key image_obj ::
            map (sheet_outcome answer_key) after)).
Proof.
  intros Hc Hok question_cnts found.
  destruct (region_filter_total cnts Hok) as [Hf _].
  fold question_cnts in Hf.
  assert (Hsingle : (found <= 100)%nat ->
    score_sheet answer_key image_obj =
    Ok (if (found <? 100)%nat
        then Warning (sheet_name image_obj) found
        else Scored (sheet_name image_obj)
          (score_rows answer_key
             (extract_student_answers (sorted_xy question_cnts) thresh)).1
          (score_rows answer_key
             (extract_student_answers (sorted_xy question_cnts) thresh)).2)).
  { intros Hle.
    rewrite (score_sheet_ordered answer_key image_obj cnts thresh
               question_cnts (sorted_xy question_cnts) Hc Hf
               (grid_order_single question_cnts Hle)).
    by rewrite sorted_xy_length. }
  split; [|split].
  - intros Hlt. unfold sheet_outcome. rewrite Hsingle by lia.
    destruct (Nat.ltb_spec found 100); [reflexivity|lia].
  - intros Heq student_answers. unfold sheet_outcome.
    rewrite Hsingle by lia.
    destruct (Nat.ltb_spec found 100); [lia|reflexivity].
  - intros before after key_file Hk.
    rewrite (score_omr_sheets_batch _ _ _ Hk), map_app. reflexivity.
Qed.

(** C8. The report is a function of the sheets and the key alone. Every
    sheet of a batch gets exactly the outcome it gets when it is scored
    again on its own with the same key, so a sheet submitted twice gets
    the same score report both times, whatever was processed in
    between. *)
Theorem rescoring_is_identical `{Externals} (omr_images : list sheet)
    (key_file : KeyFile) (outcomes : list outcome) :
  score_omr_sheets (Some omr_images) (Some key_file) = Batch outcomes ->
  length outcomes = length omr_images /\
  (forall (i : nat) s, omr_images !! i = Some s ->
     exists o, outcomes !! i = Some o /\
       score_omr_sheets (Some [s]) (Some key_file) = Batch [o]) /\
  (forall (i j : nat) s, omr_images !! i = Some s -> omr_images !! j = Some s ->
     outcomes !! i = outcomes !! j).
Proof.
  intros Hrun.
  apply score_omr_sheets_inv in Hrun as (answer_key & Hk & ->).
  split; [by rewrite length_map|]. split.
  - intros i s Hi. exists (sheet_outcome answer_key s). split.
    + change (map (sheet_outcome answer_key) omr_images)
        with (sheet_outcome answer_key <$> omr_images).
      by rewrite list_lookup_fmap, Hi.
    + by rewrite (score_omr_sheets_batch _ _ _ Hk).
  - intros i j s Hi Hj.
    change (map (sheet_outcome answer_key) omr_images)
      with (sheet_outcome answer_key <$> omr_images).
    by rewrite !list_lookup_fmap, Hi, Hj.
Qed.

(** C9. When more than 100 candidates are accepted on a sheet and all of
    them have the same x-coordinate, the band width is zero and the band
    computation divides by it: ordering raises [ZeroDivisionError], the
    handler of the sheet catches it, the sheet gets an error outcome and
    no score, and the batch goes on with the sheets before and after
    unaffected. *)
Theorem zero_span_is_caught `{Externals} (answer_key : gmap Z string)
    (image_obj : sheet) (cnts question_cnts : list Contour)
    (thresh : Thresh) :
  find_contours (sheet_image image_obj) = Ok (cnts, thresh) ->
  filter_bubbles [] cnts = Ok question_cnts ->
  (100 < length question_cnts)%nat ->
  (forall c1 c2, c1 ∈ question_cnts -> c2 ∈ question_cnts ->
     rect_x c1 = rect_x c2) ->
  grid_order question_cnts = Raise ZeroDivisionError /\
  find_and_sort_bubbles (sheet_image image_obj) = Raise ZeroDivisionError /\
  sheet_outcome answer_key image_obj =
    Failed (sheet_name image_obj) ZeroDivisionError /\
  (forall before after key_file,
     parse_answer_key key_file = KeyAnswers answer_key ->
     score_omr_sheets (Some (before ++ image_obj :: after)) (Some key_file) =
     Batch (map (sheet_outcome answer_key) before ++
            Failed (sheet_name image_obj) ZeroDivisionError ::
            map (sheet_outcome answer_key) after)).
Proof.
  intros Hc Hf Hlen Hflat.
  assert (Hgo : grid_order question_cnts = Raise ZeroDivisionError).
  { destruct (py_min_max_spec (map rect_x question_cnts))
      as (lo & hi & _ & _ & Hex).
    { intros Hnil. apply (f_equal length) in Hnil.
      rewrite length_map in Hnil. simpl in Hnil. lia. }
    assert (hi = lo) as ->.
    { destruct Hex as (Hl & Hh & _).
      apply list_elem_of_In, in_map_iff in Hl as (cl & <- & Hcl).
      apply list_elem_of_In, in_map_iff in Hh as (ch & <- & Hch).
      apply Hflat; by apply list_elem_of_In. }
    by apply (grid_order_flat question_cnts lo). }
  assert (Hout : sheet_outcome answer_key image_obj =
                 Failed (sheet_name image_obj) ZeroDivisionError).
  { unfold sheet_outcome.
    by rewrite (score_sheet_unordered answer_key image_obj cnts thresh
                  question_cnts ZeroDivisionError Hc Hf Hgo). }
  split; [exact Hgo|]. split.
  { unfold find_and_sort_bubbles. rewrite Hc. cbn [mbind result_bind rbind].
    rewrite Hf. cbn [mbind result_bind rbind]. by rewrite Hgo. }
  split; [exact Hout|].
  intros before after key_file Hk.
  rewrite (score_omr_sheets_batch _ _ _ Hk), map_app. cbn [map].
  by rewrite Hout.
Qed.

(** C10. When the key source is readable and no cell matches the
    pattern, the reader returns the empty mapping and no error, and the
    batch is processed against it: every sheet gets the outcome the
    pipeline gives it with the empty key. Every score report of the batch
    is the one computed from the answers the mark selector reads off the
    sheet's ordered candidates: its score is 0, it has the 100 rows of the
    questions 1..100 in order, each with "N/A" as the correct answer; the
    row of a question the student marked carries the marked letter and
    the status "Incorrect", the row of any other question is
    "Unanswered". A sheet whose candidates were detected, filtered and
    ordered, at least 100 of them, does get such a report. *)
Theorem empty_key_scores_zero `{Externals} (key_file : KeyFile)
    (items : list (option string)) (omr_images : list sheet) :
  read_csv key_file = Ok items ->
  (forall item, item ∈ items -> cell_entry item = Ok None) ->
  parse_answer_key key_file = KeyAnswers ∅ /\
  score_omr_sheets (Some omr_images) (Some key_file) =
    Batch (map (sheet_outcome ∅) omr_images) /\
  (forall s filename score results_data,
     s ∈ omr_images ->
     sheet_outcome ∅ s = Scored filename score results_data ->
     exists bubbles thresh,
       find_and_sort_bubbles (sheet_image s) = Ok (bubbles, thresh) /\
       filename = sheet_name s /\ score = 0 /\
       length results_data = 100%nat /\
       forall i : nat, (i < 100)%nat ->
         let q := Z.of_nat i + 1 in
         results_data !! i =
         Some (match extract_student_answers bubbles thresh !! q with
               | Some L => (q, L, "N/A", "Incorrect")
               | None => (q, "Unanswered", "N/A", "Unanswered")
               end)) /\
  (forall s cnts thresh question_cnts bubbles,
     s ∈ omr_images ->
     find_contours (sheet_image s) = Ok (cnts, thresh) ->
     filter_bubbles [] cnts = Ok question_cnts ->
     grid_order question_cnts = Ok bubbles ->
     (100 <= length bubbles)%nat ->
     exists results_data,
       sheet_outcome ∅ s = Scored (sheet_name s) 0 results_data).
Proof.
  intros Hread Hnone.
  assert (Hk : parse_answer_key key_file = KeyAnswers ∅).
  { rewrite (parse_answer_key_read _ _ Hread).
    assert (Hfold : forall m, rfoldl key_step m items = Ok m).
    { clear Hread. induction items as [|x items' IH]; intros m; [reflexivity|].
      assert (Hstep : key_step m x = Ok m).
      { unfold key_step. by rewrite (Hnone x) by apply list_elem_of_here. }
      cbn [rfoldl]. rewrite Hstep. cbn [mbind result_bind rbind].
      apply IH. intros item Hitem. apply Hnone. by apply list_elem_of_further. }
    by rewrite Hfold. }
  split; [exact Hk|]. split; [by apply score_omr_sheets_batch|].
  split.
  - intros s filename score results_data _ Hout.
    unfold sheet_outcome, score_sheet in Hout.
    destruct (find_and_sort_bubbles (sheet_image s)) as [[bubbles thresh]|];
      [|done].
    cbn [mbind result_bind rbind] in Hout.
    destruct (length bubbles <? 100)%nat; [done|].
    set (answers := extract_student_answers bubbles thresh) in *.
    destruct (score_rows ∅ answers) as [sc rows] eqn:Hsr.
    assert (Hsc : sc = (score_rows ∅ answers).1) by (by rewrite Hsr).
    assert (Hrows : rows = (score_rows ∅ answers).2) by (by rewrite Hsr).
    clear Hsr. injection Hout as <- <- <-.
    exists bubbles, thresh. split; [reflexivity|]. split; [reflexivity|].
    destruct (score_rows_empty_key answers (extract_letters thresh bubbles))
      as (Hs & Hl & _).
    split; [by rewrite Hsc|]. split; [by rewrite Hrows|].
    intros i Hi q. rewrite Hrows, score_rows_eq. cbn [snd].
    change (map (row_of ∅ answers) (range 1 101))
      with (row_of ∅ answers <$> range 1 101).
    rewrite list_lookup_fmap, range_lookup by exact Hi.
    cbn [fmap option_fmap option_map]. f_equal.
    replace (1 + Z.of_nat i) with q by (unfold q; lia).
    change (extract_student_answers bubbles thresh) with answers.
    unfold row_of, score_step. rewrite lookup_empty. cbn [default].
    destruct (answers !! q) as [L|] eqn:HL; [|reflexivity].
    apply extract_letters in HL.
    destruct HL as [->|[->|[->| ->]]]; reflexivity.
  - intros s cnts thresh question_cnts bubbles _ Hc Hf Hg Hlen.
    unfold sheet_outcome.
    rewrite (score_sheet_ordered ∅ s cnts thresh question_cnts bubbles Hc Hf Hg).
    destruct (Nat.ltb_spec (length bubbles) 100); [lia|].
    destruct (score_rows_empty_key
                (extract_student_answers bubbles thresh)
                (extract_letters thresh bubbles)) as (Hs & _).
    rewrite Hs. eauto.
Qed.

(** ** The answer key reader, further *)

Lemma parse_answer_key_fold `{Externals} key_file items answers :
  read_csv key_file = Ok items ->
  parse_answer_key key_file = KeyAnswers answers ->
  rfoldl key_step ∅ items = Ok answers.
Proof.
  intros Hread Hparse. rewrite (parse_answer_key_read _ _ Hread) in Hparse.
  destruct (rfoldl key_step ∅ items); congruence.
Qed.

(** When the file is parsed, every cell was read and the answers are
    those of the entries. *)
Lemma parse_answer_key_entries `{Externals} key_file items answers :
  read_csv key_file = Ok items ->
  parse_answer_key key_file = KeyAnswers answers ->
  (forall item, item ∈ items -> exists entry, cell_entry item = Ok entry) /\
  answers = foldl (fun m e => <[e.1 := e.2]> m) ∅ (key_entries items).
Proof.
  intros Hread Hparse.
  pose proof (parse_answer_key_fold _ _ _ Hread Hparse) as Hfold.
  destruct (key_fold_cases items ∅) as [[Hall Hok]|[_ Hraise]]; [|congruence].
  split; [exact Hall|congruence].
Qed.

Lemma entries_fold_size (es : list (Z * string)) (m : gmap Z string) :
  (size (foldl (fun m e => <[e.1 := e.2]> m) m es) <= size m + length es)%nat.
Proof.
  revert m. induction es as [|e es IH]; intros m; simpl; [lia|].
  specialize (IH (<[e.1 := e.2]> m)).
  destruct (m !! e.1) as [L|] eqn:Hm.
  - rewrite map_size_insert_Some in IH by eauto. lia.
  - rewrite map_size_insert_None in IH by exact Hm. lia.
Qed.

Lemma entries_fold_lookup (es : list (Z * string)) q L :
  NoDup (map fst es) ->
  foldl (fun m e => <[e.1 := e.2]> m) (∅ : gmap Z string) es !! q = Some L <->
  (q, L) ∈ es.
Proof.
  induction es as [|e es IH] using rev_ind; intros Hnd.
  - simpl. rewrite lookup_empty. split; [done|]. intros Hin.
    by apply elem_of_nil in Hin.
  - rewrite map_app in Hnd. apply NoDup_app in Hnd as (Hnd & Hfresh & _).
    rewrite foldl_app. simpl. rewrite elem_of_app, list_elem_of_singleton.
    destruct (decide (q = e.1)) as [->|Hq].
    + rewrite lookup_insert_eq. split.
      * intros [= <-]. right. by destruct e.
      * intros [Hin|He]; [|by rewrite <- He]. exfalso.
        apply (Hfresh e.1); [|simpl; apply list_elem_of_here].
        apply list_elem_of_In, in_map_iff. exists (e.1, L).
        split; [reflexivity|by apply list_elem_of_In].
    + rewrite lookup_insert_ne by congruence. rewrite (IH Hnd).
      split; [tauto|]. intros [Hin|He]; [exact Hin|].
      exfalso. apply Hq. by rewrite <- He.
Qed.

Lemma is_digit_value c :
  Re.is_digit c = true -> 0 <= Z.of_N (N_of_ascii c) - 48 <= 9.
Proof. unfold Re.is_digit, Re.code. lia. Qed.

Lemma int_of_digits_nonneg g :
  forallb Re.is_digit g = true -> 0 <= int_of_digits g.
Proof.
  assert (Hgen : forall acc, 0 <= acc -> forallb Re.is_digit g = true ->
    0 <= fold_left (fun a c => 10 * a + (Z.of_N (N_of_ascii c) - 48)) g acc).
  { induction g as [|c g IH]; intros a Ha Hd; simpl in *; [exact Ha|].
    apply andb_true_iff in Hd as [Hc Hd]. apply IH; [|exact Hd].
    pose proof (is_digit_value c Hc). lia. }
  intros Hd. apply Hgen; [lia|exact Hd].
Qed.

(** The digits of the leftmost occurrence are a whole run of digits. *)
Lemma leftmost_whole_run cell g1 g2 :
  leftmost_occurrence cell g1 g2 ->
  exists pre rest,
    cell = pre ++ g1 ++ rest /\ g1 <> [] /\ forallb Re.is_digit g1 = true /\
    stops Re.is_digit rest /\ stops Re.is_digit (rev pre).
Proof.
  intros (pre & suf & Hcell & Hocc & Hleft).
  pose proof Hocc as (ws1 & sep & ws2 & rest & Hsuf & Hne & Hd & Hw1 & Hsep & Hw2 & Hg).
  exists pre, (ws1 ++ [sep] ++ ws2 ++ [g2] ++ rest).
  split; [by rewrite Hcell, Hsuf|]. split; [exact Hne|]. split; [exact Hd|].
  split.
  - destruct ws1 as [|w ws1]; simpl.
    + by apply ReFacts.sep_not_digit.
    + simpl in Hw1. apply andb_true_iff in Hw1 as [Hw _].
      by apply ReFacts.space_not_digit.
  - destruct pre as [|d pre' _] using rev_ind; [exact I|].
    rewrite rev_app_distr. simpl.
    destruct (Re.is_digit d) eqn:Hdd; [|reflexivity]. exfalso.
    apply (Hleft pre' (d :: suf) (d :: g1) g2).
    + rewrite Hcell, <- app_assoc. reflexivity.
    + rewrite length_app. simpl. lia.
    + exists ws1, sep, ws2, rest. rewrite Hsuf. simpl. rewrite Hdd.
      repeat split; done.
Qed.

(** X1. Every question number of the answer key is a non-negative
    integer written in some cell by a whole run of digits: the digits the
    reader takes are preceded by no digit and followed by none, so a
    number is never cut out of the middle of a longer one, and a sign in
    front of the digits is not part of it. *)
Theorem question_numbers_are_whole `{Externals} (key_file : KeyFile)
    (items : list (option string)) (answers : gmap Z string) (q : Z) (L : string) :
  read_csv key_file = Ok items ->
  parse_answer_key key_file = KeyAnswers answers ->
  answers !! q = Some L ->
  0 <= q /\
  exists cell pre g1 rest,
    Some cell ∈ items /\
    list_ascii_of_string cell = pre ++ g1 ++ rest /\
    g1 <> [] /\ forallb Re.is_digit g1 = true /\ q = int_of_digits g1 /\
    stops Re.is_digit rest /\ stops Re.is_digit (rev pre).
Proof.
  intros Hread Hparse HL.
  pose proof (parse_answer_key_fold _ _ _ Hread Hparse) as Hfold.
  apply (key_fold_lookup items answers q L Hfold) in HL
    as (i & item & Hi & Hentry & _).
  destruct item as [cell|]; [|discriminate].
  apply cell_entry_iff in Hentry as (g1 & g2 & Hocc & _ & -> & _).
  destruct (leftmost_whole_run _ _ _ Hocc) as (pre & rest & Hcell & Hne & Hd & Hr & Hp).
  split; [by apply int_of_digits_nonneg|].
  exists cell, pre, g1, rest. split; [by eapply list_elem_of_lookup_2|].
  repeat split; done.
Qed.

Lemma key_entries_length items : (length (key_entries items) <= length items)%nat.
Proof.
  unfold key_entries. induction items as [|x items IH]; [reflexivity|].
  cbn [omap list_omap]. destruct (cell_entry x) as [[e|]|]; cbn [length]; lia.
Qed.

Lemma key_entries_elem items q L :
  (q, L) ∈ key_entries items <->
  exists item, item ∈ items /\ cell_entry item = Ok (Some (q, L)).
Proof.
  unfold key_entries. rewrite list_elem_of_omap. split.
  - intros (item & Hi & He). exists item. split; [exact Hi|].
    destruct (cell_entry item) as [entry|]; [by subst|done].
  - intros (item & Hi & He). exists item. split; [exact Hi|by rewrite He].
Qed.

Lemma entries_fold_elem (es : list (Z * string)) q L :
  foldl (fun m e => <[e.1 := e.2]> m) (∅ : gmap Z string) es !! q = Some L ->
  (q, L) ∈ es.
Proof.
  induction es as [|e es IH] using rev_ind.
  - simpl. by rewrite lookup_empty.
  - rewrite foldl_app. simpl. rewrite elem_of_app, list_elem_of_singleton.
    destruct (decide (q = e.1)) as [->|Hq].
    + rewrite lookup_insert_eq. intros [= <-]. right. by destruct e.
    + rewrite lookup_insert_ne by congruence. intros HL. left. by apply IH.
Qed.

Lemma entries_fold_size_nodup (es : list (Z * string)) :
  NoDup (map fst es) ->
  size (foldl (fun m e => <[e.1 := e.2]> m) (∅ : gmap Z string) es) = length es.
Proof.
  induction es as [|e es IH] using rev_ind; intros Hnd.
  - simpl. apply map_size_empty.
  - rewrite map_app in Hnd. apply NoDup_app in Hnd as (Hnd & Hfresh & _).
    rewrite foldl_app, length_app. simpl.
    rewrite map_size_insert_None; [rewrite (IH Hnd); lia|].
    destruct (foldl _ _ es !! e.1) as [L|] eqn:HL; [|reflexivity].
    exfalso. apply entries_fold_elem in HL.
    apply (Hfresh e.1); [|simpl; apply list_elem_of_here].
    apply list_elem_of_In, in_map_iff. exists (e.1, L).
    split; [reflexivity|by apply list_elem_of_In].
Qed.

(** X2. Whenever the key file is parsed to answers, a cell has added at
    most one entry, the one of its leftmost match, however many matches
    its text holds: the key has no more entries than there are cells read
    to an entry, and no more than there are cells. Its question numbers
    are exactly those of the cells read to an entry. When these cells
    carry pairwise distinct numbers the key has exactly one entry per
    such cell, that cell's own. *)
Theorem one_entry_per_cell `{Externals} (key_file : KeyFile)
    (items : list (option string)) (answers : gmap Z string) :
  read_csv key_file = Ok items ->
  parse_answer_key key_file = KeyAnswers answers ->
  (size answers <= length (key_entries items) <= length items)%nat /\
  (forall q L, (q, L) ∈ key_entries items <->
     exists item, item ∈ items /\ cell_entry item = Ok (Some (q, L))) /\
  (forall q, is_Some (answers !! q) <-> q ∈ map fst (key_entries items)) /\
  (NoDup (map fst (key_entries items)) ->
     size answers = length (key_entries items) /\
     forall q L, answers !! q = Some L <-> (q, L) ∈ key_entries items).
Proof.
  intros Hread Hparse.
  destruct (parse_answer_key_entries _ _ _ Hread Hparse) as [_ ->].
  split.
  { pose proof (entries_fold_size (key_entries items) ∅) as Hs.
    rewrite map_size_empty in Hs. pose proof (key_entries_length items). lia. }
  split; [apply key_entries_elem|].
  split.
  { intros q. split.
    - intros [L HL]. apply entries_fold_elem in HL.
      apply list_elem_of_In, in_map_iff. exists (q, L).
      split; [reflexivity|by apply list_elem_of_In].
    - generalize (key_entries items). intros es.
      induction es as [|e es IH] using rev_ind.
      + simpl. intros Hq. by apply elem_of_nil in Hq.
      + rewrite map_app, foldl_app, elem_of_app. simpl.
        rewrite list_elem_of_singleton.
        destruct (decide (q = e.1)) as [->|Hq].
        * rewrite lookup_insert_eq. eauto.
        * rewrite lookup_insert_ne by congruence. intros [Hin|?]; [|done].
          by apply IH. }
  intros Hnd. split; [by apply entries_fold_size_nodup|].
  intros q L. by apply entries_fold_lookup.
Qed.

(** X3. When no question number is given twice, the answer key does not
    depend on the order of the cells: two key files whose cells are a
    rearrangement of one another are read to the same key. *)
Theorem key_layout_irrelevant `{Externals} (key_file1 key_file2 : KeyFile)
    (items1 items2 : list (option string)) :
  read_csv key_file1 = Ok items1 -> read_csv key_file2 = Ok items2 ->
  items1 ≡ₚ items2 ->
  NoDup (map fst (key_entries items1)) ->
  parse_answer_key key_file1 = parse_answer_key key_file2.
Proof.
  intros Hr1 Hr2 Hperm Hnd.
  rewrite (parse_answer_key_read _ _ Hr1), (parse_answer_key_read _ _ Hr2).
  assert (Hpe : key_entries items1 ≡ₚ key_entries items2).
  { unfold key_entries. by rewrite Hperm. }
  assert (Hnd2 : NoDup (map fst (key_entries items2))).
  { by rewrite <- Hpe. }
  destruct (key_fold_cases items1 ∅) as [[Hall1 Hok1]|[(item & Hi & Hr) Hraise1]];
    destruct (key_fold_cases items2 ∅) as [[Hall2 Hok2]|[(item' & Hi' & Hr') Hraise2]].
  - rewrite Hok1, Hok2. f_equal.
    apply map_eq. intros q. apply option_eq. intros L.
    rewrite !entries_fold_lookup by assumption. by rewrite Hpe.
  - exfalso. rewrite <- Hperm in Hi'. destruct (Hall1 item' Hi') as [e He].
    congruence.
  - exfalso. rewrite Hperm in Hi. destruct (Hall2 item Hi) as [e He].
    congruence.
  - by rewrite Hraise1, Hraise2.
Qed.

Lemma int_of_digits_zeros n ds :
  int_of_digits (repeat "0"%char n ++ ds) = int_of_digits ds.
Proof.
  unfold int_of_digits. rewrite fold_left_app. f_equal.
  induction n as [|n IH]; [reflexivity|]. simpl. exact IH.
Qed.

Lemma strict_cell_occurs cell q L :
  strict_cell cell q L ->
  exists ds g,
    occurs_at (list_ascii_of_string cell) ds g /\
    length (list_ascii_of_string cell) = (length ds + 2)%nat /\
    forallb Re.is_digit ds = true /\ Re.is_a_d g = true /\
    q = int_of_digits ds /\ L = String (upper g) EmptyString.
Proof.
  intros (ds & sep & g & Hcell & Hne & Hd & Hsep & Hg & -> & ->).
  exists ds, g. split; [|split; [|done]].
  - exists [], sep, [], []. rewrite Hcell. simpl.
    repeat split; try done.
    by destruct Hsep as [->|[->| ->]].
  - rewrite Hcell, length_app. reflexivity.
Qed.

Lemma occurs_at_start_leftmost cell g1 g2 :
  occurs_at cell g1 g2 -> leftmost_occurrence cell g1 g2.
Proof.
  intros Hocc. exists [], cell. split; [reflexivity|]. split; [exact Hocc|].
  intros pre' suf' h1 h2 _ Hlen. simpl in Hlen. lia.
Qed.

(** X4. A cell that is nothing but a number of at most 4300 digits, one
    separator (space, hyphen or period) and one letter a-d in either case
    is always read: it yields that number with the letter in upper case,
    one of A-D. Zeros written in front of the number do not change the
    entry as long as the digits stay within 4300. With more than 4300
    digits, zeros in front included, reading the cell raises
    [ValueError]. *)
Theorem documented_cells_are_read (cell : string) (q : Z) (L : string) :
  strict_cell cell q L ->
  let digits := Z.of_nat (length (list_ascii_of_string cell)) - 2 in
  let padded n :=
    string_of_list_ascii (repeat "0"%char n ++ list_ascii_of_string cell) in
  is_option_letter L /\ 0 <= q /\
  (digits <= 4300 -> cell_entry (Some cell) = Ok (Some (q, L))) /\
  (4300 < digits -> cell_entry (Some cell) = Raise ValueError) /\
  (forall n, Z.of_nat n + digits <= 4300 ->
     cell_entry (Some (padded n)) = Ok (Some (q, L))) /\
  (forall n, 4300 < Z.of_nat n + digits ->
     cell_entry (Some (padded n)) = Raise ValueError).
Proof.
  intros Hstrict digits padded.
  destruct (strict_cell_occurs cell q L Hstrict)
    as (ds & g & Hocc & Hlen & Hd & Hg & -> & ->).
  assert (Hdigits : digits = Z.of_nat (length ds)) by (unfold digits; lia).
  assert (Hpad : forall n,
    leftmost_occurrence (list_ascii_of_string (padded n))
      (repeat "0"%char n ++ ds) g).
  { intros n. unfold padded. rewrite list_ascii_of_string_of_list_ascii.
    apply occurs_at_start_leftmost.
    destruct Hocc as (ws1 & sep & ws2 & rest & Hs & Hne & _ & Hw1 & Hsep & Hw2 & _).
    exists ws1, sep, ws2, rest. rewrite Hs, <- app_assoc.
    split; [reflexivity|]. split.
    { destruct n; simpl; [exact Hne|discriminate]. }
    split; [|done].
    rewrite forallb_app, Hd, andb_true_r.
    clear. induction n as [|n IH]; [reflexivity|exact IH]. }
  assert (Hpadlen : forall n,
    Z.of_nat (length (repeat "0"%char n ++ ds)) = Z.of_nat n + digits).
  { intros n. rewrite length_app, repeat_length. lia. }
  split; [by apply upper_a_d|].
  split; [by apply int_of_digits_nonneg|].
  split; [|split; [|split]].
  - intros Hle. apply cell_entry_iff. exists ds, g.
    split; [by apply occurs_at_start_leftmost|]. split; [lia|done].
  - intros Hgt. apply cell_entry_raise. split; [reflexivity|].
    exists cell, ds, g. split; [reflexivity|].
    split; [by apply occurs_at_start_leftmost|lia].
  - intros n Hle. apply cell_entry_iff. exists (repeat "0"%char n ++ ds), g.
    split; [apply Hpad|]. rewrite Hpadlen, int_of_digits_zeros. done.
  - intros n Hgt. apply cell_entry_raise. split; [reflexivity|].
    exists (padded n), (repeat "0"%char n ++ ds), g.
    split; [reflexivity|]. split; [apply Hpad|]. rewrite Hpadlen. lia.
Qed.

(** ** The region detector, further *)

Section DetectorMore.
Context `{Externals}.
Import PyFloat PyFloatFacts.

Lemma grid_order_perm cnts out : grid_order cnts = Ok out -> out ≡ₚ cnts.
Proof.
  unfold grid_order. fold (sorted_xy cnts).
  destruct (100 <? length (sorted_xy cnts))%nat.
  - destruct (py_max _) as [hi|]; [|done]. cbn [mbind result_bind rbind].
    destruct (py_min _) as [lo|]; [|done]. cbn [mbind result_bind rbind].
    destruct (PyFloat.int_truediv _ _) as [cw|]; [|done].
    cbn [mbind result_bind rbind].
    intros Hs%sorted_r_perm. by rewrite Hs, sorted_xy_perm.
  - intros [= <-]. apply sorted_xy_perm.
Qed.

(** The three ways the ordering of valid boxes can go. *)
Lemma grid_order_cases cnts :
  Forall rect_ok cnts ->
  ((length cnts <= 100)%nat /\ grid_order cnts = Ok (sorted_xy cnts)) \/
  ((100 < length cnts)%nat /\
   exists lo hi, extremes (map rect_x cnts) lo hi /\ lo < hi /\
     grid_order cnts = Ok (sorted_bands lo hi cnts)) \/
  ((100 < length cnts)%nat /\
   (forall c1 c2, c1 ∈ cnts -> c2 ∈ cnts -> rect_x c1 = rect_x c2) /\
   grid_order cnts = Raise ZeroDivisionError).
Proof.
  intros Hok.
  destruct (Nat.le_gt_cases (length cnts) 100) as [Hle|Hgt].
  { left. split; [exact Hle|by apply grid_order_single]. }
  right.
  destruct (py_min_max_spec (map rect_x cnts)) as (lo & hi & _ & _ & Hex).
  { intros Hnil. apply (f_equal length) in Hnil.
    rewrite length_map in Hnil. simpl in Hnil. lia. }
  assert (Hle : lo <= hi).
  { destruct Hex as (Hl & _ & Hall). apply (Hall lo Hl). }
  destruct (Z.eq_dec lo hi) as [<-|Hne].
  - right. split; [exact Hgt|]. split; [|by apply (grid_order_flat cnts lo)].
    intros c1 c2 Hc1 Hc2. destruct Hex as (_ & _ & Hall).
    pose proof (Hall (rect_x c1)
      ltac:(apply list_elem_of_In, in_map, list_elem_of_In, Hc1)).
    pose proof (Hall (rect_x c2)
      ltac:(apply list_elem_of_In, in_map, list_elem_of_In, Hc2)).
    lia.
  - left. split; [exact Hgt|]. exists lo, hi. split; [exact Hex|].
    split; [lia|].
    destruct (grid_order_multi cnts lo hi Hgt Hok Hex) as (_ & _ & _ & Hgo);
      [lia|exact Hgo].
Qed.

Lemma extremes_span cnts lo hi :
  extremes (map rect_x cnts) lo hi -> lo < hi ->
  exists c1 c2, c1 ∈ cnts /\ c2 ∈ cnts /\ rect_x c1 <> rect_x c2.
Proof.
  intros (Hl & Hh & _) Hlt.
  apply list_elem_of_In, in_map_iff in Hl as (cl & Hxl & Hcl).
  apply list_elem_of_In, in_map_iff in Hh as (ch & Hxh & Hch).
  exists cl, ch. split; [by apply list_elem_of_In|].
  split; [by apply list_elem_of_In|]. lia.
Qed.

Lemma accepted_ok cnts :
  Forall rect_ok cnts -> Forall rect_ok (filter is_candidate cnts).
Proof.
  rewrite !Forall_forall. intros Hok c Hc.
  apply list_elem_of_filter in Hc as [_ Hc]. by apply Hok.
Qed.

End DetectorMore.

(** X6. On a readable image whose regions have valid bounding boxes,
    what [find_and_sort_bubbles] returns is the mask of the image and a
    rearrangement of the accepted regions: every accepted region once,
    and nothing else. It fails only by [ZeroDivisionError], and exactly
    when more than 100 regions are accepted and all of them have the same
    x-coordinate. *)
Theorem detector_returns_accepted `{Externals} (image : Image)
    (cnts : list Contour) (thresh : Thresh) :
  find_contours image = Ok (cnts, thresh) ->
  Forall rect_ok cnts ->
  let accepted := filter is_candidate cnts in
  let in_line :=
    forall c1 c2, c1 ∈ accepted -> c2 ∈ accepted -> rect_x c1 = rect_x c2 in
  (forall bubbles th,
     find_and_sort_bubbles image = Ok (bubbles, th) ->
     th = thresh /\ bubbles ≡ₚ accepted /\
     forall c, c ∈ bubbles <-> c ∈ cnts /\ is_candidate c) /\
  (forall e, find_and_sort_bubbles image = Raise e ->
     e = ZeroDivisionError /\ (100 < length accepted)%nat /\ in_line) /\
  ((exists bubbles, find_and_sort_bubbles image = Ok (bubbles, thresh)) <->
   ((length accepted <= 100)%nat \/ ~ in_line)).
Proof.
  intros Hc Hok accepted in_line.
  destruct (region_filter_total cnts Hok) as [Hf _]. fold accepted in Hf.
  assert (Hfs : find_and_sort_bubbles image =
                (question_cnts ← grid_order accepted; Ok (question_cnts, thresh))).
  { unfold find_and_sort_bubbles. rewrite Hc. cbn [mbind result_bind rbind].
    by rewrite Hf. }
  rewrite Hfs.
  pose proof (grid_order_cases accepted (accepted_ok cnts Hok)) as Hcases.
  split; [|split].
  - intros bubbles th.
    destruct (grid_order accepted) as [out|] eqn:Hg; [|done].
    intros [= <- <-]. pose proof (grid_order_perm accepted out Hg) as Hp.
    split; [reflexivity|]. split; [exact Hp|].
    intros c. rewrite Hp. unfold accepted. rewrite list_elem_of_filter. tauto.
  - intros e He.
    destruct Hcases as [[_ Hg]|[(_ & lo & hi & _ & _ & Hg)|(Hlen & Hflat & Hg)]];
      rewrite Hg in He; try discriminate.
    injection He as <-. done.
  - split.
    + intros [bubbles Hb].
      destruct Hcases as [[Hlen _]|[(_ & lo & hi & Hex & Hlt & _)|(_ & _ & Hg)]].
      * by left.
      * right. intros Hflat.
        destruct (extremes_span accepted lo hi Hex Hlt) as (c1 & c2 & H1 & H2 & Hne).
        apply Hne. by apply Hflat.
      * rewrite Hg in Hb. discriminate.
    + intros Hcond.
      destruct Hcases as [[_ Hg]|[(_ & lo & hi & _ & _ & Hg)|(Hlen & Hflat & _)]].
      * rewrite Hg. eauto.
      * rewrite Hg. eauto.
      * destruct Hcond as [Hle|Hnf]; [lia|]. by destruct Hnf.
Qed.

(** ** The grid orderer, further *)

Section SortedMore.
Context {A K : Type} (lt : K -> K -> bool) (key : A -> K).

Hypothesis lt_asym : forall a b, lt a b = true -> lt b a = false.
Hypothesis ge_trans :
  forall a b c, lt b a = false -> lt c b = false -> lt c a = false.

(** A stable sort keeps, among elements of equal key, an order the list
    already had. *)
Lemma insert_by_refines (R : A -> A -> Prop) x l :
  StronglySorted (fun a b => key_le lt key a b /\ (key a = key b -> R a b)) l ->
  Forall (R x) l ->
  StronglySorted (fun a b => key_le lt key a b /\ (key a = key b -> R a b))
    (insert_by lt key x l).
Proof.
  induction 1 as [|y l Hs IH Hy]; intros HR; simpl.
  - repeat constructor.
  - apply Forall_cons in HR as [HRy HRl].
    destruct (lt (key y) (key x)) eqn:Hlt.
    + constructor; [by apply IH|].
      rewrite Forall_forall. intros z Hz.
      rewrite insert_by_perm in Hz. apply elem_of_cons in Hz as [->|Hz].
      * split; [by apply lt_asym|]. intros Heq. rewrite Heq in Hlt.
        pose proof (lt_asym _ _ Hlt). congruence.
      * rewrite Forall_forall in Hy. by apply Hy.
    + constructor; [by constructor|].
      constructor; [split; [exact Hlt|by intros _]|].
      rewrite Forall_forall in Hy, HRl |- *. intros z Hz.
      split; [|intros _; by apply HRl].
      unfold key_le. eapply ge_trans; [exact Hlt|]. by apply Hy.
Qed.

Lemma sorted_refines (R : A -> A -> Prop) l :
  StronglySorted R l ->
  StronglySorted (fun a b => key_le lt key a b /\ (key a = key b -> R a b))
    (sorted lt key l).
Proof.
  induction 1 as [|x l Hs IH Hx]; simpl; [constructor|].
  apply insert_by_refines; [exact IH|]. by rewrite sorted_perm.
Qed.

(** Sorting an already sorted list changes nothing. *)
Lemma sorted_fixpoint l :
  StronglySorted (key_le lt key) l -> sorted lt key l = l.
Proof.
  induction 1 as [|x l Hs IH Hx]; simpl; [reflexivity|].
  rewrite IH. destruct l as [|y l]; [reflexivity|]. simpl.
  apply Forall_cons in Hx as [Hxy _]. unfold key_le in Hxy. by rewrite Hxy.
Qed.

(** Two lists sorted by key, in which the elements of every key stand in
    the same order, are the same list. *)
Lemma stable_sorted_unique `{EqDecision K} l1 l2 :
  (forall a b, lt (key a) (key b) = false -> lt (key b) (key a) = false ->
     key a = key b) ->
  StronglySorted (key_le lt key) l1 -> StronglySorted (key_le lt key) l2 ->
  (forall k, filter (fun y => key y = k) l1 = filter (fun y => key y = k) l2) ->
  l1 = l2.
Proof.
  intros Hanti Hs1. revert l2.
  induction Hs1 as [|a l1 Hs1 IH Ha]; intros l2 Hs2 Hf.
  - destruct l2 as [|b l2]; [reflexivity|].
    specialize (Hf (key b)). rewrite filter_cons_True in Hf by done.
    discriminate.
  - destruct Hs2 as [|b l2 Hs2 Hb].
    { specialize (Hf (key a)). rewrite filter_cons_True in Hf by done.
      discriminate. }
    assert (Hab : key a = key b).
    { pose proof (Hf (key a)) as Hfa. pose proof (Hf (key b)) as Hfb.
      rewrite (filter_cons_True _ a) in Hfa by done.
      rewrite (filter_cons_True _ b l2) in Hfb by done.
      assert (Ha2 : a ∈ b :: l2).
      { eapply (list_elem_of_filter (fun y => key y = key a)).
        rewrite <- Hfa. apply list_elem_of_here. }
      assert (Hb1 : b ∈ a :: l1).
      { eapply (list_elem_of_filter (fun y => key y = key b)).
        rewrite Hfb. apply list_elem_of_here. }
      apply elem_of_cons in Ha2 as [->|Ha2]; [reflexivity|].
      apply elem_of_cons in Hb1 as [->|Hb1]; [reflexivity|].
      rewrite Forall_forall in Ha, Hb.
      apply Hanti; [apply (Hb a Ha2)|apply (Ha b Hb1)]. }
    assert (a = b) as <-.
    { specialize (Hf (key a)).
      rewrite (filter_cons_True _ a) in Hf by done.
      rewrite (filter_cons_True _ b) in Hf by done. congruence. }
    f_equal. apply IH; [exact Hs2|]. intros k. specialize (Hf k).
    rewrite !filter_cons in Hf. destruct (decide (key a = k)); congruence.
Qed.

End SortedMore.

(** A sorted list whose order is antisymmetric on its elements is the only
    sorted arrangement of those elements. *)
Lemma sorted_unique_on {A : Type} (R : A -> A -> Prop) (l1 l2 : list A) :
  (forall a b, a ∈ l1 -> b ∈ l1 -> R a b -> R b a -> a = b) ->
  StronglySorted R l1 -> StronglySorted R l2 -> l1 ≡ₚ l2 -> l1 = l2.
Proof.
  intros Hanti Hs1. revert l2.
  induction Hs1 as [|a l1 Hs1 IH Ha]; intros l2 Hs2 Hp.
  - by apply Permutation_nil in Hp.
  - destruct Hs2 as [|b l2 Hs2 Hb].
    { symmetry in Hp. by apply Permutation_nil in Hp. }
    assert (a = b) as <-.
    { assert (Ha2 : a ∈ b :: l2) by (rewrite <- Hp; apply list_elem_of_here).
      assert (Hb1 : b ∈ a :: l1) by (rewrite Hp; apply list_elem_of_here).
      apply elem_of_cons in Ha2 as [->|Ha2]; [reflexivity|].
      pose proof Hb1 as Hb1'.
      apply elem_of_cons in Hb1 as [->|Hb1]; [reflexivity|].
      rewrite Forall_forall in Ha, Hb.
      apply Hanti; [apply list_elem_of_here|exact Hb1'|by apply Ha|by apply Hb]. }
    f_equal. apply IH.
    + intros x y Hx Hy. apply Hanti; by apply list_elem_of_further.
    + exact Hs2.
    + by apply Permutation_cons_inv in Hp.
Qed.

Lemma tuple_lt_antisym (a b : Z * Z) :
  tuple_lt a b = false -> tuple_lt b a = false -> a = b.
Proof. unfold tuple_lt. destruct a, b; simpl. intros. f_equal; lia. Qed.

Lemma rmap_ok_inv {A B : Type} (f : A -> result B) l ys :
  rmap f l = Ok ys -> forall x, x ∈ l -> exists y, f x = Ok y.
Proof.
  revert ys. induction l as [|a l IH]; intros ys Hr x Hx.
  - by apply elem_of_nil in Hx.
  - simpl in Hr. destruct (f a) as [y|] eqn:Hfa; [|done].
    cbn [mbind result_bind rbind] in Hr.
    destruct (rmap f l) as [ys'|]; [|done].
    apply elem_of_cons in Hx as [->|Hx]; [eauto|]. by eapply IH.
Qed.

Section GridMore.
Context `{Externals}.

Lemma sorted_xy_key_sorted cnts :
  StronglySorted (key_le tuple_lt (fun c => (rect_x c, rect_y c)))
    (sorted_xy cnts).
Proof. apply (sorted_sorted tuple_lt _ tuple_lt_asym tuple_lt_ge_trans). Qed.

Lemma sorted_bands_refined lo hi cnts :
  StronglySorted (band_y_x_le lo hi) (sorted_bands lo hi cnts).
Proof.
  unfold sorted_bands.
  eapply StronglySorted_weaken;
    [|apply (sorted_refines tuple_lt _ tuple_lt_asym tuple_lt_ge_trans xy_le),
        sorted_xy_sorted].
  intros a b [Hle Heq]. unfold key_le in Hle. rewrite tuple_lt_false in Hle.
  cbn [fst snd] in Hle. unfold band_y_x_le.
  destruct Hle as [Hlt|[Hb Hy]]; [by left|]. right. split; [exact Hb|].
  destruct (Z.eq_dec (rect_y a) (rect_y b)) as [Hyy|Hyy]; [|left; lia].
  right. split; [exact Hyy|].
  destruct Heq as [Hx|[Hx _]]; [by rewrite Hb, Hyy|lia|lia].
Qed.

(** The order of the candidates before the sort does not matter when no
    two of them share a corner. *)
Lemma sorted_xy_order_free cnts1 cnts2 :
  cnts1 ≡ₚ cnts2 ->
  (forall a b, a ∈ cnts1 -> b ∈ cnts1 ->
     rect_x a = rect_x b -> rect_y a = rect_y b -> a = b) ->
  sorted_xy cnts1 = sorted_xy cnts2.
Proof.
  intros Hp Hinj.
  apply (sorted_unique_on (key_le tuple_lt (fun c => (rect_x c, rect_y c)))).
  - intros a b Ha Hb Hab Hba. rewrite sorted_xy_perm in Ha, Hb.
    pose proof (tuple_lt_antisym _ _ Hba Hab) as [= Hx Hy].
    by apply Hinj.
  - apply sorted_xy_key_sorted.
  - apply sorted_xy_key_sorted.
  - by rewrite !sorted_xy_perm.
Qed.

Lemma grid_order_of_sorted cnts1 cnts2 :
  sorted_xy cnts1 = sorted_xy cnts2 -> grid_order cnts1 = grid_order cnts2.
Proof.
  intros Hs. unfold grid_order.
  change (sorted tuple_lt (fun c => (rect_x c, rect_y c)) cnts1)
    with (sorted_xy cnts1).
  change (sorted tuple_lt (fun c => (rect_x c, rect_y c)) cnts2)
    with (sorted_xy cnts2).
  by rewrite Hs.
Qed.

(** Ordering an ordered list sorts it back to where the first ordering
    started from. *)
Lemma grid_order_sorted_xy cnts out :
  grid_order cnts = Ok out -> sorted_xy out = sorted_xy cnts.
Proof.
  intros Hg.
  assert (Hout : exists g : Z -> Z,
    out = sorted_xy cnts \/
    out = sorted tuple_lt (fun c => (g (rect_x c), rect_y c)) (sorted_xy cnts)).
  { unfold grid_order in Hg. fold (sorted_xy cnts) in Hg.
    destruct (100 <? length (sorted_xy cnts))%nat.
    - destruct (py_max _) as [hi|]; [|done].
      cbn [mbind result_bind rbind] in Hg.
      destruct (py_min _) as [lo|]; [|done].
      cbn [mbind result_bind rbind] in Hg.
      destruct (PyFloat.int_truediv _ _) as [cw|]; [|done].
      cbn [mbind result_bind rbind] in Hg.
      set (xs := map rect_x (sorted_xy cnts)) in Hg.
      exists (fun x => match get_col xs cw x with Ok v => v | Raise _ => 0 end).
      right.
      pose proof Hg as Hg'. unfold sorted_r in Hg'.
      destruct (rmap _ (sorted_xy cnts)) as [ks|] eqn:Hks; [|done].
      rewrite (sorted_r_ok tuple_lt _
        (fun c => (match get_col xs cw (rect_x c) with
                   | Ok v => v | Raise _ => 0 end, rect_y c))) in Hg.
      + by injection Hg as <-.
      + intros c Hc. destruct (rmap_ok_inv _ _ _ Hks c Hc) as [y Hy].
        destruct (get_col xs cw (rect_x c)); [reflexivity|done].
    - exists (fun x => x). left. by injection Hg as <-. }
  destruct Hout as [g [-> | ->]].
  - apply sorted_fixpoint. apply sorted_xy_key_sorted.
  - apply (stable_sorted_unique tuple_lt (fun c => (rect_x c, rect_y c))).
    + intros a b Hab Hba. by apply tuple_lt_antisym.
    + apply sorted_xy_key_sorted.
    + apply sorted_xy_key_sorted.
    + intros k. unfold sorted_xy at 1.
      rewrite (sorted_stable tuple_lt _ tuple_lt_asym).
      set (s := sorted_xy cnts).
      set (k' := fun c : Contour => (g (rect_x c), rect_y c)).
      assert (Hff : forall l : list Contour,
        filter (fun y => (rect_x y, rect_y y) = k) l =
        filter (fun y => (rect_x y, rect_y y) = k)
          (filter (fun y => k' y = (g k.1, k.2)) l)).
      { intros l. induction l as [|c l IHl]; [reflexivity|].
        rewrite !filter_cons.
        destruct (decide ((rect_x c, rect_y c) = k)) as [Hk|Hk].
        - rewrite decide_True by (unfold k'; by rewrite <- Hk).
          rewrite filter_cons_True by exact Hk. by rewrite IHl.
        - destruct (decide (k' c = (g k.1, k.2))); [|exact IHl].
          rewrite filter_cons_False by exact Hk. exact IHl. }
      rewrite Hff, (Hff s).
      by rewrite (sorted_stable tuple_lt k' tuple_lt_asym).
Qed.

End GridMore.

(** X7. In multi-column mode the second sort is by band and vertical
    position only, but it is stable and runs on the list already sorted
    by horizontal position: the candidates come out ordered by band, then
    by [y], then by [x]. Candidates of one band at the same height stand
    left to right. *)
Theorem multi_column_reading_order `{Externals} (question_cnts : list Contour)
    (lo hi : Z) :
  (100 < length question_cnts)%nat -> Forall rect_ok question_cnts ->
  extremes (map rect_x question_cnts) lo hi -> lo < hi ->
  exists out,
    grid_order question_cnts = Ok out /\
    StronglySorted (band_y_x_le lo hi) out.
Proof.
  intros Hlen Hok Hex Hlt.
  destruct (grid_order_multi question_cnts lo hi Hlen Hok Hex Hlt)
    as (_ & _ & _ & Hgo).
  exists (sorted_bands lo hi question_cnts).
  split; [exact Hgo|apply sorted_bands_refined].
Qed.

(** X8. The order in which the regions of an image are found does not
    matter as long as no two accepted regions share their top-left
    corner: two images with the same mask whose regions are a
    rearrangement of one another give the same ordered candidates, or
    fail alike. *)
Theorem detection_order_irrelevant `{Externals} (image1 image2 : Image)
    (cnts1 cnts2 : list Contour) (thresh : Thresh) :
  find_contours image1 = Ok (cnts1, thresh) ->
  find_contours image2 = Ok (cnts2, thresh) ->
  cnts1 ≡ₚ cnts2 ->
  Forall rect_ok cnts1 ->
  (forall a b, a ∈ cnts1 -> b ∈ cnts1 -> is_candidate a -> is_candidate b ->
     rect_x a = rect_x b -> rect_y a = rect_y b -> a = b) ->
  find_and_sort_bubbles image1 = find_and_sort_bubbles image2.
Proof.
  intros Hc1 Hc2 Hp Hok Hinj.
  assert (Hok2 : Forall rect_ok cnts2) by by rewrite <- Hp.
  destruct (region_filter_total cnts1 Hok) as [Hf1 _].
  destruct (region_filter_total cnts2 Hok2) as [Hf2 _].
  unfold find_and_sort_bubbles. rewrite Hc1, Hc2.
  cbn [mbind result_bind rbind]. rewrite Hf1, Hf2.
  cbn [mbind result_bind rbind].
  rewrite (grid_order_of_sorted (filter is_candidate cnts1)
             (filter is_candidate cnts2)); [reflexivity|].
  apply sorted_xy_order_free.
  - by rewrite Hp.
  - intros a b Ha Hb. apply list_elem_of_filter in Ha as [Hca Ha].
    apply list_elem_of_filter in Hb as [Hcb Hb]. by apply Hinj.
Qed.

(** X9. Ordering is idempotent: the grid orderer, run on a list it has
    returned, returns that list again, in single-column and in
    multi-column mode. *)
Theorem grid_order_idempotent `{Externals} (question_cnts out : list Contour) :
  grid_order question_cnts = Ok out -> grid_order out = Ok out.
Proof.
  intros Hg. rewrite <- Hg. apply grid_order_of_sorted.
  by apply grid_order_sorted_xy.
Qed.

(** ** The mark selector, further *)

(** X10. The mark selector decides a question from its own four
    candidates only, and not from the order they come in: when the four
    candidates of group [i] have distinct x-coordinates, any list with
    the same four candidates at the positions [4i .. 4i+3], in any order,
    gives question [i + 1] the same entry, whatever stands before and
    after the group. *)
Theorem group_decides_alone `{Externals} (bubbles1 bubbles2 : list Contour)
    (thresh : Thresh) (i : nat) :
  (i < length bubbles1 / 4)%nat -> (i < length bubbles2 / 4)%nat ->
  take 4 (drop (i * 4) bubbles1) ≡ₚ take 4 (drop (i * 4) bubbles2) ->
  (forall a b, a ∈ take 4 (drop (i * 4) bubbles1) ->
     b ∈ take 4 (drop (i * 4) bubbles1) -> rect_x a = rect_x b -> a = b) ->
  extract_student_answers bubbles1 thresh !! (Z.of_nat i + 1) =
  extract_student_answers bubbles2 thresh !! (Z.of_nat i + 1).
Proof.
  intros Hi1 Hi2 Hp Hinj. rewrite !extract_lookup.
  rewrite !decide_True by lia.
  replace (Z.to_nat (Z.of_nat i + 1 - 1)) with i by lia.
  unfold decision, row_of_question.
  replace (sorted Z.ltb rect_x (take 4 (drop (i * 4) bubbles2)))
    with (sorted Z.ltb rect_x (take 4 (drop (i * 4) bubbles1))); [reflexivity|].
  apply (sorted_unique_on (key_le Z.ltb rect_x)).
  - intros a b Ha Hb Hab Hba. rewrite sorted_perm in Ha, Hb.
    apply Hinj; [exact Ha|exact Hb|]. unfold key_le in Hab, Hba. lia.
  - apply (sorted_sorted Z.ltb rect_x Zltb_asym Zltb_ge_trans).
  - apply (sorted_sorted Z.ltb rect_x Zltb_asym Zltb_ge_trans).
  - by rewrite !sorted_perm.
Qed.

(** ** The scorer, further *)

Lemma range_split a b c : a <= b <= c -> range a c = range a b ++ range b c.
Proof.
  intros Hb. unfold range.
  replace (Z.to_nat (c - a)) with (Z.to_nat (b - a) + Z.to_nat (c - b))%nat by lia.
  rewrite seq_app, map_app. f_equal.
  rewrite Nat.add_0_l.
  replace (seq (Z.to_nat (b - a)) (Z.to_nat (c - b)))
    with (map (fun i => (Z.to_nat (b - a) + i)%nat) (seq 0 (Z.to_nat (c - b)))).
  - rewrite map_map. apply map_ext. intros i. lia.
  - symmetry. rewrite <- (Nat.add_0_r (Z.to_nat (b - a))) at 1.
    rewrite <- fmap_add_seq. reflexivity.
Qed.

Lemma count_status_bounds st (rows : list Row) :
  0 <= count_status st rows <= Z.of_nat (length rows).
Proof.
  unfold count_status. pose proof (length_filter (fun r => row_status r = st) rows).
  lia.
Qed.

Lemma count_status_all st (rows : list Row) :
  count_status st rows = Z.of_nat (length rows) <->
  forall r, r ∈ rows -> row_status r = st.
Proof.
  unfold count_status. induction rows as [|r rows IH].
  - simpl. split; [|done]. intros _ r Hr. by apply elem_of_nil in Hr.
  - rewrite filter_cons.
    pose proof (length_filter (fun r => row_status r = st) rows) as Hle.
    destruct (decide (row_status r = st)) as [Hr|Hr]; simpl.
    + split.
      * intros Hc r' Hr'. apply elem_of_cons in Hr' as [->|Hr']; [exact Hr|].
        apply IH; [lia|exact Hr'].
      * intros Hall. f_equal. f_equal. apply Nat2Z.inj, IH.
        intros r' Hr'. apply Hall. by apply list_elem_of_further.
    + split; [lia|]. intros Hall. exfalso. apply Hr, Hall, list_elem_of_here.
Qed.

Lemma row_of_status_cases (answer_key student_answers : gmap Z string) q :
  let r := row_of answer_key student_answers q in
  row_status r = "Correct" \/ row_status r = "Incorrect" \/
  row_status r = "Unanswered".
Proof.
  unfold row_of, score_step. simpl.
  destruct (negb _); [destruct (String.eqb _ _)|]; simpl; tauto.
Qed.

Lemma row_of_unanswered (answer_key student_answers : gmap Z string) q :
  student_answers !! q = None ->
  row_student (row_of answer_key student_answers q) = "Unanswered" /\
  row_status (row_of answer_key student_answers q) = "Unanswered".
Proof. intros Hq. unfold row_of, score_step. rewrite Hq. simpl. done. Qed.

Lemma row_of_ext (k1 k2 s1 s2 : gmap Z string) q :
  k1 !! q = k2 !! q -> s1 !! q = s2 !! q -> row_of k1 s1 q = row_of k2 s2 q.
Proof. intros Hk Hs. unfold row_of, score_step. by rewrite Hk, Hs. Qed.

Lemma count_status_partition (rows : list Row) :
  (forall r, r ∈ rows ->
     row_status r = "Correct" \/ row_status r = "Incorrect" \/
     row_status r = "Unanswered") ->
  count_status "Correct" rows + count_status "Incorrect" rows +
  count_status "Unanswered" rows = Z.of_nat (length rows).
Proof.
  unfold count_status. induction rows as [|r rows IH]; intros Hall.
  - reflexivity.
  - rewrite !filter_cons.
    specialize (IH (fun r' Hr' => Hall r' (list_elem_of_further _ _ _ Hr'))).
    destruct (Hall r (list_elem_of_here _ _)) as [Hr|[Hr|Hr]]; rewrite Hr;
      repeat (case_decide; try done); simpl; lia.
Qed.

(** X11. A sheet with [n] candidates has [floor(n / 4)] questions: the
    score computed from what the mark selector reads is at most
    [floor(n / 4)], and at most 100, and every row of a question beyond
    [floor(n / 4)] is reported as unanswered. A sheet with 100
    candidates cannot score more than 25. *)
Theorem score_bounded_by_groups `{Externals} (answer_key : gmap Z string)
    (bubbles : list Contour) (thresh : Thresh) :
  let groups := Z.of_nat (length bubbles / 4) in
  let report :=
    score_rows answer_key (extract_student_answers bubbles thresh) in
  0 <= report.1 <= Z.min 100 groups /\
  forall r, r ∈ report.2 -> groups < row_q r ->
    row_student r = "Unanswered" /\ row_status r = "Unanswered".
Proof.
  intros groups report. subst report. rewrite score_rows_eq. cbn [fst snd].
  set (answers := extract_student_answers bubbles thresh).
  assert (Hblank : forall q, groups < q -> answers !! q = None).
  { intros q Hq. unfold answers. rewrite extract_lookup.
    case_decide; [lia|reflexivity]. }
  split.
  - set (m := Z.min 100 groups).
    rewrite (range_split 1 (1 + m) 101) by lia.
    rewrite map_app, count_status_app.
    pose proof (count_status_bounds "Correct"
                  (map (row_of answer_key answers) (range 1 (1 + m)))) as Hb.
    rewrite length_map, range_length in Hb.
    rewrite (count_status_none "Correct"
               (map (row_of answer_key answers) (range (1 + m) 101))).
    + lia.
    + intros r Hr. apply list_elem_of_In, in_map_iff in Hr as (q & <- & Hq).
      apply list_elem_of_In, elem_of_range in Hq.
      destruct (row_of_unanswered answer_key answers q) as [_ Hst].
      { apply Hblank. lia. }
      rewrite Hst. discriminate.
  - intros r Hr Hq. apply list_elem_of_In, in_map_iff in Hr as (q & <- & _).
    rewrite row_of_q in Hq. apply row_of_unanswered, Hblank, Hq.
Qed.

(** X12. Every row of a score report has one of the three statuses, so
    the score, the number of incorrect rows and the number of unanswered
    rows add up to 100, and the score lies between 0 and 100. This holds
    for every key and every response. *)
Theorem status_counts_add_up (answer_key student_answers : gmap Z string) :
  let report := score_rows answer_key student_answers in
  report.1 + count_status "Incorrect" report.2 +
    count_status "Unanswered" report.2 = 100 /\
  0 <= report.1 <= 100 /\
  forall r, r ∈ report.2 ->
    row_status r = "Correct" \/ row_status r = "Incorrect" \/
    row_status r = "Unanswered".
Proof.
  intros report. subst report. rewrite score_rows_eq. cbn [fst snd].
  assert (Hall : forall r,
    r ∈ map (row_of answer_key student_answers) (range 1 101) ->
    row_status r = "Correct" \/ row_status r = "Incorrect" \/
    row_status r = "Unanswered").
  { intros r Hr. apply list_elem_of_In, in_map_iff in Hr as (q & <- & _).
    apply row_of_status_cases. }
  split; [|split; [|exact Hall]].
  - rewrite (count_status_partition _ Hall), length_map, range_length.
    reflexivity.
  - pose proof (count_status_bounds "Correct"
                  (map (row_of answer_key student_answers) (range 1 101))) as Hb.
    rewrite length_map, range_length in Hb. lia.
Qed.

(** X13. Only the questions 1 to 100 count: entries of the answer key
    and of the student response for any other question number (0,
    101, ...) change neither the score nor any row. *)
Theorem only_questions_1_to_100_count (key1 key2 answers1 answers2 : gmap Z string) :
  (forall q, 1 <= q <= 100 -> key1 !! q = key2 !! q) ->
  (forall q, 1 <= q <= 100 -> answers1 !! q = answers2 !! q) ->
  score_rows key1 answers1 = score_rows key2 answers2.
Proof.
  intros Hk Hs. rewrite !score_rows_eq.
  assert (Hrows : map (row_of key1 answers1) (range 1 101) =
                  map (row_of key2 answers2) (range 1 101)).
  { apply map_ext_in. intros q Hq.
    apply list_elem_of_In, elem_of_range in Hq.
    apply row_of_ext; [apply Hk|apply Hs]; lia. }
  by rewrite Hrows.
Qed.

(** X14. The score is 100 exactly when the student marked every
    question 1..100 with the letter of the key, which requires the key to
    cover all of them; the score is 0 exactly when no marked letter is
    the key's. *)
Theorem full_marks_iff (answer_key student_answers : gmap Z string) :
  (forall q s, student_answers !! q = Some s -> is_option_letter s) ->
  ((score_rows answer_key student_answers).1 = 100 <->
   forall q, 1 <= q <= 100 ->
     exists s, student_answers !! q = Some s /\ answer_key !! q = Some s) /\
  ((score_rows answer_key student_answers).1 = 0 <->
   forall q s, 1 <= q <= 100 -> student_answers !! q = Some s ->
     answer_key !! q <> Some s).
Proof.
  intros Hwf. rewrite score_rows_eq. cbn [fst].
  set (rows := map (row_of answer_key student_answers) (range 1 101)).
  assert (Hlen : Z.of_nat (length rows) = 100).
  { unfold rows. by rewrite length_map, range_length. }
  split.
  - rewrite <- Hlen, count_status_all. split.
    + intros Hall q Hq.
      apply (row_of_status answer_key student_answers q (Hwf q)).
      apply Hall. unfold rows.
      apply list_elem_of_In, in_map, list_elem_of_In, elem_of_range. lia.
    + intros Hall r Hr.
      apply list_elem_of_In, in_map_iff in Hr as (q & <- & Hq).
      apply list_elem_of_In, elem_of_range in Hq.
      apply (row_of_status answer_key student_answers q (Hwf q)).
      apply Hall. lia.
  - split.
    + intros Hzero q s Hq Hs Hk.
      assert (Hin : row_of answer_key student_answers q ∈ rows).
      { apply list_elem_of_In, in_map, list_elem_of_In, elem_of_range. lia. }
      assert (Hc : row_status (row_of answer_key student_answers q) = "Correct").
      { apply (row_of_status answer_key student_answers q (Hwf q)). eauto. }
      unfold count_status in Hzero.
      assert (Hin' : row_of answer_key student_answers q ∈
                filter (fun r => row_status r = "Correct") rows).
      { apply list_elem_of_filter. done. }
      destruct (filter _ rows); [by apply elem_of_nil in Hin'|discriminate].
    + intros Hnone. apply count_status_none. intros r Hr Hc.
      apply list_elem_of_In, in_map_iff in Hr as (q & <- & Hq).
      apply list_elem_of_In, elem_of_range in Hq.
      apply (row_of_status answer_key student_answers q (Hwf q)) in Hc
        as (s & Hs & Hk).
      apply (Hnone q s); [lia|done..].
Qed.

(** X15. [style_rows] gives the four cells of a row one and the same
    style. In a score report a row is green exactly when the student's
    letter is the key's, red exactly when the student marked a letter
    that is not the key's (or the key has none), and unstyled exactly
    when the question is unanswered; the number of green rows is the
    score. *)
Theorem row_colours_follow_marking (answer_key student_answers : gmap Z string) :
  (forall q s, student_answers !! q = Some s -> is_option_letter s) ->
  let report := score_rows answer_key student_answers in
  (forall r, r ∈ report.2 ->
     length (style_rows r) = 4%nat /\
     (style_rows r = replicate 4 "background-color: #d4edda" <->
        exists s, student_answers !! row_q r = Some s /\
                  answer_key !! row_q r = Some s) /\
     (style_rows r = replicate 4 "background-color: #f8d7da" <->
        exists s, student_answers !! row_q r = Some s /\
                  answer_key !! row_q r <> Some s) /\
     (style_rows r = replicate 4 "" <-> student_answers !! row_q r = None)) /\
  report.1 =
    Z.of_nat (length (filter
      (fun r => style_rows r = replicate 4 "background-color: #d4edda")
      report.2)).
Proof.
  intros Hwf report. subst report. rewrite score_rows_eq. cbn [fst snd].
  assert (Hstyle : forall r : Row,
    (style_rows r = replicate 4 "background-color: #d4edda" <->
       row_status r = "Correct") /\
    (style_rows r = replicate 4 "background-color: #f8d7da" <->
       row_status r = "Incorrect") /\
    (row_status r = "Correct" \/ row_status r = "Incorrect" \/
     row_status r = "Unanswered" ->
     style_rows r = replicate 4 "" <-> row_status r = "Unanswered") /\
    length (style_rows r) = 4%nat).
  { intros r. unfold style_rows.
    destruct (String.eqb_spec (row_status r) "Correct") as [Hc|Hc].
    - rewrite Hc. split; [done|]. split; [split; discriminate|].
      split; [|reflexivity]. intros _. split; discriminate.
    - destruct (String.eqb_spec (row_status r) "Incorrect") as [Hi|Hi].
      + rewrite Hi. split; [split; discriminate|]. split; [done|].
        split; [|reflexivity]. intros _. split; discriminate.
      + split; [split; [discriminate|done]|].
        split; [split; [discriminate|done]|].
        split; [|reflexivity]. intros [?|[?|?]]; done. }
  split.
  - intros r Hr. apply list_elem_of_In, in_map_iff in Hr as (q & <- & _).
    rewrite row_of_q.
    destruct (row_of_status answer_key student_answers q (Hwf q))
      as (Hu & Hok & Hbad).
    destruct (Hstyle (row_of answer_key student_answers q))
      as (Hg & Hrd & Hno & Hlen).
    split; [exact Hlen|]. rewrite Hg, Hrd, Hno; [tauto|].
    unfold row_of, score_step. simpl.
    destruct (negb _); [destruct (String.eqb _ _)|]; simpl; tauto.
  - unfold count_status. f_equal. f_equal.
    induction (map (row_of answer_key student_answers) (range 1 101))
      as [|r rows IH]; [reflexivity|].
    rewrite !filter_cons, IH. destruct (Hstyle r) as (Hg & _).
    repeat case_decide; tauto || reflexivity.
Qed.

(** ** The batch, further *)

Section BatchMore.
Context `{Externals}.

Lemma sheet_outcome_name answer_key image_obj :
  outcome_name (sheet_outcome answer_key image_obj) = sheet_name image_obj.
Proof.
  unfold sheet_outcome, score_sheet.
  destruct (find_and_sort_bubbles _) as [[bubbles thresh]|]; [|reflexivity].
  cbn [mbind result_bind rbind].
  destruct (length bubbles <? 100)%nat; [reflexivity|].
  destruct (score_rows _ _). reflexivity.
Qed.

(** What a readable sheet with valid boxes contributes, by the number of
    accepted candidates and their spread. *)
Lemma sheet_outcome_computed answer_key image_obj cnts thresh :
  find_contours (sheet_image image_obj) = Ok (cnts, thresh) ->
  Forall rect_ok cnts ->
  let accepted := filter is_candidate cnts in
  let scored bubbles :=
    Scored (sheet_name image_obj)
      (score_rows answer_key (extract_student_answers bubbles thresh)).1
      (score_rows answer_key (extract_student_answers bubbles thresh)).2 in
  ((length accepted < 100)%nat /\
   sheet_outcome answer_key image_obj =
     Warning (sheet_name image_obj) (length accepted)) \/
  (length accepted = 100%nat /\
   sheet_outcome answer_key image_obj = scored (sorted_xy accepted)) \/
  ((100 < length accepted)%nat /\
   exists lo hi, extremes (map rect_x accepted) lo hi /\ lo < hi /\
     sheet_outcome answer_key image_obj = scored (sorted_bands lo hi accepted)) \/
  ((100 < length accepted)%nat /\
   (forall c1 c2, c1 ∈ accepted -> c2 ∈ accepted -> rect_x c1 = rect_x c2) /\
   sheet_outcome answer_key image_obj =
     Failed (sheet_name image_obj) ZeroDivisionError).
Proof.
  intros Hc Hok accepted scored.
  destruct (region_filter_total cnts Hok) as [Hf _]. fold accepted in Hf.
  destruct (grid_order_cases accepted (accepted_ok cnts Hok))
    as [[Hlen Hg]|[(Hlen & lo & hi & Hex & Hlt & Hg)|(Hlen & Hflat & Hg)]].
  - pose proof (score_sheet_ordered answer_key image_obj cnts thresh
                  accepted _ Hc Hf Hg) as Hs.
    rewrite sorted_xy_length in Hs.
    destruct (Nat.ltb_spec (length accepted) 100) as [Hlt|Hge].
    + left. split; [exact Hlt|]. unfold sheet_outcome. by rewrite Hs.
    + right. left. split; [lia|]. unfold sheet_outcome. by rewrite Hs.
  - right. right. left. split; [exact Hlen|]. exists lo, hi.
    split; [exact Hex|]. split; [exact Hlt|].
    pose proof (score_sheet_ordered answer_key image_obj cnts thresh
                  accepted _ Hc Hf Hg) as Hs.
    rewrite (Permutation_length (sorted_bands_perm lo hi accepted)) in Hs.
    destruct (Nat.ltb_spec (length accepted) 100) as [?|_]; [lia|].
    unfold sheet_outcome. by rewrite Hs.
  - right. right. right. split; [exact Hlen|]. split; [exact Hflat|].
    unfold sheet_outcome.
    by rewrite (score_sheet_unordered answer_key image_obj cnts thresh
                  accepted ZeroDivisionError Hc Hf Hg).
Qed.

End BatchMore.

(** X16. What a readable sheet with valid bounding boxes contributes is
    decided by its accepted candidates: a warning exactly when they are
    fewer than 100; an error entry exactly when they are more than 100
    and all have the same x-coordinate; a score report in every other
    case, that is with exactly 100 candidates or with more than 100 not
    all in one vertical line. In that last case the report is computed
    from the candidates in multi-column order. *)
Theorem sheet_scored_exactly_when `{Externals} (answer_key : gmap Z string)
    (image_obj : sheet) (cnts : list Contour) (thresh : Thresh) :
  find_contours (sheet_image image_obj) = Ok (cnts, thresh) ->
  Forall rect_ok cnts ->
  let accepted := filter is_candidate cnts in
  let in_line :=
    forall c1 c2, c1 ∈ accepted -> c2 ∈ accepted -> rect_x c1 = rect_x c2 in
  let o := sheet_outcome answer_key image_obj in
  ((exists filename found, o = Warning filename found) <->
     (length accepted < 100)%nat) /\
  ((exists filename e, o = Failed filename e) <->
     (100 < length accepted)%nat /\ in_line) /\
  ((exists filename score results_data, o = Scored filename score results_data) <->
     length accepted = 100%nat \/ ((100 < length accepted)%nat /\ ~ in_line)) /\
  (forall lo hi,
     (100 < length accepted)%nat ->
     extremes (map rect_x accepted) lo hi -> lo < hi ->
     let student_answers :=
       extract_student_answers (sorted_bands lo hi accepted) thresh in
     o = Scored (sheet_name image_obj)
           (score_rows answer_key student_answers).1
           (score_rows answer_key student_answers).2).
Proof.
  intros Hc Hok accepted in_line o.
  assert (Hspread : forall lo hi,
    extremes (map rect_x accepted) lo hi -> lo < hi -> ~ in_line).
  { intros lo hi Hex Hlt Hflat.
    destruct (extremes_span accepted lo hi Hex Hlt) as (c1 & c2 & H1 & H2 & Hne).
    apply Hne. by apply Hflat. }
  destruct (sheet_outcome_computed answer_key image_obj cnts thresh Hc Hok)
    as [[Hlen Ho]|[[Hlen Ho]|[(Hlen & lo & hi & Hex & Hlt & Ho)|(Hlen & Hflat & Ho)]]];
    fold accepted in Hlen, Ho; fold o in Ho.
  - split; [|split; [|split]].
    + split; [done|]. intros _. rewrite Ho. eauto.
    + split; [|lia]. intros (f & e & He). congruence.
    + split; [|lia]. intros (f & sc & rows & He). congruence.
    + intros; lia.
  - split; [|split; [|split]].
    + split; [|lia]. intros (f & n & He). congruence.
    + split; [|lia]. intros (f & e & He). congruence.
    + split; [by left|]. intros _. rewrite Ho. eauto.
    + intros; lia.
  - fold accepted in Hex.
    split; [|split; [|split]].
    + split; [|lia]. intros (f & n & He). congruence.
    + split; [intros (f & e & He); congruence|].
      intros [_ Hflat]. by destruct (Hspread lo hi Hex Hlt).
    + split; [|intros _; rewrite Ho; eauto].
      intros _. right. split; [exact Hlen|by apply (Hspread lo hi)].
    + intros lo' hi' _ Hex' _.
      destruct (extremes_unique _ _ _ _ _ Hex Hex') as [<- <-]. exact Ho.
  - fold accepted in Hflat.
    split; [|split; [|split]].
    + split; [|lia]. intros (f & n & He). congruence.
    + split; [done|]. intros _. rewrite Ho. eauto.
    + split; [intros (f & sc & rows & He); congruence|].
      intros [?|[_ Hnf]]; [lia|]. by destruct Hnf.
    + intros lo' hi' _ Hex' Hlt'. by destruct (Hspread lo' hi' Hex' Hlt').
Qed.

(** X17. When the image of a sheet cannot be processed (reading it or
    finding its contours raises), the exception is reported under the
    sheet's name as an error entry, and the sheets before and after it in
    the batch get the entries they would get anyway. *)
Theorem unreadable_sheet_is_reported `{Externals} (answer_key : gmap Z string)
    (image_obj : sheet) (e : exn) :
  find_contours (sheet_image image_obj) = Raise e ->
  find_and_sort_bubbles (sheet_image image_obj) = Raise e /\
  sheet_outcome answer_key image_obj = Failed (sheet_name image_obj) e /\
  forall before after key_file,
    parse_answer_key key_file = KeyAnswers answer_key ->
    score_omr_sheets (Some (before ++ image_obj :: after)) (Some key_file) =
    Batch (map (sheet_outcome answer_key) before ++
           Failed (sheet_name image_obj) e ::
           map (sheet_outcome answer_key) after).
Proof.
  intros Hc.
  assert (Hfs : find_and_sort_bubbles (sheet_image image_obj) = Raise e).
  { unfold find_and_sort_bubbles. by rewrite Hc. }
  assert (Ho : sheet_outcome answer_key image_obj =
               Failed (sheet_name image_obj) e).
  { unfold sheet_outcome, score_sheet. by rewrite Hfs. }
  split; [exact Hfs|]. split; [exact Ho|].
  intros before after key_file Hk.
  rewrite (score_omr_sheets_batch _ _ _ Hk), map_app. cbn [map].
  by rewrite Ho.
Qed.

(** The two ways the reader fails: the file cannot be read, or [int]
    raises on a cell. *)
Lemma parse_answer_key_error `{Externals} (key_file : KeyFile) (e : exn) :
  parse_answer_key key_file = KeyError e <->
  read_csv key_file = Raise e \/
  (e = ValueError /\
   exists items item,
     read_csv key_file = Ok items /\ item ∈ items /\
     cell_entry item = Raise ValueError).
Proof.
  destruct (read_csv key_file) as [items|e0] eqn:Hread.
  - rewrite (parse_answer_key_read _ _ Hread).
    destruct (key_fold_cases items ∅) as [[Hall Hok]|[(item & Hi & Hr) Hraise]].
    + rewrite Hok. split; [discriminate|].
      intros [?|(_ & items' & item & [= <-] & Hi & Hr)]; [discriminate|].
      destruct (Hall item Hi) as [entry He]. congruence.
    + rewrite Hraise. split.
      * intros [= <-]. right. split; [reflexivity|]. eauto.
      * intros [?|[-> _]]; [discriminate|reflexivity].
  - unfold parse_answer_key. rewrite Hread. cbn [mbind result_bind rbind].
    split.
    + intros [= <-]. by left.
    + intros [[= <-]|(_ & items & item & ? & _)]; [reflexivity|discriminate].
Qed.

(** X18. The three shapes of the result: the upload prompt exactly when
    the sheets or the key file are missing; the key failure exactly when
    both are given and the key file cannot be read or holds a cell on
    which [int] raises (a match of more than 4300 digits), whatever the
    sheets are, none of which is then processed; otherwise one entry per
    sheet, in upload order, each under the name of its sheet. *)
Theorem batch_report_shape `{Externals} (omr_images : option (list sheet))
    (answer_key_file : option KeyFile) :
  (score_omr_sheets omr_images answer_key_file = UploadPrompt <->
     omr_images = None \/ answer_key_file = None) /\
  (forall e, score_omr_sheets omr_images answer_key_file = KeyFailure e <->
     exists sheets key_file,
       omr_images = Some sheets /\ answer_key_file = Some key_file /\
       (read_csv key_file = Raise e \/
        (e = ValueError /\
         exists items item,
           read_csv key_file = Ok items /\ item ∈ items /\
           cell_entry item = Raise ValueError))) /\
  (forall outcomes,
     score_omr_sheets omr_images answer_key_file = Batch outcomes ->
     exists sheets, omr_images = Some sheets /\
       map outcome_name outcomes = map sheet_name sheets).
Proof.
  destruct omr_images as [sheets|], answer_key_file as [key_file|];
    cbn [score_omr_sheets].
  2-4: (split; [split; [tauto|reflexivity]|]; split;
        [intros e; split; [discriminate|];
         intros (s & k & Hs & Hk & _); discriminate|discriminate]).
  destruct (parse_answer_key key_file) as [answer_key|e0] eqn:Hparse.
  - split; [split; [discriminate|intros [?|?]; discriminate]|].
    split.
    + intros e. split; [discriminate|].
      intros (s & k & _ & [= <-] & Hk).
      apply parse_answer_key_error in Hk. congruence.
    + intros outcomes [= <-]. exists sheets. split; [reflexivity|].
      rewrite batch_fold. simpl. rewrite map_map. apply map_ext.
      intros s. apply sheet_outcome_name.
  - split; [split; [discriminate|intros [?|?]; discriminate]|].
    split; [|discriminate].
    intros e. split.
    + intros [= <-]. exists sheets, key_file.
      split; [reflexivity|]. split; [reflexivity|].
      by apply parse_answer_key_error.
    + intros (s & k & _ & [= <-] & Hk).
      apply parse_answer_key_error in Hk. congruence.
Qed.

(** * Checks by computation *)

Example test_parse :
  parse_answer_key (H := demo) (Some key_cells) =
  KeyAnswers (<[3 := "D"]> (<[2 := "B"]> (<[1 := "A"]> ∅))).
Proof. vm_compute. reflexivity. Qed.

Example test_search :
  map (fun s => cell_entry (Some s))
    ["37-B"; "37 b"; "37.B"; "notanentry"; "3.5 a"; "12 - c"; "007d"; "x9-e"] =
  [Ok (Some (37, "B")); Ok (Some (37, "B")); Ok (Some (37, "B")); Ok None;
   Ok (Some (5, "A")); Ok (Some (12, "C")); Ok None; Ok None].
Proof. vm_compute. reflexivity. Qed.

(** 4300 digits are read, 4301 are not, and one such cell loses the
    whole key. *)
Example test_digit_limit :
  cell_entry (Some (cell_of_digits 4300)) = Ok (Some (0, "B")) /\
  cell_entry (Some (cell_of_digits 4301)) = Raise ValueError /\
  parse_answer_key (H := demo) (Some [Some "1-A"; Some (cell_of_digits 4301)]) =
    KeyError ValueError.
Proof. vm_compute. repeat split. Qed.

(** Two equal counts above the threshold: the left one is recorded. *)
Example test_tie :
  extract_student_answers (H := demo)
    [bubble 30 0 180; bubble 10 0 0; bubble 20 0 180; bubble 0 0 20] tt =
  <[1 := "C"]> ∅.
Proof. vm_compute. reflexivity. Qed.

(** All four counts at or below the threshold, and a trailing remainder
    of three candidates: no entry. *)
Example test_unmarked :
  extract_student_answers (H := demo)
    [bubble 0 0 150; bubble 10 0 0; bubble 20 0 149; bubble 30 0 20;
     bubble 0 9 200; bubble 10 9 200; bubble 20 9 200] tt = ∅.
Proof. vm_compute. reflexivity. Qed.

Example test_row :
  extract_student_answers (H := demo) (question_row 0 2 ++ question_row 1 0) tt =
  <[2 := "A"]> (<[1 := "C"]> ∅).
Proof. vm_compute. reflexivity. Qed.

Example test_scenario :
  score_omr_sheets (H := demo) (Some [sheet_scenario]) (Some (Some key_scenario)) =
  Batch [Scored "scenario.png" 1
    ([(1, "A", "A", "Correct"); (2, "C", "B", "Incorrect");
      (3, "A", "N/A", "Incorrect")] ++
     map (fun q => (q, "Unanswered", "N/A", "Unanswered")) (range 4 101))].
Proof. vm_compute. reflexivity. Qed.

Example test_batch :
  score_omr_sheets (H := demo)
    (Some [sheet_99; sheet_flat; sheet_unreadable]) (Some (Some key_scenario)) =
  Batch [Warning "short.png" 99; Failed "line.png" ZeroDivisionError;
         Failed "missing.png" ExternalError].
Proof. vm_compute. reflexivity. Qed.

Example test_key_unreadable :
  score_omr_sheets (H := demo) (Some [sheet_scenario]) (Some None) =
  KeyFailure ExternalError.
Proof. reflexivity. Qed.

Example test_is_bubble :
  map (is_bubble (H := demo))
    [(0, 0, 20, 25, 0); (0, 0, 26, 20, 0); (0, 0, 27, 20, 0);
     (0, 0, 19, 19, 0); (0, 0, 400, 500, 0); (0, 0, 399, 500, 0)] =
  [Ok true; Ok true; Ok false; Ok false; Ok true; Ok false].
Proof. vm_compute. reflexivity. Qed.

Example test_columns :
  (grid_order (H := demo) cnts_columns
     ≫= fun out => Ok (map (fun c => (rect_x c, rect_y c)) (take 26 out))) =
  Ok (map (fun i => (0, 30 * Z.of_nat i)) (seq 0 24) ++ [(100, 0); (100, 30)]).
Proof. vm_compute. reflexivity. Qed.

(** The literals of the filter are the doubles that Rocq's own parser
    reads from [0.8] and [1.3]. *)
Example test_literals :
  Prim2SF 0x1.999999999999ap-1%float = PyFloat.f0_8 /\
  Prim2SF 0x1.4cccccccccccdp+0%float = PyFloat.f1_3.
Proof. split; vm_compute; reflexivity. Qed.

(** * The theorems at the worked inputs *)

Lemma score_report_complete_witness :
  let answer_key : gmap Z string := <[2 := "B"]> (<[1 := "A"]> ∅) in
  let student_answers : gmap Z string :=
    <[3 := "A"]> (<[2 := "C"]> (<[1 := "A"]> ∅)) in
  (forall q s, student_answers !! q = Some s -> is_option_letter s) /\
  length (score_rows answer_key student_answers).2 = 100%nat /\
  (score_rows answer_key student_answers).1 =
    count_status "Correct" (score_rows answer_key student_answers).2.
Proof.
  intros answer_key student_answers.
  assert (Hwf : forall q s, student_answers !! q = Some s -> is_option_letter s).
  { intros q s. unfold student_answers, is_option_letter.
    rewrite !lookup_insert_Some, lookup_empty.
    intros [[_ <-]|[_ [[_ <-]|[_ [[_ <-]|[_ ?]]]]]]; tauto || done. }
  split; [exact Hwf|].
  destruct (score_report_complete answer_key student_answers Hwf)
    as (Hlen & _ & _ & Hscore).
  split; [exact Hlen|exact Hscore].
Defined.

Lemma answer_key_reader_tolerant_witness :
  read_csv (Externals := demo) (Some key_cells) = Ok key_cells /\
  exists answers,
    parse_answer_key (H := demo) (Some key_cells) = KeyAnswers answers /\
    forall q L, answers !! q = Some L -> is_option_letter L.
Proof.
  split; [reflexivity|].
  destruct (answer_key_reader_tolerant (H := demo) (Some key_cells) key_cells
              eq_refl) as (Hparsed & _ & Hanswers & _).
  destruct (proj2 Hparsed) as [answers Hparse].
  { intros item Hitem. unfold key_cells in Hitem.
    repeat (apply elem_of_cons in Hitem as [->|Hitem];
            [eexists; reflexivity|]).
    by apply elem_of_nil in Hitem. }
  exists answers. split; [exact Hparse|].
  exact (proj2 (Hanswers answers Hparse)).
Defined.

(** C3, as stated, fails: the cell "Q3. Delhi" is not an integer, a
    separator and a letter, and yet it yields the entry 3 -> "D". *)
Lemma answer_key_reader_not_strict :
  cell_entry (Some "Q3. Delhi") = Ok (Some (3, "D")) /\
  ~ strict_cell "Q3. Delhi" 3 "D".
Proof.
  split; [reflexivity|].
  intros (ds & sep & g & Heq & Hne & Hd & _).
  destruct ds as [|d ds]; [done|].
  simpl in Heq, Hd. injection Heq as <- _. discriminate.
Qed.

Lemma rect_ok_demo (cnts : list (Z * Z * Z * Z * Z)) :
  forallb (fun c : Z * Z * Z * Z * Z =>
    let '(x, y, w, h, _) := c in
    (- 2 ^ 31 <=? x) && (x <? 2 ^ 31) && (- 2 ^ 31 <=? y) && (y <? 2 ^ 31) &&
    (1 <=? w) && (w <? 2 ^ 31) && (1 <=? h) && (h <? 2 ^ 31)) cnts = true ->
  Forall (rect_ok (H := demo)) cnts.
Proof.
  rewrite forallb_forall, Forall_forall. intros Hall c Hc.
  specialize (Hall c ltac:(by apply list_elem_of_In)).
  destruct c as [[[[x y] w] h] ink].
  unfold rect_ok, rect_x, rect_y, rect_w, rect_h. cbn [boundingRect demo fst snd].
  lia.
Defined.

Lemma region_detector_accepts_witness :
  Forall (rect_ok (H := demo)) cnts_shapes /\
  filter_bubbles (H := demo) [] cnts_shapes =
    Ok [(0, 0, 20, 25, 0); (40, 0, 26, 20, 0)].
Proof.
  assert (Hok : Forall (rect_ok (H := demo)) cnts_shapes)
    by (apply rect_ok_demo; vm_compute; reflexivity).
  split; [exact Hok|].
  destruct (region_detector_accepts (H := demo) cnts_shapes Hok)
    as (question_cnts & Hf & -> & _).
  exact Hf.
Defined.

Lemma extremes_demo (xs : list Z) (lo hi : Z) :
  existsb (Z.eqb lo) xs = true -> existsb (Z.eqb hi) xs = true ->
  forallb (fun x => (lo <=? x) && (x <=? hi)) xs = true ->
  extremes xs lo hi.
Proof.
  rewrite !existsb_exists, forallb_forall.
  intros (l & Hl & ->%Z.eqb_eq) (h & Hh & ->%Z.eqb_eq) Hall.
  split; [by apply list_elem_of_In|]. split; [by apply list_elem_of_In|].
  intros x Hx. specialize (Hall x ltac:(by apply list_elem_of_In)). lia.
Defined.

Lemma multi_column_bands_witness :
  (100 < length cnts_columns)%nat /\
  Forall (rect_ok (H := demo)) cnts_columns /\
  extremes (map (rect_x (H := demo)) cnts_columns) 0 400 /\
  grid_order (H := demo) cnts_columns =
    Ok (sorted_bands (H := demo) 0 400 cnts_columns) /\
  band 0 400 400 = 4.
Proof.
  assert (Hlen : (100 < length cnts_columns)%nat) by (vm_compute; lia).
  assert (Hok : Forall (rect_ok (H := demo)) cnts_columns)
    by (apply rect_ok_demo; vm_compute; reflexivity).
  assert (Hex : extremes (map (rect_x (H := demo)) cnts_columns) 0 400)
    by (apply extremes_demo; vm_compute; reflexivity).
  split; [exact Hlen|]. split; [exact Hok|]. split; [exact Hex|].
  destruct (multi_column_bands (H := demo) cnts_columns 0 400 Hlen Hok Hex
              ltac:(lia)) as (_ & _ & _ & Hhi & Hgo & _).
  split; [exact Hgo|exact Hhi].
Defined.

Lemma insufficient_candidates_skipped_witness :
  find_contours (Externals := demo) (sheet_image sheet_99) =
    Ok (map (fun i => bubble (Z.of_nat i) 7 0) (seq 0 99), tt) /\
  Forall (rect_ok (H := demo)) (map (fun i => bubble (Z.of_nat i) 7 0) (seq 0 99)) /\
  sheet_outcome (H := demo) ∅ sheet_99 = Warning "short.png" 99.
Proof.
  assert (Hok : Forall (rect_ok (H := demo))
                  (map (fun i => bubble (Z.of_nat i) 7 0) (seq 0 99)))
    by (apply rect_ok_demo; vm_compute; reflexivity).
  split; [reflexivity|]. split; [exact Hok|].
  destruct (insufficient_candidates_skipped (H := demo) ∅ sheet_99 _ tt
              eq_refl Hok) as (Hwarn & _).
  apply Hwarn. vm_compute. lia.
Defined.

Lemma rescoring_is_identical_witness :
  exists outcomes,
    score_omr_sheets (H := demo)
      (Some [sheet_scenario; sheet_99; sheet_scenario])
      (Some (Some key_scenario)) = Batch outcomes /\
    outcomes !! 0%nat = outcomes !! 2%nat.
Proof.
  eexists. split; [vm_compute; reflexivity|].
  eapply (rescoring_is_identical (H := demo)
            [sheet_scenario; sheet_99; sheet_scenario]
            (Some key_scenario) _ ltac:(vm_compute; reflexivity)).
  - reflexivity.
  - reflexivity.
Defined.

Lemma zero_span_is_caught_witness :
  let cnts := map (fun i => bubble 50 (30 * Z.of_nat i) 0) (seq 0 101) in
  find_contours (Externals := demo) (sheet_image sheet_flat) = Ok (cnts, tt) /\
  filter_bubbles (H := demo) [] cnts = Ok cnts /\
  (100 < length cnts)%nat /\
  (forall c1 c2, c1 ∈ cnts -> c2 ∈ cnts ->
     rect_x (H := demo) c1 = rect_x (H := demo) c2) /\
  sheet_outcome (H := demo) ∅ sheet_flat = Failed "line.png" ZeroDivisionError.
Proof.
  intros cnts.
  assert (Hf : filter_bubbles (H := demo) [] cnts = Ok cnts)
    by (vm_compute; reflexivity).
  assert (Hlen : (100 < length cnts)%nat) by (vm_compute; lia).
  assert (Hflat : forall c1 c2, c1 ∈ cnts -> c2 ∈ cnts ->
            rect_x (H := demo) c1 = rect_x (H := demo) c2).
  { assert (Hx : forall c, c ∈ cnts -> rect_x (H := demo) c = 50).
    { intros c Hc. unfold cnts in Hc.
      apply list_elem_of_In, in_map_iff in Hc as (i & <- & _). reflexivity. }
    intros c1 c2 H1 H2. by rewrite (Hx c1 H1), (Hx c2 H2). }
  split; [reflexivity|]. split; [exact Hf|]. split; [exact Hlen|].
  split; [exact Hflat|].
  destruct (zero_span_is_caught (H := demo) ∅ sheet_flat cnts cnts tt
              eq_refl Hf Hlen Hflat) as (_ & _ & Hout & _).
  exact Hout.
Defined.

Lemma empty_key_scores_zero_witness :
  let items := [Some "notanentry"; None; Some "12"; Some "B-7"] in
  read_csv (Externals := demo) (Some items) = Ok items /\
  (forall item, item ∈ items -> cell_entry item = Ok None) /\
  parse_answer_key (H := demo) (Some items) = KeyAnswers ∅ /\
  score_omr_sheets (H := demo) (Some [sheet_scenario; sheet_99]) (Some (Some items)) =
    Batch (map (sheet_outcome (H := demo) ∅) [sheet_scenario; sheet_99]).
Proof.
  intros items.
  assert (Hnone : forall item, item ∈ items -> cell_entry item = Ok None).
  { intros item Hitem. unfold items in Hitem.
    repeat (apply elem_of_cons in Hitem as [->|Hitem]; [reflexivity|]).
    by apply elem_of_nil in Hitem. }
  split; [reflexivity|]. split; [exact Hnone|].
  destruct (empty_key_scores_zero (H := demo) (Some items) items
              [sheet_scenario; sheet_99] eq_refl Hnone) as (Hk & Hb & _).
  split; [exact Hk|exact Hb].
Defined.

(** ** The further properties at the worked inputs *)

Lemma question_numbers_are_whole_witness :
  let answers : gmap Z string :=
    <[3 := "D"]> (<[2 := "B"]> (<[1 := "A"]> ∅)) in
  read_csv (Externals := demo) (Some key_cells) = Ok key_cells /\
  parse_answer_key (H := demo) (Some key_cells) = KeyAnswers answers /\
  answers !! 3 = Some "D" /\
  exists cell pre g1 rest,
    Some cell ∈ key_cells /\
    list_ascii_of_string cell = pre ++ g1 ++ rest /\
    g1 <> [] /\ forallb Re.is_digit g1 = true /\ 3 = int_of_digits g1 /\
    stops Re.is_digit rest /\ stops Re.is_digit (rev pre).
Proof.
  intros answers.
  assert (Hparse : parse_answer_key (H := demo) (Some key_cells) =
                   KeyAnswers answers) by (vm_compute; reflexivity).
  assert (HL : answers !! 3 = Some "D") by (vm_compute; reflexivity).
  split; [reflexivity|]. split; [exact Hparse|]. split; [exact HL|].
  destruct (question_numbers_are_whole (H := demo) (Some key_cells) key_cells
              answers 3 "D" eq_refl Hparse HL)
    as [_ Hrun].
  exact Hrun.
Defined.

Lemma one_entry_per_cell_witness :
  let answers : gmap Z string :=
    <[3 := "D"]> (<[2 := "B"]> (<[1 := "A"]> ∅)) in
  read_csv (Externals := demo) (Some key_cells) = Ok key_cells /\
  parse_answer_key (H := demo) (Some key_cells) = KeyAnswers answers /\
  (size answers <= length (key_entries key_cells) <= length key_cells)%nat.
Proof.
  intros answers.
  assert (Hparse : parse_answer_key (H := demo) (Some key_cells) =
                   KeyAnswers answers) by (vm_compute; reflexivity).
  split; [reflexivity|]. split; [exact Hparse|].
  destruct (one_entry_per_cell (H := demo) (Some key_cells) key_cells answers
              eq_refl Hparse) as (Hsize & _).
  exact Hsize.
Defined.

Lemma key_layout_irrelevant_witness :
  read_csv (Externals := demo) (Some key_cells_ab) = Ok key_cells_ab /\
  read_csv (Externals := demo) (Some key_cells_ba) = Ok key_cells_ba /\
  key_cells_ab ≡ₚ key_cells_ba /\
  NoDup (map fst (key_entries key_cells_ab)) /\
  parse_answer_key (H := demo) (Some key_cells_ab) =
  parse_answer_key (H := demo) (Some key_cells_ba).
Proof.
  assert (Hp : key_cells_ab ≡ₚ key_cells_ba) by apply Permutation_swap.
  assert (Hnd : NoDup (map fst (key_entries key_cells_ab))).
  { change (NoDup [1; 2]). apply NoDup_cons. split.
    - intros Hin. apply list_elem_of_singleton in Hin. discriminate.
    - apply NoDup_singleton. }
  split; [reflexivity|]. split; [reflexivity|]. split; [exact Hp|].
  split; [exact Hnd|].
  exact (key_layout_irrelevant (H := demo) (Some key_cells_ab)
           (Some key_cells_ba) key_cells_ab key_cells_ba eq_refl eq_refl Hp Hnd).
Defined.

Lemma documented_cells_are_read_witness :
  strict_cell "37-B" 37 "B" /\
  cell_entry (Some "37-B") = Ok (Some (37, "B")) /\
  cell_entry (Some "0037-B") = Ok (Some (37, "B")).
Proof.
  assert (Hs : strict_cell "37-B" 37 "B").
  { exists ["3"; "7"]%char, "-"%char, "B"%char.
    repeat split; try reflexivity; [discriminate|tauto]. }
  split; [exact Hs|].
  destruct (documented_cells_are_read "37-B" 37 "B" Hs)
    as (_ & _ & Hread & _ & Hzeros & _).
  split.
  - apply Hread. cbn. lia.
  - apply (Hzeros 2%nat). cbn. lia.
Defined.

Lemma detector_returns_accepted_witness :
  find_contours (Externals := demo) (Some cnts_shapes) = Ok (cnts_shapes, tt) /\
  Forall (rect_ok (H := demo)) cnts_shapes /\
  exists bubbles,
    find_and_sort_bubbles (H := demo) (Some cnts_shapes) = Ok (bubbles, tt) /\
    bubbles ≡ₚ filter (is_candidate (H := demo)) cnts_shapes.
Proof.
  assert (Hok : Forall (rect_ok (H := demo)) cnts_shapes)
    by (apply rect_ok_demo; vm_compute; reflexivity).
  split; [reflexivity|]. split; [exact Hok|].
  destruct (detector_returns_accepted (H := demo) (Some cnts_shapes)
              cnts_shapes tt eq_refl Hok) as (Hret & _ & _).
  exists [(0, 0, 20, 25, 0); (40, 0, 26, 20, 0)].
  split; [vm_compute; reflexivity|].
  apply (Hret _ tt). vm_compute. reflexivity.
Defined.

Lemma multi_column_reading_order_witness :
  (100 < length cnts_columns)%nat /\
  Forall (rect_ok (H := demo)) cnts_columns /\
  extremes (map (rect_x (H := demo)) cnts_columns) 0 400 /\
  exists out,
    grid_order (H := demo) cnts_columns = Ok out /\
    StronglySorted (band_y_x_le (H := demo) 0 400) out.
Proof.
  assert (Hlen : (100 < length cnts_columns)%nat) by (vm_compute; lia).
  assert (Hok : Forall (rect_ok (H := demo)) cnts_columns)
    by (apply rect_ok_demo; vm_compute; reflexivity).
  assert (Hex : extremes (map (rect_x (H := demo)) cnts_columns) 0 400)
    by (apply extremes_demo; vm_compute; reflexivity).
  split; [exact Hlen|]. split; [exact Hok|]. split; [exact Hex|].
  exact (multi_column_reading_order (H := demo) cnts_columns 0 400 Hlen Hok Hex
           ltac:(lia)).
Defined.

Lemma detection_order_irrelevant_witness :
  find_contours (Externals := demo) (Some cnts_found) = Ok (cnts_found, tt) /\
  find_contours (Externals := demo) (Some cnts_found_later) =
    Ok (cnts_found_later, tt) /\
  cnts_found ≡ₚ cnts_found_later /\
  Forall (rect_ok (H := demo)) cnts_found /\
  find_and_sort_bubbles (H := demo) (Some cnts_found) =
  find_and_sort_bubbles (H := demo) (Some cnts_found_later).
Proof.
  assert (Hp : cnts_found ≡ₚ cnts_found_later) by apply Permutation_swap.
  assert (Hok : Forall (rect_ok (H := demo)) cnts_found)
    by (apply rect_ok_demo; vm_compute; reflexivity).
  split; [reflexivity|]. split; [reflexivity|]. split; [exact Hp|].
  split; [exact Hok|].
  apply (detection_order_irrelevant (H := demo) (Some cnts_found)
           (Some cnts_found_later) cnts_found cnts_found_later tt
           eq_refl eq_refl Hp Hok).
  intros a b Ha Hb _ _ Hx _. unfold cnts_found in Ha, Hb.
  apply elem_of_cons in Ha as [->|Ha]; apply elem_of_cons in Hb as [->|Hb];
    try apply list_elem_of_singleton in Ha as ->;
    try apply list_elem_of_singleton in Hb as ->;
    try reflexivity; discriminate Hx.
Defined.

Lemma grid_order_idempotent_witness :
  grid_order (H := demo) cnts_found = Ok cnts_found_later /\
  grid_order (H := demo) cnts_found_later = Ok cnts_found_later.
Proof.
  assert (Hg : grid_order (H := demo) cnts_found = Ok cnts_found_later)
    by (vm_compute; reflexivity).
  split; [exact Hg|].
  exact (grid_order_idempotent (H := demo) cnts_found cnts_found_later Hg).
Defined.

Lemma group_decides_alone_witness :
  let bubbles1 := question_row 0 2 ++ question_row 1 0 in
  let bubbles2 := bubble 1 7 0 :: bubble 0 7 0 :: drop 2 (question_row 0 2) in
  (0 < length bubbles1 / 4)%nat /\ (0 < length bubbles2 / 4)%nat /\
  take 4 (drop (0 * 4) bubbles1) ≡ₚ take 4 (drop (0 * 4) bubbles2) /\
  extract_student_answers (H := demo) bubbles1 tt !! 1 =
  extract_student_answers (H := demo) bubbles2 tt !! 1.
Proof.
  intros bubbles1 bubbles2.
  assert (H1 : (0 < length bubbles1 / 4)%nat) by (vm_compute; lia).
  assert (H2 : (0 < length bubbles2 / 4)%nat) by (vm_compute; lia).
  assert (Hp : take 4 (drop (0 * 4) bubbles1) ≡ₚ take 4 (drop (0 * 4) bubbles2))
    by apply Permutation_swap.
  split; [exact H1|]. split; [exact H2|]. split; [exact Hp|].
  apply (group_decides_alone (H := demo) bubbles1 bubbles2 tt 0 H1 H2 Hp).
  intros a b Ha Hb Hx.
  change (take 4 (drop (0 * 4) bubbles1))
    with [bubble 0 7 0; bubble 1 7 0; bubble 2 7 200; bubble 3 7 0] in Ha, Hb.
  repeat (apply elem_of_cons in Ha as [->|Ha]);
    try (by apply elem_of_nil in Ha);
    repeat (apply elem_of_cons in Hb as [->|Hb]);
    try (by apply elem_of_nil in Hb);
    try reflexivity; discriminate Hx.
Defined.

Lemma option_letters_scenario :
  forall q s, answers_scenario !! q = Some s -> is_option_letter s.
Proof.
  intros q s. unfold answers_scenario, is_option_letter.
  rewrite !lookup_insert_Some, lookup_empty.
  intros [[_ <-]|[_ [[_ <-]|[_ [[_ <-]|[_ ?]]]]]]; tauto || done.
Defined.

Lemma only_questions_1_to_100_count_witness :
  (forall q, 1 <= q <= 100 -> key_wide !! q = key_narrow !! q) /\
  (forall q, 1 <= q <= 100 -> answers_wide !! q = answers_narrow !! q) /\
  score_rows key_wide answers_wide = score_rows key_narrow answers_narrow.
Proof.
  assert (Hk : forall q, 1 <= q <= 100 -> key_wide !! q = key_narrow !! q).
  { intros q Hq. unfold key_wide. rewrite lookup_insert_ne by lia.
    reflexivity. }
  assert (Hs : forall q, 1 <= q <= 100 ->
            answers_wide !! q = answers_narrow !! q).
  { intros q Hq. unfold answers_wide. rewrite lookup_insert_ne by lia.
    reflexivity. }
  split; [exact Hk|]. split; [exact Hs|].
  exact (only_questions_1_to_100_count key_wide key_narrow answers_wide
           answers_narrow Hk Hs).
Defined.

Lemma full_marks_iff_witness :
  (forall q s, answers_scenario !! q = Some s -> is_option_letter s) /\
  ((score_rows answers_scenario answers_scenario).1 = 100 <->
   forall q, 1 <= q <= 100 ->
     exists s, answers_scenario !! q = Some s /\
               answers_scenario !! q = Some s).
Proof.
  split; [exact option_letters_scenario|].
  destruct (full_marks_iff answers_scenario answers_scenario
              option_letters_scenario) as [Hfull _].
  exact Hfull.
Defined.

Lemma row_colours_follow_marking_witness :
  (forall q s, answers_scenario !! q = Some s -> is_option_letter s) /\
  (score_rows key_narrow answers_scenario).1 =
    Z.of_nat (length (filter
      (fun r => style_rows r = replicate 4 "background-color: #d4edda")
      (score_rows key_narrow answers_scenario).2)).
Proof.
  split; [exact option_letters_scenario|].
  destruct (row_colours_follow_marking key_narrow answers_scenario
              option_letters_scenario) as [_ Hgreen].
  exact Hgreen.
Defined.

Lemma sheet_scored_exactly_when_witness :
  let cnts := flat_map (fun i => question_row i (marks_scenario i)) (seq 0 25) in
  find_contours (Externals := demo) (sheet_image sheet_scenario) = Ok (cnts, tt) /\
  Forall (rect_ok (H := demo)) cnts /\
  length (filter (is_candidate (H := demo)) cnts) = 100%nat /\
  exists filename score results_data,
    sheet_outcome (H := demo) ∅ sheet_scenario =
    Scored filename score results_data.
Proof.
  intros cnts.
  assert (Hok : Forall (rect_ok (H := demo)) cnts)
    by (apply rect_ok_demo; vm_compute; reflexivity).
  assert (Hlen : length (filter (is_candidate (H := demo)) cnts) = 100%nat)
    by (vm_compute; reflexivity).
  split; [reflexivity|]. split; [exact Hok|]. split; [exact Hlen|].
  destruct (sheet_scored_exactly_when (H := demo) ∅ sheet_scenario cnts tt
              eq_refl Hok) as (_ & _ & Hscored & _).
  apply Hscored. left. exact Hlen.
Defined.

Lemma unreadable_sheet_is_reported_witness :
  find_contours (Externals := demo) (sheet_image sheet_unreadable) =
    Raise ExternalError /\
  sheet_outcome (H := demo) ∅ sheet_unreadable =
    Failed "missing.png" ExternalError.
Proof.
  split; [reflexivity|].
  destruct (unreadable_sheet_is_reported (H := demo) ∅ sheet_unreadable
              ExternalError eq_refl) as (_ & Hout & _).
  exact Hout.
Defined.
